(** * AMDP debug session manager (pkg/adt/amdp_session.go)

    A shallow embedding of the session manager: the manager struct, the
    goroutine that owns the remote session, the command channel and the
    per-command reply channels.

    - Go [error] values are [option string] ([None] is [nil]); messages are
      the ones the source builds with [fmt.Errorf].
    - Channels and contexts live in a store and are referred to by index, so
      that a reference read by one goroutine and closed by another is the
      same object.
    - The HTTP client and the remote system behind it are an oracle: the
      result of the n-th recorded call of [httpClient.Do] is [remote n call].
      A result may also be a fault ([DoPanic]), which is how a panic below
      [httpClient.Do] enters the model. The oracle is not told the context of
      a request: it may answer where an [http.Client] whose request context is
      done returns an error without sending, so what is proved for every
      oracle holds for that client too.
    - [trace] is a history variable: it records each call of
      [httpClient.Do], with the context of the request, and each entry into
      [cleanup]. No definition reads it except to number the calls for the
      oracle.
    - Goroutines run interleaved. A call of [Start], [Stop] or [SendCommand]
      is a sequence of steps, cut where the source releases the lock or
      waits on a channel; the worker takes one iteration of its loop at a
      time, and the deferred [cleanup] belongs to the iteration that leaves
      the loop, as it runs under the lock. *)

From stdpp Require Import base list strings gmap pretty.
From Stdlib Require Import ZArith Lia.

Set Default Proof Using "Type".

(** ** Data model *)

Abbreviation AMDPCommandType := Z (only parsing).

Definition AMDPCmdStart : AMDPCommandType := 0.
Definition AMDPCmdStop : AMDPCommandType := 1.
Definition AMDPCmdStep : AMDPCommandType := 2.
Definition AMDPCmdGetStatus : AMDPCommandType := 3.
Definition AMDPCmdGetVariables : AMDPCommandType := 4.
Definition AMDPCmdSetBreakpoint : AMDPCommandType := 5.
Definition AMDPCmdGetBreakpoints : AMDPCommandType := 6.

(** A dynamically typed value of [map[string]interface{}]. *)
Inductive Value :=
  | VString (s : string)
  | VInt (n : Z)
  | VOther.

(** [v, _ := args[k].(string)] and [v, _ := args[k].(int)]. *)
Definition argString (args : gmap string Value) (k : string) : string :=
  match args !! k with Some (VString s) => s | _ => "" end.

Definition argInt (args : gmap string Value) (k : string) : Z :=
  match args !! k with Some (VInt n) => n | _ => 0%Z end.

Record AMDPSessionState := mkState {
  SessionID : string;
  MainID : string;
  ObjectURI : string;
  Status : string;
  CurrentLine : Z;
  CurrentProc : string }.

(** The zero value [AMDPSessionState{}]. *)
Definition emptyState : AMDPSessionState := mkState "" "" "" "" 0 "".

(** The [Data interface{}] of a response, by the Go type stored in it;
    [None] is a nil map, nil pointer or nil slice of that type. *)
Inductive Data :=
  | DataNil
  | DataMap (m : option (gmap string Value))
  | DataState (s : option AMDPSessionState)
  | DataMaps (l : option (list (gmap string Value))).

Record AMDPResponse := mkResponse {
  Success : bool;
  RData : Data;
  Error : option string }.

(** The zero value [AMDPResponse{}]. *)
Definition emptyResponse : AMDPResponse := mkResponse false DataNil None.

(** [Response] is a reference to the reply channel of the call. *)
Record AMDPCommand := mkCommand {
  Type_ : AMDPCommandType;
  Args : gmap string Value;
  Response : nat }.

(** [chan AMDPCommand] with capacity 10. *)
Record Chan := mkChan {
  buf : list AMDPCommand;
  closed : bool }.

Definition cmdCap : nat := 10.

(** [chan AMDPResponse] with capacity 1: every value ever put into the
    channel, and how many of them have been received. *)
Record Slot := mkSlot {
  sent : list AMDPResponse;
  taken : nat }.

Definition slotCap : nat := 1.

Record AMDPSessionManager := mkManager {
  running : bool;
  state : AMDPSessionState;
  cmdChannel : option nat;
  baseURL : string;
  client : string;
  csrfToken : string;
  cancel : option nat }.

(** ** The remote system *)

(** One request of the manager, by the operation it encodes and the values
    that go into its URL, headers and body. *)
Inductive RemoteCall :=
  | CallFetchToken (user password : string)
  | CallStartSession (objectURI user password token : string)
  | CallStep (mainID stepType token : string)
  | CallGetStatus (mainID : string)
  | CallGetVariables (mainID : string)
  | CallGetBreakpoints (mainID : string)
  | CallSetBreakpoint (mainID procName : string) (line : Z) (token : string)
  | CallStopSession (mainID token : string)
  | CallHardStop (mainID token : string)
  | CallKeepalive (mainID : string).

(** What the code reads of a response: the status code, the X-CSRF-Token
    header, and the result of [io.ReadAll] on the body. *)
Record HttpResponse := mkHttpResponse {
  StatusCode : Z;
  XCSRFToken : string;
  Body : string;
  ReadErr : option string }.

Inductive DoResult :=
  | DoPanic (msg : string)
  | DoError (err : string)
  | DoResponse (resp : HttpResponse).

Inductive Event :=
  | EvCall (ctx : nat) (call : RemoteCall)
  | EvCleanup (ctx : nat).

(** The goroutines started by [go m.processCommands(ctx)]. *)
Inductive WorkerState :=
  | WRunning (ctx : nat)
  | WExited (ctx : nat)
  | WCrashed (ctx : nat).

Record World := mkWorld {
  mgr : AMDPSessionManager;
  chans : list Chan;
  slots : list Slot;
  ctxs : list bool;
  workers : list WorkerState;
  trace : list Event }.

Definition StatusOK : Z := 200.
Definition StatusCreated : Z := 201.
Definition StatusNoContent : Z := 204.
Definition StatusNotFound : Z := 404.

(** ** Field updates *)

Definition set_running (b : bool) (m : AMDPSessionManager) : AMDPSessionManager :=
  mkManager b (state m) (cmdChannel m) (baseURL m) (client m) (csrfToken m) (cancel m).

Definition set_state (s : AMDPSessionState) (m : AMDPSessionManager) : AMDPSessionManager :=
  mkManager (running m) s (cmdChannel m) (baseURL m) (client m) (csrfToken m) (cancel m).

Definition set_cmdChannel (c : option nat) (m : AMDPSessionManager) : AMDPSessionManager :=
  mkManager (running m) (state m) c (baseURL m) (client m) (csrfToken m) (cancel m).

Definition set_csrfToken (t : string) (m : AMDPSessionManager) : AMDPSessionManager :=
  mkManager (running m) (state m) (cmdChannel m) (baseURL m) (client m) t (cancel m).

Definition set_cancel (c : option nat) (m : AMDPSessionManager) : AMDPSessionManager :=
  mkManager (running m) (state m) (cmdChannel m) (baseURL m) (client m) (csrfToken m) c.

Definition set_mgr (m : AMDPSessionManager) (w : World) : World :=
  mkWorld m (chans w) (slots w) (ctxs w) (workers w) (trace w).

Definition set_chans (l : list Chan) (w : World) : World :=
  mkWorld (mgr w) l (slots w) (ctxs w) (workers w) (trace w).

Definition set_slots (l : list Slot) (w : World) : World :=
  mkWorld (mgr w) (chans w) l (ctxs w) (workers w) (trace w).

Definition set_ctxs (l : list bool) (w : World) : World :=
  mkWorld (mgr w) (chans w) (slots w) l (workers w) (trace w).

Definition set_workers (l : list WorkerState) (w : World) : World :=
  mkWorld (mgr w) (chans w) (slots w) (ctxs w) l (trace w).

Definition set_trace (l : list Event) (w : World) : World :=
  mkWorld (mgr w) (chans w) (slots w) (ctxs w) (workers w) l.

(** The world after the events [l] have been recorded. *)
Definition logged (l : list Event) (w : World) : World :=
  set_trace (trace w ++ l) w.

(** ** Computations that may panic *)

Inductive Res (A : Type) :=
  | Ret (a : A)
  | Panic (msg : string).
Arguments Ret {A} a.
Arguments Panic {A} msg.

Definition M (A : Type) : Type := World -> Res A * World.

Definition ret {A} (a : A) : M A := fun w => (Ret a, w).

Definition bind {A B} (m : M A) (k : A -> M B) : M B :=
  fun w => match m w with
           | (Ret a, w') => k a w'
           | (Panic msg, w') => (Panic msg, w')
           end.

Notation "x <- m ;; k" := (bind m (fun x => k))
  (at level 100, m at next level, right associativity).
Notation "m ;;; k" := (bind m (fun _ => k))
  (at level 100, right associativity).

Definition gets {A} (f : World -> A) : M A := fun w => (Ret (f w), w).
Definition modify (f : World -> World) : M unit := fun w => (Ret tt, f w).
Definition modifyMgr (f : AMDPSessionManager -> AMDPSessionManager) : M unit :=
  modify (fun w => set_mgr (f (mgr w)) w).

(** ** The manager's methods *)

Section Manager.

(** The client and the remote system: the result of the call of
    [httpClient.Do] that is recorded as the n-th event. *)
Variable remote : nat -> RemoteCall -> DoResult.
(** [http.NewRequestWithContext]: the error, if the request cannot be built. *)
Variable NewRequestWithContext : RemoteCall -> option string.
(** [xml.Unmarshal] into the session struct: (sessionId, mainId). *)
Variable xmlUnmarshal : string -> option (string * string).

(** [m.httpClient.Do(req)], for a request built on the context [ctx]. *)
Definition Do (ctx : nat) (call : RemoteCall) : M (string + HttpResponse) :=
  fun w =>
    let w' := logged [EvCall ctx call] w in
    match remote (length (trace w)) call with
    | DoPanic msg => (Panic msg, w')
    | DoError err => (Ret (inl err), w')
    | DoResponse resp => (Ret (inr resp), w')
    end.

Definition IsRunning (w : World) : bool := running (mgr w).

Definition State (w : World) : AMDPSessionState := state (mgr w).

Definition fetchCSRFToken (ctx : nat) (user password : string) : M (option string) :=
  let call := CallFetchToken user password in
  match NewRequestWithContext call with
  | Some err => ret (Some err)
  | None =>
      r <- Do ctx call ;;
      match r with
      | inl err => ret (Some err)
      | inr resp =>
          modifyMgr (set_csrfToken (XCSRFToken resp)) ;;;
          if String.eqb (XCSRFToken resp) "" || String.eqb (XCSRFToken resp) "unsafe"
          then ret (Some "failed to get CSRF token")
          else ret None
      end
  end.

Definition initiateSession (ctx : nat) (objectURI user password : string)
  : M (option string) :=
  token <- gets (fun w => csrfToken (mgr w)) ;;
  let call := CallStartSession objectURI user password token in
  match NewRequestWithContext call with
  | Some err => ret (Some err)
  | None =>
      r <- Do ctx call ;;
      match r with
      | inl err => ret (Some err)
      | inr resp =>
          if negb (Z.eqb (StatusCode resp) StatusOK)
             && negb (Z.eqb (StatusCode resp) StatusCreated)
          then ret (Some ("failed to start session: " +:+ pretty (StatusCode resp)
                            +:+ " - " +:+ Body resp))
          else
            match ReadErr resp with
            | Some err => ret (Some err)
            | None =>
                match xmlUnmarshal (Body resp) with
                | None =>
                    ret (Some ("session started but failed to parse response: "
                                 +:+ Body resp))
                | Some (sessionId, mainId) =>
                    modifyMgr (fun m =>
                      set_state (mkState sessionId mainId
                                   (ObjectURI (state m)) "running"
                                   (CurrentLine (state m)) (CurrentProc (state m))) m) ;;;
                    ret None
                end
            end
      end
  end.

Definition step (ctx : nat) (stepType : string)
  : M (option (gmap string Value) * option string) :=
  mainID <- gets (fun w => MainID (state (mgr w))) ;;
  if String.eqb mainID "" then ret (None, Some "no active session")
  else
    token <- gets (fun w => csrfToken (mgr w)) ;;
    let call := CallStep mainID stepType token in
    match NewRequestWithContext call with
    | Some err => ret (None, Some err)
    | None =>
        r <- Do ctx call ;;
        match r with
        | inl err => ret (None, Some err)
        | inr resp =>
            if negb (Z.eqb (StatusCode resp) StatusOK)
            then ret (None, Some ("step failed: " +:+ pretty (StatusCode resp)
                                    +:+ " - " +:+ Body resp))
            else ret (Some (<["stepType" := VString stepType]>
                              (<["response" := VString (Body resp)]> ∅)), None)
        end
    end.

Definition getStatus (ctx : nat) : M (option AMDPSessionState * option string) :=
  mainID <- gets (fun w => MainID (state (mgr w))) ;;
  if String.eqb mainID "" then ret (None, Some "no active session")
  else
    let call := CallGetStatus mainID in
    match NewRequestWithContext call with
    | Some err => ret (None, Some err)
    | None =>
        r <- Do ctx call ;;
        match r with
        | inl err => ret (None, Some err)
        | inr resp =>
            if negb (Z.eqb (StatusCode resp) StatusOK)
            then ret (None, Some ("get status failed: " +:+ pretty (StatusCode resp)
                                    +:+ " - " +:+ Body resp))
            else
              st <- gets (fun w => state (mgr w)) ;;
              ret (Some st, None)
        end
    end.

Definition getVariables (ctx : nat)
  : M (option (list (gmap string Value)) * option string) :=
  mainID <- gets (fun w => MainID (state (mgr w))) ;;
  if String.eqb mainID "" then ret (None, Some "no active session")
  else
    let call := CallGetVariables mainID in
    match NewRequestWithContext call with
    | Some err => ret (None, Some err)
    | None =>
        r <- Do ctx call ;;
        match r with
        | inl err => ret (None, Some err)
        | inr resp =>
            if negb (Z.eqb (StatusCode resp) StatusOK)
            then ret (None, Some ("get variables failed: " +:+ pretty (StatusCode resp)
                                    +:+ " - " +:+ Body resp))
            else ret (Some [ {["response" := VString (Body resp)]} ], None)
        end
    end.

Definition getBreakpoints (ctx : nat)
  : M (option (list (gmap string Value)) * option string) :=
  mainID <- gets (fun w => MainID (state (mgr w))) ;;
  if String.eqb mainID "" then ret (None, Some "no active session")
  else
    let call := CallGetBreakpoints mainID in
    match NewRequestWithContext call with
    | Some err => ret (None, Some err)
    | None =>
        r <- Do ctx call ;;
        match r with
        | inl err => ret (None, Some err)
        | inr resp =>
            if negb (Z.eqb (StatusCode resp) StatusOK)
            then ret (None, Some ("get breakpoints failed: " +:+ pretty (StatusCode resp)
                                    +:+ " - " +:+ Body resp))
            else ret (Some [ {["response" := VString (Body resp)]} ], None)
        end
    end.

Definition setBreakpoint (ctx : nat) (procName : string) (line : Z)
  : M (option string) :=
  mainID <- gets (fun w => MainID (state (mgr w))) ;;
  if String.eqb mainID "" then ret (Some "no active session")
  else
    token <- gets (fun w => csrfToken (mgr w)) ;;
    let call := CallSetBreakpoint mainID procName line token in
    match NewRequestWithContext call with
    | Some err => ret (Some err)
    | None =>
        r <- Do ctx call ;;
        match r with
        | inl err => ret (Some err)
        | inr resp =>
            if negb (Z.eqb (StatusCode resp) StatusOK)
               && negb (Z.eqb (StatusCode resp) StatusCreated)
            then ret (Some ("set breakpoint failed: " +:+ pretty (StatusCode resp)
                              +:+ " - " +:+ Body resp))
            else ret None
        end
    end.

Definition stopSession (ctx : nat) : M (option string) :=
  mainID <- gets (fun w => MainID (state (mgr w))) ;;
  if String.eqb mainID "" then ret None
  else
    token <- gets (fun w => csrfToken (mgr w)) ;;
    let call := CallStopSession mainID token in
    match NewRequestWithContext call with
    | Some err => ret (Some err)
    | None =>
        r <- Do ctx call ;;
        match r with
        | inl err => ret (Some err)
        | inr resp =>
            if negb (Z.eqb (StatusCode resp) StatusOK)
               && negb (Z.eqb (StatusCode resp) StatusNoContent)
               && negb (Z.eqb (StatusCode resp) StatusNotFound)
            then ret (Some ("stop session failed: " +:+ pretty (StatusCode resp)
                              +:+ " - " +:+ Body resp))
            else ret None
        end
    end.

Definition hardStop (ctx : nat) : M unit :=
  mainID <- gets (fun w => MainID (state (mgr w))) ;;
  if String.eqb mainID "" then ret tt
  else
    token <- gets (fun w => csrfToken (mgr w)) ;;
    let call := CallHardStop mainID token in
    match NewRequestWithContext call with
    | Some _ => ret tt
    | None => Do ctx call ;;; ret tt
    end.

Definition sendKeepalive (ctx : nat) : M unit :=
  mainID <- gets (fun w => MainID (state (mgr w))) ;;
  if String.eqb mainID "" then ret tt
  else
    let call := CallKeepalive mainID in
    match NewRequestWithContext call with
    | Some _ => ret tt
    | None => Do ctx call ;;; ret tt
    end.

Definition isNil (err : option string) : bool :=
  match err with None => true | Some _ => false end.

Definition handleCommand (ctx : nat) (cmd : AMDPCommand) : M AMDPResponse :=
  if Z.eqb (Type_ cmd) AMDPCmdStep then
    r <- step ctx (argString (Args cmd) "step_type") ;;
    ret (mkResponse (isNil (snd r)) (DataMap (fst r)) (snd r))
  else if Z.eqb (Type_ cmd) AMDPCmdGetStatus then
    r <- getStatus ctx ;;
    ret (mkResponse (isNil (snd r)) (DataState (fst r)) (snd r))
  else if Z.eqb (Type_ cmd) AMDPCmdGetVariables then
    r <- getVariables ctx ;;
    ret (mkResponse (isNil (snd r)) (DataMaps (fst r)) (snd r))
  else if Z.eqb (Type_ cmd) AMDPCmdGetBreakpoints then
    r <- getBreakpoints ctx ;;
    ret (mkResponse (isNil (snd r)) (DataMaps (fst r)) (snd r))
  else if Z.eqb (Type_ cmd) AMDPCmdSetBreakpoint then
    err <- setBreakpoint ctx (argString (Args cmd) "proc_name")
                             (argInt (Args cmd) "line") ;;
    ret (mkResponse (isNil err) DataNil err)
  else if Z.eqb (Type_ cmd) AMDPCmdStop then
    err <- stopSession ctx ;;
    ret (mkResponse (isNil err) DataNil err)
  else
    ret (mkResponse false DataNil (Some ("unknown command: " +:+ pretty (Type_ cmd)))).

(** [close(ch)]; a reference always points into the store. *)
Definition closeChan (r : nat) : M unit :=
  fun w =>
    match chans w !! r with
    | Some c =>
        if closed c then (Panic "close of closed channel", w)
        else (Ret tt, set_chans (<[r := mkChan (buf c) true]> (chans w)) w)
    | None => (Ret tt, w)
    end.

Definition cleanup (ctx : nat) : M unit :=
  modify (logged [EvCleanup ctx]) ;;;
  mainID <- gets (fun w => MainID (state (mgr w))) ;;
  (if String.eqb mainID "" then ret tt else hardStop ctx) ;;;
  modifyMgr (set_running false) ;;;
  modifyMgr (set_state emptyState) ;;;
  ch <- gets (fun w => cmdChannel (mgr w)) ;;
  match ch with
  | None => ret tt
  | Some r => closeChan r ;;; modifyMgr (set_cmdChannel None)
  end.

(** *** Start *)

(** Lines 117-128: the check and the initialisation, under the lock.
    Returns the error, or the context that line 131 derives for the session.
    That context is given its place in the store here; it is known to this
    call alone until line 132 stores its cancel function, which is
    [Start_cancel]. The context given to [Start] stays with the caller;
    cancelling it is the action [CancelCtx] below. *)
Definition Start_check (objectURI : string) : M (string + nat) :=
  fun w =>
    if running (mgr w) then (Ret (inl "AMDP session already active"), w)
    else
      let ch := length (chans w) in
      let ctx := length (ctxs w) in
      let m := mkManager true (mkState "" "" objectURI "starting" 0 "")
                 (Some ch) (baseURL (mgr w)) (client (mgr w))
                 (csrfToken (mgr w)) (cancel (mgr w)) in
      (Ret (inr ctx),
       set_mgr m (set_chans (chans w ++ [mkChan [] false])
                    (set_ctxs (ctxs w ++ [false]) w))).

(** Lines 131-132: [m.cancel = cancel], written after the lock is released. *)
Definition Start_cancel (ctx : nat) : M unit :=
  modifyMgr (set_cancel (Some ctx)).

(** Lines 117-132, run without interference from other goroutines. *)
Definition Start_lock (objectURI : string) : M (string + nat) :=
  r <- Start_check objectURI ;;
  match r with
  | inl e => ret (inl e)
  | inr ctx => Start_cancel ctx ;;; ret (inr ctx)
  end.

(** Lines 135-140. *)
Definition Start_fetch (ctx : nat) (user password : string) : M (option string) :=
  err <- fetchCSRFToken ctx user password ;;
  match err with
  | Some e =>
      modifyMgr (set_running false) ;;;
      ret (Some ("failed to fetch CSRF token: " +:+ e))
  | None => ret None
  end.

(** Lines 131-140: what [Start] does between its two uses of the lock. *)
Definition Start_token (ctx : nat) (user password : string) : M (option string) :=
  Start_cancel ctx ;;; Start_fetch ctx user password.

(** [go m.processCommands(ctx)] *)
Definition spawn (ctx : nat) : M unit :=
  modify (fun w => set_workers (workers w ++ [WRunning ctx]) w).

(** Lines 143-153. *)
Definition Start_initiate (ctx : nat) (objectURI user password : string)
  : M (option string) :=
  err <- initiateSession ctx objectURI user password ;;
  match err with
  | Some e =>
      modifyMgr (set_running false) ;;;
      ret (Some ("failed to start AMDP session: " +:+ e))
  | None => spawn ctx ;;; ret None
  end.

(** [Start], run without interference from other goroutines. *)
Definition Start (objectURI user password : string) : M (option string) :=
  r <- Start_lock objectURI ;;
  match r with
  | inl e => ret (Some e)
  | inr ctx =>
      err <- Start_fetch ctx user password ;;
      match err with
      | Some e => ret (Some e)
      | None => Start_initiate ctx objectURI user password
      end
  end.

(** A [Start] call among other goroutines: at its entry, past the locked
    check (before line 131), past the token fetch (before line 143), and
    returned. *)
Inductive StartPC :=
  | StartEntry (objectURI user password : string)
  | StartFetch (ctx : nat) (objectURI user password : string)
  | StartInitiate (ctx : nat) (objectURI user password : string)
  | StartReturn (err : option string)
  | StartPanic (msg : string).

Definition Start_step (pc : StartPC) (w : World) : option (StartPC * World) :=
  match pc with
  | StartEntry objectURI user password =>
      match Start_check objectURI w with
      | (Ret (inl e), w') => Some (StartReturn (Some e), w')
      | (Ret (inr ctx), w') => Some (StartFetch ctx objectURI user password, w')
      | (Panic msg, w') => Some (StartPanic msg, w')
      end
  | StartFetch ctx objectURI user password =>
      match Start_token ctx user password w with
      | (Ret (Some e), w') => Some (StartReturn (Some e), w')
      | (Ret None, w') => Some (StartInitiate ctx objectURI user password, w')
      | (Panic msg, w') => Some (StartPanic msg, w')
      end
  | StartInitiate ctx objectURI user password =>
      match Start_initiate ctx objectURI user password w with
      | (Ret err, w') => Some (StartReturn err, w')
      | (Panic msg, w') => Some (StartPanic msg, w')
      end
  | StartReturn _ | StartPanic _ => None
  end.

(** *** Stop *)

(** [m.cancel()] *)
Definition cancelCtx (c : nat) (w : World) : World :=
  set_ctxs (<[c := true]> (ctxs w)) w.

Inductive StopPC :=
  | StopEntry
  | StopCancel
  | StopReturn (err : option string).

Definition Stop_step (pc : StopPC) (w : World) : option (StopPC * World) :=
  match pc with
  | StopEntry =>
      if running (mgr w) then Some (StopCancel, w) else Some (StopReturn None, w)
  | StopCancel =>
      match cancel (mgr w) with
      | Some c => Some (StopReturn None, cancelCtx c w)
      | None => Some (StopReturn None, w)
      end
  | StopReturn _ => None
  end.

(** [Stop], run without interference from other goroutines. *)
Definition Stop : M (option string) :=
  fun w =>
    if running (mgr w) then
      match cancel (mgr w) with
      | Some c => (Ret None, cancelCtx c w)
      | None => (Ret None, w)
      end
    else (Ret None, w).

(** *** SendCommand *)

(** The case a [select] statement takes. *)
Inductive Case :=
  | CaseDone
  | CaseTick
  | CaseRecv
  | CaseSend
  | CaseTimeout.

Inductive SendPC :=
  | SendEntry (cmdType : AMDPCommandType) (args : gmap string Value)
  | SendEnqueue (cmdChan : option nat) (cmdType : AMDPCommandType)
      (args : gmap string Value)
  | SendAwait (respChan : nat)
  | SendReturn (resp : AMDPResponse) (err : option string)
  | SendPanic (msg : string).

(** One step of a [SendCommand] call; [None] when the chosen case is not
    ready (the caller stays blocked) or the call is over. *)
Definition SendCommand_step (pc : SendPC) (c : Case) (w : World)
  : option (SendPC * World) :=
  match pc with
  | SendEntry cmdType args =>
      if negb (running (mgr w))
      then Some (SendReturn emptyResponse (Some "AMDP session not running"), w)
      else Some (SendEnqueue (cmdChannel (mgr w)) cmdType args, w)
  | SendEnqueue cmdChan cmdType args =>
      let respChan := length (slots w) in
      let w1 := set_slots (slots w ++ [mkSlot [] 0]) w in
      match c with
      | CaseSend =>
          match cmdChan with
          | None => None
          | Some r =>
              match chans w !! r with
              | None => None
              | Some ch =>
                  if closed ch then Some (SendPanic "send on closed channel", w1)
                  else if length (buf ch) <? cmdCap then
                    let cmd := mkCommand cmdType args respChan in
                    Some (SendAwait respChan,
                          set_chans (<[r := mkChan (buf ch ++ [cmd]) false]> (chans w)) w1)
                  else None
              end
          end
      | CaseTimeout =>
          Some (SendReturn emptyResponse (Some "command channel timeout"), w1)
      | _ => None
      end
  | SendAwait respChan =>
      match c with
      | CaseRecv =>
          match slots w !! respChan with
          | None => None
          | Some sl =>
              match sent sl !! taken sl with
              | None => None
              | Some resp =>
                  Some (SendReturn resp None,
                        set_slots (<[respChan := mkSlot (sent sl) (S (taken sl))]> (slots w)) w)
              end
          end
      | CaseTimeout =>
          Some (SendReturn emptyResponse (Some "command response timeout"), w)
      | _ => None
      end
  | SendReturn _ _ | SendPanic _ => None
  end.

(** *** The worker goroutine *)

(** [select { case cmd.Response <- resp: default: }] *)
Definition trySend (respChan : nat) (resp : AMDPResponse) : M unit :=
  modify (fun w =>
    match slots w !! respChan with
    | Some sl =>
        if length (sent sl) - taken sl <? slotCap
        then set_slots (<[respChan := mkSlot (sent sl ++ [resp]) (taken sl)]> (slots w)) w
        else w
    | None => w
    end).

Inductive LoopCtl := Continue | Return.

(** One iteration of the [for { select { ... } }] of [processCommands],
    taking the given case; [None] when that case is not ready. *)
Definition loopBody (ctx : nat) (c : Case) (w : World)
  : option (Res LoopCtl * World) :=
  match c with
  | CaseDone =>
      match ctxs w !! ctx with
      | Some true => Some (Ret Return, w)
      | _ => None
      end
  | CaseTick => Some ((sendKeepalive ctx ;;; ret Continue) w)
  | CaseRecv =>
      match cmdChannel (mgr w) with
      | None => None
      | Some r =>
          match chans w !! r with
          | None => None
          | Some ch =>
              match buf ch with
              | [] => if closed ch then Some (Ret Return, w) else None
              | cmd :: rest =>
                  let w1 := set_chans (<[r := mkChan rest (closed ch)]> (chans w)) w in
                  Some ((resp <- handleCommand ctx cmd ;;
                         trySend (Response cmd) resp ;;;
                         if Z.eqb (Type_ cmd) AMDPCmdStop then ret Return
                         else ret Continue) w1)
              end
          end
      end
  | _ => None
  end.

(** One iteration of [processCommands] together with the deferred function
    that runs when the loop returns or panics: [recover], then [cleanup].
    A panic inside [cleanup] is not recovered. *)
Definition processCommands_step (ctx : nat) (c : Case) (w : World)
  : option (WorkerState * World) :=
  match loopBody ctx c w with
  | None => None
  | Some (Ret Continue, w1) => Some (WRunning ctx, w1)
  | Some (Ret Return, w1) | Some (Panic _, w1) =>
      match cleanup ctx w1 with
      | (Ret _, w2) => Some (WExited ctx, w2)
      | (Panic _, w2) => Some (WCrashed ctx, w2)
      end
  end.

(** ** The goroutines together *)

Inductive Thread :=
  | TStart (pc : StartPC)
  | TStop (pc : StopPC)
  | TSend (pc : SendPC).

Inductive ApiCall :=
  | ApiStart (objectURI user password : string)
  | ApiStop
  | ApiSendCommand (cmdType : AMDPCommandType) (args : gmap string Value).

Definition entry (call : ApiCall) : Thread :=
  match call with
  | ApiStart objectURI user password => TStart (StartEntry objectURI user password)
  | ApiStop => TStop StopEntry
  | ApiSendCommand cmdType args => TSend (SendEntry cmdType args)
  end.

Definition thread_step (t : Thread) (c : Case) (w : World) : option (Thread * World) :=
  match t with
  | TStart pc => prod_map TStart id <$> Start_step pc w
  | TStop pc => prod_map TStop id <$> Stop_step pc w
  | TSend pc => prod_map TSend id <$> SendCommand_step pc c w
  end.

(** [crashed]: a panic left a goroutine unrecovered and ended the process. *)
Record Config := mkConfig {
  world : World;
  threads : list Thread;
  crashed : bool }.

Inductive Action :=
  | Invoke (call : ApiCall)
  | RunThread (i : nat) (c : Case)
  | RunWorker (i : nat) (c : Case)
  | CancelCtx (ctx : nat).

Definition isCrashed (st : WorkerState) : bool :=
  match st with WCrashed _ => true | _ => false end.

Definition lts_step (a : Action) (cf : Config) : option Config :=
  if crashed cf then None
  else
    match a with
    | Invoke call => Some (mkConfig (world cf) (threads cf ++ [entry call]) false)
    | RunThread i c =>
        match threads cf !! i with
        | None => None
        | Some t =>
            match thread_step t c (world cf) with
            | None => None
            | Some (t', w') => Some (mkConfig w' (<[i := t']> (threads cf)) false)
            end
        end
    | RunWorker i c =>
        match workers (world cf) !! i with
        | Some (WRunning ctx) =>
            match processCommands_step ctx c (world cf) with
            | None => None
            | Some (st, w') =>
                Some (mkConfig (set_workers (<[i := st]> (workers w')) w')
                        (threads cf) (isCrashed st))
            end
        | _ => None
        end
    | CancelCtx ctx =>
        if decide (ctx < length (ctxs (world cf)))
        then Some (mkConfig (cancelCtx ctx (world cf)) (threads cf) false)
        else None
    end.

Fixpoint exec (acts : list Action) (cf : Config) : option Config :=
  match acts with
  | [] => Some cf
  | a :: rest =>
      match lts_step a cf with
      | Some cf' => exec rest cf'
      | None => None
      end
  end.

End Manager.

(** [NewAMDPSessionManager] *)
Definition NewAMDPSessionManager (baseURL client : string) (insecure : bool)
  : AMDPSessionManager :=
  mkManager false emptyState None baseURL client "" None.

Definition initConfig (baseURL client : string) (insecure : bool) : Config :=
  mkConfig (mkWorld (NewAMDPSessionManager baseURL client insecure) [] [] [] [] [])
    [] false.

(** ** Reading the trace *)

Definition isHardStopCall (call : RemoteCall) : bool :=
  match call with CallHardStop _ _ => true | _ => false end.

Definition isStartSessionCall (call : RemoteCall) : bool :=
  match call with CallStartSession _ _ _ _ => true | _ => false end.

Definition isCleanup (ctx : nat) (ev : Event) : bool :=
  match ev with EvCleanup c => Nat.eqb c ctx | _ => false end.

Definition isHardStop (ctx : nat) (ev : Event) : bool :=
  match ev with EvCall c call => Nat.eqb c ctx && isHardStopCall call | _ => false end.

Definition evCtx (ev : Event) : nat :=
  match ev with EvCall c _ => c | EvCleanup c => c end.

Fixpoint count (p : Event -> bool) (l : list Event) : nat :=
  match l with
  | [] => 0
  | ev :: rest => (if p ev then 1 else 0) + count p rest
  end.

(** How often [cleanup] was entered for the session of [ctx], and how often
    a hard-stop request was handed to the client for it. *)
Definition cleanups (ctx : nat) (w : World) : nat := count (isCleanup ctx) (trace w).
Definition hardStops (ctx : nat) (w : World) : nat := count (isHardStop ctx) (trace w).

Definition isStartSession (ev : Event) : bool :=
  match ev with EvCall _ call => isStartSessionCall call | _ => false end.

(** A request of the session [ctx] other than the hard stop. *)
Definition benign (ctx : nat) (ev : Event) : Prop :=
  exists call, ev = EvCall ctx call /\ isHardStopCall call = false.

(** ** Invariants *)

(** Whether a worker goroutine is no longer in its loop. *)
Definition hasLeft (st : WorkerState) : bool :=
  match st with WRunning _ => false | _ => true end.

(** [m] leaves the world as it is, up to at most one recorded request of
    the session [ctx], which is not the hard stop. *)
Definition calls_only {A} (ctx : nat) (m : M A) : Prop :=
  forall w, exists l,
    snd (m w) = logged l w /\ Forall (benign ctx) l /\ length l <= 1.

(** The fields the token fetch leaves alone. *)
Definition same_session (m m' : AMDPSessionManager) : Prop :=
  state m' = state m /\ cmdChannel m' = cmdChannel m /\ cancel m' = cancel m /\
  baseURL m' = baseURL m /\ client m' = client m.

(** The channels, contexts and goroutines are the same. *)
Definition same_store (w w' : World) : Prop :=
  chans w' = chans w /\ slots w' = slots w /\ ctxs w' = ctxs w /\
  workers w' = workers w.

(** The command channel of the manager, when set, is an open channel. *)
Definition chan_ok (w : World) : Prop :=
  forall r, cmdChannel (mgr w) = Some r ->
    exists ch, chans w !! r = Some ch /\ closed ch = false.

(** The session context a [Start] call in flight has created. *)
Definition owns (t : Thread) : option nat :=
  match t with
  | TStart (StartFetch ctx _ _ _) | TStart (StartInitiate ctx _ _ _) => Some ctx
  | _ => None
  end.

(** Who holds the session of [ctx]: the [Start] call at thread [inl i], or
    the worker goroutine [inr k]. *)
Definition holds (ths : list Thread) (wks : list WorkerState)
    (p : nat + nat) (ctx : nat) : Prop :=
  match p with
  | inl i => exists t, ths !! i = Some t /\ owns t = Some ctx
  | inr k => wks !! k = Some (WRunning ctx)
  end.

(** One session at a time: whoever holds a session holds it alone, with the
    running flag set and before any [cleanup] for it; a worker that has left
    its loop has had its [cleanup]; no session is cleaned up twice, and the
    hard stop is requested only from within [cleanup]. [run] is the running
    flag and [n] the number of contexts made so far. *)
Record sess (run : bool) (n : nat) (tr : list Event)
    (ths : list Thread) (wks : list WorkerState) : Prop := mkSess {
  sess_held : forall p ctx, holds ths wks p ctx ->
    run = true /\ ctx < n /\
    count (isCleanup ctx) tr = 0 /\ count (isHardStop ctx) tr = 0;
  sess_unique : forall p p' ctx ctx',
    holds ths wks p ctx -> holds ths wks p' ctx' -> p = p';
  sess_done : forall k ctx,
    wks !! k = Some (WExited ctx) \/ wks !! k = Some (WCrashed ctx) ->
    count (isCleanup ctx) tr = 1;
  sess_bound : Forall (fun ev => evCtx ev < n) tr;
  sess_counts : forall ctx,
    count (isCleanup ctx) tr <= 1 /\
    count (isHardStop ctx) tr <= count (isCleanup ctx) tr }.

Definition session_inv (cf : Config) : Prop :=
  sess (running (mgr (world cf))) (length (ctxs (world cf)))
    (trace (world cf)) (threads cf) (workers (world cf)).

(** How many queued commands carry the reply channel [s]. *)
Fixpoint occ (s : nat) (cmds : list AMDPCommand) : nat :=
  match cmds with
  | [] => 0
  | cmd :: rest => (if Nat.eqb (Response cmd) s then 1 else 0) + occ s rest
  end.

(** The same, over all command channels. *)
Fixpoint pending (s : nat) (chs : list Chan) : nat :=
  match chs with
  | [] => 0
  | ch :: rest => occ s (buf ch) + pending s rest
  end.

(** How many responses were ever put into the reply channel [s]. *)
Definition received (s : nat) (sls : list Slot) : nat :=
  match sls !! s with Some sl => length (sent sl) | None => 0 end.

(** A reply channel is referred to by at most one queued command and then
    holds no response yet, or by none and has had at most one response; and
    no queued command refers to a channel that is not made yet. *)
Definition slots_inv (w : World) : Prop :=
  forall s,
    pending s (chans w) + received s (slots w) <= 1 /\
    (length (slots w) <= s -> pending s (chans w) = 0).


(** An answer to the session creation that [initiateSession] goes on to
    unmarshal: the status is 200 or 201 and the body could be read. *)
Definition accepted (resp : HttpResponse) : bool :=
  (Z.eqb (StatusCode resp) StatusOK || Z.eqb (StatusCode resp) StatusCreated)
  && isNil (ReadErr resp).

Section StateInvariant.

Variable remote : nat -> RemoteCall -> DoResult.
Variable xmlUnmarshal : string -> option (string * string).

(** The session state is the empty one or the one of a [Start] in flight,
    with no MainID; or it is running with the mainId unmarshalled from a
    document with which the remote system answers a session creation. *)
Definition state_inv (w : World) : Prop :=
  (MainID (state (mgr w)) = "" /\
   (Status (state (mgr w)) = "" \/ Status (state (mgr w)) = "starting")) \/
  (Status (state (mgr w)) = "running" /\
   exists n call resp sessionId,
     remote n call = DoResponse resp /\ isStartSessionCall call = true /\
     accepted resp = true /\
     xmlUnmarshal (Body resp) = Some (sessionId, MainID (state (mgr w)))).

(** What holds after every run from a new manager. *)
Definition reachable_inv (cf : Config) : Prop :=
  chan_ok (world cf) /\ session_inv cf /\ slots_inv (world cf) /\
  state_inv (world cf).

End StateInvariant.

(** ** Sample remote systems and runs *)

Definition sessionXml : string :=
  "<session><sessionId>S1</sessionId><mainId>M1</mainId></session>".

(** A remote system that accepts everything. *)
Definition sample_remote (n : nat) (call : RemoteCall) : DoResult :=
  match call with
  | CallFetchToken _ _ => DoResponse (mkHttpResponse 200 "tok-1" "" None)
  | CallStartSession _ _ _ _ => DoResponse (mkHttpResponse 201 "" sessionXml None)
  | _ => DoResponse (mkHttpResponse 200 "" "<ok/>" None)
  end.

Definition sample_newRequest (call : RemoteCall) : option string := None.

(** [xml.Unmarshal] into the session struct, for documents without
    attributes, name spaces or white space: the root element has to be
    [session]; a field is the text of the first element of its name, and
    keeps its zero value when there is none. *)
Definition element (name body : string) : string :=
  let open := "<" +:+ name +:+ ">" in
  let close := "</" +:+ name +:+ ">" in
  match String.index 0 open body with
  | Some i =>
      let from := i + String.length open in
      match String.index from close body with
      | Some j => String.substring from (j - from) body
      | None => ""
      end
  | None => ""
  end.

Definition sample_xml (body : string) : option (string * string) :=
  match String.index 0 "</session>" body with
  | Some _ =>
      if String.prefix "<session>" body
      then Some (element "sessionId" body, element "mainId" body)
      else None
  | None => None
  end.

(** A remote system that refuses the connection of the token fetch. *)
Definition refusing_remote (n : nat) (call : RemoteCall) : DoResult :=
  match call with
  | CallFetchToken _ _ => DoError "connection refused"
  | _ => sample_remote n call
  end.

(** A remote system that answers the token fetch without a usable token. *)
Definition unsafe_remote (n : nat) (call : RemoteCall) : DoResult :=
  match call with
  | CallFetchToken _ _ => DoResponse (mkHttpResponse 200 "unsafe" "" None)
  | _ => sample_remote n call
  end.

(** A remote system that rejects the session creation. *)
Definition rejecting_remote (n : nat) (call : RemoteCall) : DoResult :=
  match call with
  | CallStartSession _ _ _ _ => DoResponse (mkHttpResponse 403 "" "forbidden" None)
  | _ => sample_remote n call
  end.

(** A client that faults below [httpClient.Do] on a step request. *)
Definition faulting_remote (n : nat) (call : RemoteCall) : DoResult :=
  match call with
  | CallStep _ _ _ => DoPanic "runtime error: invalid memory address"
  | _ => sample_remote n call
  end.



(** A remote system whose step result reports a stop at line 42. *)
Definition stepXml : string :=
  "<stepResult><status>breakpoint</status><line>42</line><proc>CALC</proc></stepResult>".

Definition stepping_remote (n : nat) (call : RemoteCall) : DoResult :=
  match call with
  | CallStep _ _ _ => DoResponse (mkHttpResponse 200 "" stepXml None)
  | _ => sample_remote n call
  end.

Definition newManager : Config := initConfig "https://sap.example" "001" false.

(** A manager on which [Start] has succeeded. *)
Definition startActs : list Action :=
  [ Invoke (ApiStart "/sap/bc/adt/oo/classes/zcl_amdp" "DEV" "secret");
    RunThread 0 CaseSend; RunThread 0 CaseSend; RunThread 0 CaseSend ].

(** A manager with a running session. *)
Definition runningConfig : Config :=
  Eval vm_compute in
    default newManager (exec sample_remote sample_newRequest sample_xml startActs newManager).

(** [Stop] has been called on it and has cancelled the session context. *)
Definition stopActs : list Action :=
  startActs ++ [ Invoke ApiStop; RunThread 1 CaseSend; RunThread 1 CaseSend ].

Definition stoppingConfig : Config :=
  Eval vm_compute in
    default newManager (exec sample_remote sample_newRequest sample_xml stopActs newManager).

(** The worker has seen the cancellation. *)
Definition stoppedConfig : Config :=
  Eval vm_compute in
    default newManager
      (lts_step sample_remote sample_newRequest sample_xml (RunWorker 0 CaseDone)
         stoppingConfig).

Definition stepCmd : AMDPCommand :=
  mkCommand AMDPCmdStep {["step_type" := VString "over"]} 0.

(** A step command has been queued on a running manager. *)
Definition queueActs : list Action :=
  startActs ++
  [ Invoke (ApiSendCommand AMDPCmdStep {["step_type" := VString "over"]});
    RunThread 1 CaseSend; RunThread 1 CaseSend ].

Definition queuedConfig : Config :=
  Eval vm_compute in
    default newManager
      (exec faulting_remote sample_newRequest sample_xml queueActs newManager).

(** Scenario A: start, one step, stop. *)
Definition scenarioA : list Action :=
  startActs ++
  [ Invoke (ApiSendCommand AMDPCmdStep {["kind" := VString "over"]});
    RunThread 1 CaseSend; RunThread 1 CaseSend; RunWorker 0 CaseRecv;
    RunThread 1 CaseRecv;
    Invoke (ApiSendCommand AMDPCmdStop ∅);
    RunThread 2 CaseSend; RunThread 2 CaseSend; RunWorker 0 CaseRecv;
    RunThread 2 CaseRecv ].

(** The world after a [Start] whose session creation was rejected. *)
Definition rejectedWorld : World :=
  Eval vm_compute in
    snd (Start rejecting_remote sample_newRequest sample_xml
           "/sap/bc/adt/oo/classes/zcl_amdp" "DEV" "secret" (world newManager)).

(** ** Reading a request *)

(** The session a request is addressed to, by the id in its URL. *)
Definition callMainID (call : RemoteCall) : option string :=
  match call with
  | CallFetchToken _ _ | CallStartSession _ _ _ _ => None
  | CallStep m _ _ | CallGetStatus m | CallGetVariables m | CallGetBreakpoints m
  | CallSetBreakpoint m _ _ _ | CallStopSession m _ | CallHardStop m _
  | CallKeepalive m => Some m
  end.

(** The X-CSRF-Token header of a request, when the source sets one. *)
Definition callToken (call : RemoteCall) : option string :=
  match call with
  | CallStartSession _ _ _ t | CallStep _ _ t | CallSetBreakpoint _ _ _ t
  | CallStopSession _ t | CallHardStop _ t => Some t
  | _ => None
  end.

(** The command type whose handler issues the request. *)
Definition callKind (call : RemoteCall) : option AMDPCommandType :=
  match call with
  | CallStopSession _ _ => Some AMDPCmdStop
  | CallStep _ _ _ => Some AMDPCmdStep
  | CallGetStatus _ => Some AMDPCmdGetStatus
  | CallGetVariables _ => Some AMDPCmdGetVariables
  | CallSetBreakpoint _ _ _ _ => Some AMDPCmdSetBreakpoint
  | CallGetBreakpoints _ => Some AMDPCmdGetBreakpoints
  | _ => None
  end.

(** A response without a payload: no Data, or a nil map, pointer or slice. *)
Definition noData (d : Data) : bool :=
  match d with
  | DataNil | DataMap None | DataState None | DataMaps None => true
  | _ => false
  end.

(** The command types [handleCommand] has a case for. *)
Definition handled (t : AMDPCommandType) : bool :=
  Z.leb AMDPCmdStop t && Z.leb t AMDPCmdGetBreakpoints.

(** A remote system that is down after the session has been created. *)
Definition down_remote (n : nat) (call : RemoteCall) : DoResult :=
  match call with
  | CallFetchToken _ _ | CallStartSession _ _ _ _ => sample_remote n call
  | _ => DoError "connection reset by peer"
  end.

(** A remote system on which the session is already gone. *)
Definition gone_remote (n : nat) (call : RemoteCall) : DoResult :=
  match call with
  | CallStopSession _ _ => DoResponse (mkHttpResponse 404 "" "not found" None)
  | _ => sample_remote n call
  end.

Definition statusCmd : AMDPCommand := mkCommand AMDPCmdGetStatus ∅ 0.
Definition stopCmd : AMDPCommand := mkCommand AMDPCmdStop ∅ 0.
Definition startCmd : AMDPCommand := mkCommand AMDPCmdStart ∅ 0.

(** A SetBreakpoint command whose line is given as a string. *)
Definition mistypedCmd : AMDPCommand :=
  mkCommand AMDPCmdSetBreakpoint {["line" := VString "12"]} 0.

(** ** Further invariants *)

(** The session context whose cancel function a [Start] call has stored:
    the call is past line 132. *)
Definition stored (t : Thread) : option nat :=
  match t with
  | TStart (StartInitiate ctx _ _ _) => Some ctx
  | _ => None
  end.

(** The manager's cancel function is the one of the session that is held,
    once its [Start] call has stored it. *)
Definition cancel_inv (cf : Config) : Prop :=
  (forall i t ctx,
     threads cf !! i = Some t -> stored t = Some ctx ->
     cancel (mgr (world cf)) = Some ctx) /\
  (forall k ctx,
     workers (world cf) !! k = Some (WRunning ctx) ->
     cancel (mgr (world cf)) = Some ctx).

(** The cancel function of the manager is one of a context that exists,
    and it is not the one of a session whose [Start] call has yet to store
    it (the call is before line 132). *)
Definition unstored_inv (cf : Config) : Prop :=
  (forall c, cancel (mgr (world cf)) = Some c -> c < length (ctxs (world cf))) /\
  (forall j ctx o u p,
     threads cf !! j = Some (TStart (StartFetch ctx o u p)) ->
     cancel (mgr (world cf)) <> Some ctx).

(** What one operation does to the channels: nothing; a new channel; a
    command put into an open channel with room; a command taken from an
    open channel; an open channel closed. *)
Definition chans_step (C C' : list Chan) : Prop :=
  C' = C \/
  C' = C ++ [mkChan [] false] \/
  (exists r ch cmd,
     C !! r = Some ch /\ closed ch = false /\ length (buf ch) < cmdCap /\
     C' = <[r := mkChan (buf ch ++ [cmd]) false]> C) \/
  (exists r ch cmd rest,
     C !! r = Some ch /\ closed ch = false /\ buf ch = cmd :: rest /\
     C' = <[r := mkChan rest false]> C) \/
  (exists r ch,
     C !! r = Some ch /\ closed ch = false /\
     C' = <[r := mkChan (buf ch) true]> C).

(** The channels after an operation that at most closes one open channel. *)
Definition chans_close (C C' : list Chan) : Prop :=
  C' = C \/
  (exists r ch,
     C !! r = Some ch /\ closed ch = false /\
     C' = <[r := mkChan (buf ch) true]> C).

(** A response has been put into the reply channel [s]. *)
Definition answered (w : World) (s : nat) : Prop :=
  exists sl, slots w !! s = Some sl /\ sent sl <> [].

(** The command [a] is queued ahead of [b] in the channel [r]. *)
Definition ahead (C : list Chan) (r : nat) (a b : AMDPCommand) : Prop :=
  exists ch pre mid post,
    C !! r = Some ch /\ buf ch = pre ++ a :: mid ++ b :: post.

(** The command [b] is left in the channel [r], which is closed. *)
Definition stuck (C : list Chan) (r : nat) (b : AMDPCommand) : Prop :=
  exists ch, C !! r = Some ch /\ closed ch = true /\ b ∈ buf ch.

(** Of two commands queued one behind the other: both are still queued, in
    that order; or the first has been answered; or the second will never be
    answered, being left in a closed channel or in a process that has
    ended. *)
Definition fifo_inv (r : nat) (a b : AMDPCommand) (cf : Config) : Prop :=
  ahead (chans (world cf)) r a b \/
  answered (world cf) (Response a) \/
  stuck (chans (world cf)) r b \/
  (crashed cf = true /\ ~ answered (world cf) (Response b)).

(** The reply channel a [SendCommand] call waits on. *)
Definition awaits (t : Thread) : option nat :=
  match t with TSend (SendAwait s) => Some s | _ => None end.

(** Reply channels are private. [T] lists, for each reply channel, how
    many responses have been received from it: a call that waits does so on
    a channel that exists and that nobody has received from, no two calls
    wait on the same channel, and no channel is received from twice. *)
Record priv (T : list nat) (ths : list Thread) : Prop := mkPriv {
  priv_wait : forall i t s, ths !! i = Some t -> awaits t = Some s -> T !! s = Some 0;
  priv_uniq : forall i j t t' s,
    ths !! i = Some t -> awaits t = Some s ->
    ths !! j = Some t' -> awaits t' = Some s -> i = j;
  priv_once : forall s n, T !! s = Some n -> n <= 1 }.

Definition private_inv (cf : Config) : Prop :=
  priv (taken <$> slots (world cf)) (threads cf).

(** ** Further sample runs *)

(** [Stop] has passed its running check on a running manager. *)
Definition stopCheckedActs : list Action :=
  startActs ++ [ Invoke ApiStop; RunThread 1 CaseSend ].

Definition stopCheckedConfig : Config :=
  Eval vm_compute in
    default newManager
      (exec sample_remote sample_newRequest sample_xml stopCheckedActs newManager).

(** A [SendCommand] call has read the command channel, and the context of
    the session has been cancelled from outside. *)
Definition racingActs : list Action :=
  startActs ++
  [ Invoke (ApiSendCommand AMDPCmdGetVariables ∅); RunThread 1 CaseSend; CancelCtx 0 ].

Definition racingConfig : Config :=
  Eval vm_compute in
    default newManager
      (exec sample_remote sample_newRequest sample_xml racingActs newManager).

(** The worker has seen that cancellation. *)
Definition racedConfig : Config :=
  Eval vm_compute in
    default newManager
      (lts_step sample_remote sample_newRequest sample_xml (RunWorker 0 CaseDone)
         racingConfig).

(** A step command has been queued and answered by nobody yet, and its
    caller has given up waiting for the response. *)
Definition abandonedActs : list Action :=
  startActs ++
  [ Invoke (ApiSendCommand AMDPCmdStep {["step_type" := VString "over"]});
    RunThread 1 CaseSend; RunThread 1 CaseSend; RunThread 1 CaseTimeout ].

Definition abandonedConfig : Config :=
  Eval vm_compute in
    default newManager
      (exec sample_remote sample_newRequest sample_xml abandonedActs newManager).

Definition stepResponse : AMDPResponse :=
  mkResponse true
    (DataMap (Some (<["stepType" := VString "over"]>
                      (<["response" := VString "<ok/>"]> ∅)))) None.

(** The calls 1 to 10 have each queued a GetStatus command; the call 11 has
    read the command channel and is about to send. *)
Definition fullActs : list Action :=
  startActs ++
  flat_map (fun i => [ Invoke (ApiSendCommand AMDPCmdGetStatus ∅);
                       RunThread i CaseSend; RunThread i CaseSend ]) (seq 1 10) ++
  [ Invoke (ApiSendCommand AMDPCmdGetStatus ∅); RunThread 11 CaseSend ].

Definition fullConfig : Config :=
  Eval vm_compute in
    default newManager
      (exec sample_remote sample_newRequest sample_xml fullActs newManager).

Definition fullChan : Chan :=
  Eval vm_compute in default (mkChan [] false) (chans (world fullConfig) !! 0).

(** A step command is queued, a second call has read the command channel,
    and the worker has left on a cancellation: the channel is closed with
    the step command in it. *)
Definition leftActs : list Action :=
  startActs ++
  [ Invoke (ApiSendCommand AMDPCmdStep {["step_type" := VString "over"]});
    RunThread 1 CaseSend; RunThread 1 CaseSend;
    Invoke (ApiSendCommand AMDPCmdGetVariables ∅); RunThread 2 CaseSend;
    CancelCtx 0; RunWorker 0 CaseDone ].

Definition leftConfig : Config :=
  Eval vm_compute in
    default newManager
      (exec sample_remote sample_newRequest sample_xml leftActs newManager).

(** What follows: the second call sends, a new session is started and
    handles a command of its own, and the first call gives up waiting. *)
Definition laterActs : list Action :=
  [ RunThread 2 CaseSend;
    Invoke (ApiStart "/sap/bc/adt/oo/classes/zcl_amdp" "DEV" "secret");
    RunThread 3 CaseSend; RunThread 3 CaseSend; RunThread 3 CaseSend;
    Invoke (ApiSendCommand AMDPCmdGetStatus ∅);
    RunThread 4 CaseSend; RunThread 4 CaseSend;
    RunWorker 1 CaseRecv; RunThread 4 CaseRecv;
    RunThread 1 CaseTimeout ].

(** A Stop command has been queued on a running manager, and handled. *)
Definition stopQueuedActs : list Action :=
  startActs ++
  [ Invoke (ApiSendCommand AMDPCmdStop ∅); RunThread 1 CaseSend; RunThread 1 CaseSend ].

Definition stopQueuedConfig : Config :=
  Eval vm_compute in
    default newManager
      (exec sample_remote sample_newRequest sample_xml stopQueuedActs newManager).

Definition stopHandledConfig : Config :=
  Eval vm_compute in
    default newManager
      (lts_step sample_remote sample_newRequest sample_xml (RunWorker 0 CaseRecv)
         stopQueuedConfig).

(** A step command and then a GetStatus command have been queued. *)
Definition twoQueuedActs : list Action :=
  startActs ++
  [ Invoke (ApiSendCommand AMDPCmdStep {["step_type" := VString "over"]});
    RunThread 1 CaseSend; RunThread 1 CaseSend;
    Invoke (ApiSendCommand AMDPCmdGetStatus ∅);
    RunThread 2 CaseSend; RunThread 2 CaseSend ].

Definition twoQueuedConfig : Config :=
  Eval vm_compute in
    default newManager
      (exec sample_remote sample_newRequest sample_xml twoQueuedActs newManager).

Definition statusCmd1 : AMDPCommand := mkCommand AMDPCmdGetStatus ∅ 1.

(** The worker has handled the first of them, and then the second. *)
Definition oneHandledConfig : Config :=
  Eval vm_compute in
    default newManager
      (lts_step sample_remote sample_newRequest sample_xml (RunWorker 0 CaseRecv)
         twoQueuedConfig).

Definition bothHandledConfig : Config :=
  Eval vm_compute in
    default newManager
      (lts_step sample_remote sample_newRequest sample_xml (RunWorker 0 CaseRecv)
         oneHandledConfig).

(** [Start] has released the lock and has yet to store the cancel function;
    [Stop] has passed its running check. *)
Definition startingActs : list Action :=
  [ Invoke (ApiStart "/sap/bc/adt/oo/classes/zcl_amdp" "DEV" "secret");
    RunThread 0 CaseSend; Invoke ApiStop; RunThread 1 CaseSend ].

Definition startingConfig : Config :=
  Eval vm_compute in
    default newManager
      (exec sample_remote sample_newRequest sample_xml startingActs newManager).

(** * Proofs *)

Lemma count_app p l1 l2 : count p (l1 ++ l2) = count p l1 + count p l2.
Proof. induction l1 as [|ev l1 IH]; simpl; [done | rewrite IH; lia]. Qed.

Lemma count_benign_cleanup ctx c l :
  Forall (benign ctx) l -> count (isCleanup c) l = 0.
Proof.
  induction 1 as [|ev l [call [-> _]] _ IH]; simpl; [done | exact IH].
Qed.

Lemma count_benign_hardStop ctx c l :
  Forall (benign ctx) l -> count (isHardStop c) l = 0.
Proof.
  induction 1 as [|ev l [call [-> Hc]] _ IH]; simpl; [done |].
  rewrite Hc, andb_false_r. exact IH.
Qed.

Lemma benign_evCtx ctx l :
  Forall (benign ctx) l -> Forall (fun ev => evCtx ev = ctx) l.
Proof. intros H. eapply Forall_impl; [exact H |]. by intros ev [call [-> _]]. Qed.

Lemma elem_of_behind {A} (mid post : list A) (b : A) : b ∈ mid ++ b :: post.
Proof. set_solver. Qed.

Lemma elem_of_queued {A} (pre mid post : list A) (a b : A) :
  b ∈ pre ++ a :: mid ++ b :: post.
Proof. set_solver. Qed.

Lemma logged_nil w : logged [] w = w.
Proof. destruct w. unfold logged, set_trace. simpl. by rewrite app_nil_r. Qed.

(** ** Methods that only issue requests *)

Section Frames.

Variable remote : nat -> RemoteCall -> DoResult.
Variable NewRequestWithContext : RemoteCall -> option string.
Variable xmlUnmarshal : string -> option (string * string).

Lemma calls_only_ret {A} ctx (a : A) : calls_only ctx (ret a).
Proof.
  intros w. exists [].
  split; [by rewrite logged_nil | split; [constructor | simpl; lia]].
Qed.

Lemma calls_only_gets {A B} ctx (f : World -> A) (k : A -> M B) :
  (forall a, calls_only ctx (k a)) -> calls_only ctx (bind (gets f) k).
Proof. intros H w. unfold bind, gets. apply H. Qed.

Lemma calls_only_Do {A} ctx call (k : string + HttpResponse -> M A) :
  isHardStopCall call = false ->
  (forall r, exists a, k r = ret a) ->
  calls_only ctx (bind (Do remote ctx call) k).
Proof.
  intros Hc Hk w. exists [EvCall ctx call].
  split; [| split; [repeat constructor; by exists call | simpl; lia]].
  unfold bind, Do.
  destruct (remote _ call) as [msg|err|resp]; [done | |].
  - by destruct (Hk (inl err)) as [a ->].
  - by destruct (Hk (inr resp)) as [a ->].
Qed.

Lemma calls_only_map {A B} ctx (m : M A) (f : A -> B) :
  calls_only ctx m -> calls_only ctx (bind m (fun a => ret (f a))).
Proof.
  intros H w. destruct (H w) as [l [Hl Hb]]. exists l. split; [| done].
  unfold bind, ret. by destruct (m w) as [[a|msg] w'].
Qed.

Ltac calls_only_tac :=
  repeat first
    [ apply calls_only_ret
    | apply calls_only_gets; intros ?
    | apply calls_only_Do;
      [ reflexivity
      | intros [?|?]; repeat case_match; eexists; reflexivity ]
    | case_match ].

Lemma step_calls_only ctx stepType :
  calls_only ctx (step remote NewRequestWithContext ctx stepType).
Proof. unfold step. calls_only_tac. Qed.

Lemma getStatus_calls_only ctx :
  calls_only ctx (getStatus remote NewRequestWithContext ctx).
Proof.
  unfold getStatus. calls_only_tac.
  intros w. exists [EvCall ctx (CallGetStatus a)].
  split; [| split; [repeat constructor; by eexists | simpl; lia]].
  unfold bind, Do, gets, ret.
  destruct (remote _ _) as [msg|err|resp]; [done..|].
  by destruct (negb _).
Qed.

Lemma getVariables_calls_only ctx :
  calls_only ctx (getVariables remote NewRequestWithContext ctx).
Proof. unfold getVariables. calls_only_tac. Qed.

Lemma getBreakpoints_calls_only ctx :
  calls_only ctx (getBreakpoints remote NewRequestWithContext ctx).
Proof. unfold getBreakpoints. calls_only_tac. Qed.

Lemma setBreakpoint_calls_only ctx procName line :
  calls_only ctx (setBreakpoint remote NewRequestWithContext ctx procName line).
Proof. unfold setBreakpoint. calls_only_tac. Qed.

Lemma stopSession_calls_only ctx :
  calls_only ctx (stopSession remote NewRequestWithContext ctx).
Proof. unfold stopSession. calls_only_tac. Qed.

Lemma sendKeepalive_calls_only ctx :
  calls_only ctx (sendKeepalive remote NewRequestWithContext ctx).
Proof. unfold sendKeepalive. calls_only_tac. Qed.

Lemma handleCommand_calls_only ctx cmd :
  calls_only ctx (handleCommand remote NewRequestWithContext ctx cmd).
Proof.
  unfold handleCommand.
  repeat case_match;
    first [ apply calls_only_ret | apply calls_only_map ];
    auto using step_calls_only, getStatus_calls_only, getVariables_calls_only,
      getBreakpoints_calls_only, setBreakpoint_calls_only, stopSession_calls_only.
Qed.

End Frames.

(** ** What each method changes *)

Section Effects.

Variable remote : nat -> RemoteCall -> DoResult.
Variable NewRequestWithContext : RemoteCall -> option string.
Variable xmlUnmarshal : string -> option (string * string).

Abbreviation fetchCSRFToken := (fetchCSRFToken remote NewRequestWithContext).
Abbreviation initiateSession := (initiateSession remote NewRequestWithContext xmlUnmarshal).
Abbreviation Start_fetch := (Start_fetch remote NewRequestWithContext).
Abbreviation Start_token := (Start_token remote NewRequestWithContext).
Abbreviation Start_initiate := (Start_initiate remote NewRequestWithContext xmlUnmarshal).
Abbreviation Start := (Start remote NewRequestWithContext xmlUnmarshal).
Abbreviation handleCommand := (handleCommand remote NewRequestWithContext).
Abbreviation hardStop := (hardStop remote NewRequestWithContext).
Abbreviation cleanup := (cleanup remote NewRequestWithContext).
Abbreviation loopBody := (loopBody remote NewRequestWithContext).
Abbreviation processCommands_step := (processCommands_step remote NewRequestWithContext).

Lemma fetchCSRFToken_eff ctx user password w :
  let '(r, w') := fetchCSRFToken ctx user password w in
  same_store w w' /\ same_session (mgr w) (mgr w') /\
  running (mgr w') = running (mgr w) /\
  (trace w' = trace w \/
   trace w' = trace w ++ [EvCall ctx (CallFetchToken user password)]).
Proof.
  unfold fetchCSRFToken, bind, ret, Do, modifyMgr, modify,
    same_store, same_session.
  repeat case_match; simplify_eq; simpl; auto 10.
Qed.

Lemma Start_fetch_eff ctx user password w :
  let '(r, w') := Start_fetch ctx user password w in
  same_store w w' /\ same_session (mgr w) (mgr w') /\
  (trace w' = trace w \/
   trace w' = trace w ++ [EvCall ctx (CallFetchToken user password)]) /\
  match r with
  | Ret (Some e) => running (mgr w') = false
  | _ => running (mgr w') = running (mgr w)
  end.
Proof.
  clear xmlUnmarshal.
  pose proof (fetchCSRFToken_eff ctx user password w) as H.
  unfold Start_fetch, bind.
  destruct (fetchCSRFToken ctx user password w) as [[[e|]|msg] w1];
    unfold same_store, same_session in H |- *; simpl; intuition congruence.
Qed.

Lemma Start_token_eff ctx user password w :
  let '(r, w') := Start_token ctx user password w in
  same_store w w' /\
  (state (mgr w') = state (mgr w) /\ cmdChannel (mgr w') = cmdChannel (mgr w) /\
   cancel (mgr w') = Some ctx /\
   baseURL (mgr w') = baseURL (mgr w) /\ client (mgr w') = client (mgr w)) /\
  (trace w' = trace w \/
   trace w' = trace w ++ [EvCall ctx (CallFetchToken user password)]) /\
  match r with
  | Ret (Some e) => running (mgr w') = false
  | _ => running (mgr w') = running (mgr w)
  end.
Proof.
  clear xmlUnmarshal.
  unfold Start_token, Start_cancel, bind, modifyMgr, modify.
  set (w0 := set_mgr _ w).
  pose proof (Start_fetch_eff ctx user password w0) as H.
  destruct (Start_fetch ctx user password w0) as [r w1].
  unfold same_store, same_session in H |- *. subst w0. simpl in H.
  destruct r as [[e|]|msg]; intuition congruence.
Qed.

Lemma initiateSession_eff ctx objectURI user password w :
  let '(r, w') := initiateSession ctx objectURI user password w in
  same_store w w' /\
  running (mgr w') = running (mgr w) /\ cmdChannel (mgr w') = cmdChannel (mgr w) /\
  cancel (mgr w') = cancel (mgr w) /\ csrfToken (mgr w') = csrfToken (mgr w) /\
  (trace w' = trace w \/
   trace w' = trace w ++
     [EvCall ctx (CallStartSession objectURI user password (csrfToken (mgr w)))]) /\
  match r with
  | Ret None =>
      exists sessionId mainId n resp,
        remote n (CallStartSession objectURI user password (csrfToken (mgr w)))
          = DoResponse resp /\
        accepted resp = true /\
        xmlUnmarshal (Body resp) = Some (sessionId, mainId) /\
        state (mgr w') =
          mkState sessionId mainId (ObjectURI (state (mgr w))) "running"
            (CurrentLine (state (mgr w))) (CurrentProc (state (mgr w)))
  | _ => state (mgr w') = state (mgr w)
  end.
Proof.
  unfold initiateSession, bind, ret, gets, Do, modifyMgr, modify, same_store.
  repeat case_match; simplify_eq; simpl; repeat split; auto.
  eexists _, _, _, _. repeat split; eauto.
  unfold accepted.
  match goal with H : ReadErr _ = None |- _ => rewrite H end.
  match goal with H : negb _ && negb _ = false |- _ => revert H end.
  by repeat destruct (Z.eqb _ _).
Qed.

Lemma Start_initiate_eff ctx objectURI user password w :
  let '(r, w') := Start_initiate ctx objectURI user password w in
  chans w' = chans w /\ slots w' = slots w /\ ctxs w' = ctxs w /\
  cmdChannel (mgr w') = cmdChannel (mgr w) /\
  cancel (mgr w') = cancel (mgr w) /\
  (exists l, trace w' = trace w ++ l /\ Forall (benign ctx) l) /\
  match r with
  | Ret None =>
      workers w' = workers w ++ [WRunning ctx] /\
      running (mgr w') = running (mgr w) /\
      exists sessionId mainId n resp,
        remote n (CallStartSession objectURI user password (csrfToken (mgr w)))
          = DoResponse resp /\
        accepted resp = true /\
        xmlUnmarshal (Body resp) = Some (sessionId, mainId) /\
        state (mgr w') =
          mkState sessionId mainId (ObjectURI (state (mgr w))) "running"
            (CurrentLine (state (mgr w))) (CurrentProc (state (mgr w)))
  | Ret (Some e) =>
      workers w' = workers w /\ running (mgr w') = false /\
      state (mgr w') = state (mgr w)
  | Panic _ =>
      workers w' = workers w /\ running (mgr w') = running (mgr w) /\
      state (mgr w') = state (mgr w)
  end.
Proof.
  pose proof (initiateSession_eff ctx objectURI user password w) as H.
  unfold Start_initiate, bind, spawn, modify, modifyMgr, ret.
  destruct (initiateSession ctx objectURI user password w) as [[[e|]|msg] w1];
    unfold same_store in H |- *; simpl;
    destruct H as ((? & ? & ? & ?) & ? & ? & ? & ? & Ht & Hs);
    (repeat split; try congruence; try done);
    try (destruct Ht as [Ht|Ht]; rewrite Ht;
         [ exists []; split; [by rewrite app_nil_r | constructor]
         | eexists; split; [done | repeat constructor; by eexists ] ]).
Qed.

Lemma cleanup_eff ctx w :
  let '(r, w') := cleanup ctx w in
  slots w' = slots w /\ ctxs w' = ctxs w /\ workers w' = workers w /\
  buf <$> chans w' = buf <$> chans w /\
  cancel (mgr w') = cancel (mgr w) /\
  (exists l, trace w' = trace w ++ EvCleanup ctx :: l /\
     (l = [] \/
      (MainID (state (mgr w)) <> "" /\
       l = [EvCall ctx (CallHardStop (MainID (state (mgr w))) (csrfToken (mgr w)))]))) /\
  match r with
  | Ret _ =>
      running (mgr w') = false /\ state (mgr w') = emptyState /\
      cmdChannel (mgr w') = None
  | Panic _ =>
      (mgr w' = mgr w /\ chans w' = chans w /\
       exists msg mainID token,
         remote (length (trace w) + 1) (CallHardStop mainID token) = DoPanic msg) \/
      (chans w' = chans w /\ running (mgr w') = false /\
       state (mgr w') = emptyState /\ cmdChannel (mgr w') = cmdChannel (mgr w) /\
       exists r ch, cmdChannel (mgr w) = Some r /\ chans w !! r = Some ch /\
                    closed ch = true)
  end.
Proof.
  unfold cleanup, hardStop, closeChan, bind, ret, gets, Do, modifyMgr, modify,
    logged.
  simpl.
  repeat case_match; simplify_eq; simpl in *;
    repeat match goal with
      | H : String.eqb _ _ = false |- _ => apply String.eqb_neq in H
      | H : String.eqb _ _ = true |- _ => apply String.eqb_eq in H
      end;
    rewrite <- ?app_assoc; simpl;
    rewrite ?list_fmap_insert; simpl;
    repeat split;
    try done;
    try (apply list_insert_id; rewrite list_lookup_fmap;
         match goal with H : chans _ !! _ = Some _ |- _ => by rewrite H end);
    repeat match goal with
      | H : context [length (_ ++ _)] |- _ => rewrite length_app in H; simpl in H
      end;
    try (left; repeat split; by eauto);
    eauto 12.
Qed.

Lemma loopBody_eff ctx c w r w' :
  loopBody ctx c w = Some (r, w') ->
  mgr w' = mgr w /\ ctxs w' = ctxs w /\ workers w' = workers w /\
  (exists l, trace w' = trace w ++ l /\ Forall (benign ctx) l /\ length l <= 1) /\
  ((chans w' = chans w /\ slots w' = slots w) \/
   (exists rch ch cmd rest,
       cmdChannel (mgr w) = Some rch /\ chans w !! rch = Some ch /\
       buf ch = cmd :: rest /\
       chans w' = <[rch := mkChan rest (closed ch)]> (chans w) /\
       (slots w' = slots w \/
        exists sl resp,
          slots w !! Response cmd = Some sl /\
          slots w' = <[Response cmd := mkSlot (sent sl ++ [resp]) (taken sl)]> (slots w)))).
Proof.
  assert (Hnil : exists l : list Event,
             trace w = trace w ++ l /\ Forall (benign ctx) l /\ length l <= 1).
  { exists []. rewrite app_nil_r. repeat split; [constructor | simpl; lia]. }
  destruct c; simpl; try done.
  - (* ctx.Done() *)
    repeat case_match; try done. intros [= <- <-]. auto 10.
  - (* keepalive tick *)
    intros [= H]. unfold bind, ret in H.
    destruct (sendKeepalive_calls_only remote NewRequestWithContext ctx w)
      as [l [Hl [Hb Hn]]].
    destruct (sendKeepalive _ _ ctx w) as [[[]|msg] w1]; simpl in Hl;
      simplify_eq; simpl; eauto 10.
  - (* a command, or the closed channel *)
    destruct (cmdChannel (mgr w)) as [rch|] eqn:Hch; [| done].
    destruct (chans w !! rch) as [ch|] eqn:Hlk; [| done].
    destruct (buf ch) as [|cmd rest] eqn:Hbuf.
    { case_match; [| done]. intros [= <- <-]. auto 10. }
    intros [= H]. unfold bind in H.
    set (w1 := set_chans _ w) in H.
    destruct (handleCommand_calls_only remote NewRequestWithContext ctx cmd w1)
      as [l [Hl [Hb Hn]]].
    destruct (handleCommand ctx cmd w1) as [[resp|msg] w2]; simpl in Hl; subst w2.
    + unfold trySend, modify, ret in H. simpl in H.
      assert (Hw : w' = match slots w !! Response cmd with
                        | Some sl =>
                            if length (sent sl) - taken sl <? slotCap
                            then set_slots (<[Response cmd :=
                                   mkSlot (sent sl ++ [resp]) (taken sl)]> (slots w))
                                   (logged l w1)
                            else logged l w1
                        | None => logged l w1
                        end).
      { by destruct (Type_ cmd =? AMDPCmdStop)%Z; simplify_eq. }
      clear H. subst w'.
      destruct (slots w !! Response cmd) as [sl|] eqn:Hsl;
        [destruct (length (sent sl) - taken sl <? slotCap) |];
        simpl; (repeat split; [by eauto |]); right;
        exists rch, ch, cmd, rest; eauto 10.
    + simplify_eq. simpl. (repeat split; [by eauto |]). right.
      exists rch, ch, cmd, rest; eauto 10.
Qed.

End Effects.

(** ** Invariants of the running system *)

Section Invariants.

Variable remote : nat -> RemoteCall -> DoResult.
Variable NewRequestWithContext : RemoteCall -> option string.
Variable xmlUnmarshal : string -> option (string * string).

Abbreviation Start_fetch := (Start_fetch remote NewRequestWithContext).
Abbreviation Start_token := (Start_token remote NewRequestWithContext).
Abbreviation Start_initiate := (Start_initiate remote NewRequestWithContext xmlUnmarshal).
Abbreviation Start_step := (Start_step remote NewRequestWithContext xmlUnmarshal).
Abbreviation cleanup := (cleanup remote NewRequestWithContext).
Abbreviation loopBody := (loopBody remote NewRequestWithContext).
Abbreviation processCommands_step := (processCommands_step remote NewRequestWithContext).
Abbreviation thread_step := (thread_step remote NewRequestWithContext xmlUnmarshal).
Abbreviation lts_step := (lts_step remote NewRequestWithContext xmlUnmarshal).
Abbreviation exec := (exec remote NewRequestWithContext xmlUnmarshal).
Abbreviation state_inv := (state_inv remote xmlUnmarshal).
Abbreviation reachable_inv := (reachable_inv remote xmlUnmarshal).

Lemma exec_app acts1 acts2 cf :
  exec (acts1 ++ acts2) cf =
  match exec acts1 cf with Some cf1 => exec acts2 cf1 | None => None end.
Proof.
  revert cf. induction acts1 as [|a acts1 IH]; intros cf; simpl; [done |].
  destruct (lts_step a cf); [apply IH | done].
Qed.

(** A property kept by every step holds after every run. *)
Lemma exec_invariant (P : Config -> Prop) :
  (forall a cf cf', P cf -> lts_step a cf = Some cf' -> P cf') ->
  forall acts cf cf', P cf -> exec acts cf = Some cf' -> P cf'.
Proof.
  intros Hstep acts. induction acts as [|a acts IH]; intros cf cf' HP; simpl.
  - by intros [= <-].
  - destruct (lts_step a cf) as [cf1|] eqn:E; [| done].
    apply IH. by eapply Hstep.
Qed.

(** The effect of one step of the worker on the world. *)
Lemma processCommands_step_eff ctx c w st w' :
  processCommands_step ctx c w = Some (st, w') ->
  exists r w1, loopBody ctx c w = Some (r, w1) /\
    ((r = Ret Continue /\ st = WRunning ctx /\ w' = w1) \/
     (r <> Ret Continue /\ exists r2, cleanup ctx w1 = (r2, w') /\
        match r2 with Ret _ => st = WExited ctx | Panic _ => st = WCrashed ctx end)).
Proof.
  unfold processCommands_step.
  destruct (loopBody ctx c w) as [[r w1]|]; [| done].
  intros H. exists r, w1. split; [done |].
  destruct r as [[]|msg].
  - injection H as <- <-. by left.
  - destruct (cleanup ctx w1) as [[[]|msg] w2] eqn:E; injection H as <- <-;
      right; (split; [done |]); eexists; split; done.
  - destruct (cleanup ctx w1) as [[[]|msg'] w2] eqn:E; injection H as <- <-;
      right; (split; [done |]); eexists; split; done.
Qed.

(** *** The command channel of the manager is open *)

Lemma Start_step_chan_ok pc w pc' w' :
  chan_ok w -> Start_step pc w = Some (pc', w') -> chan_ok w'.
Proof.
  intros Hok. destruct pc as [o u p|ctx o u p|ctx o u p|e|msg]; simpl; [| | | done..].
  - unfold Start_check. destruct (running (mgr w)).
    + by intros [= <- <-].
    + intros [= <- <-] r. simpl. intros [= <-].
      exists (mkChan [] false). split; [| done].
      by rewrite lookup_app_r, Nat.sub_diag.
  - pose proof (Start_token_eff remote NewRequestWithContext ctx u p w) as H.
    destruct (Start_token ctx u p w) as [r w1].
    destruct H as ((Hc & _) & (_ & Hm & _) & _).
    assert (chan_ok w1) by (intros x; rewrite Hm, Hc; apply Hok).
    by destruct r as [[e|]|msg]; intros [= <- <-].
  - pose proof (Start_initiate_eff remote NewRequestWithContext xmlUnmarshal
                  ctx o u p w) as H.
    destruct (Start_initiate ctx o u p w) as [r w1].
    destruct H as (Hc & _ & _ & Hm & _).
    assert (chan_ok w1) by (intros x; rewrite Hm, Hc; apply Hok).
    by destruct r as [e|msg]; intros [= <- <-].
Qed.

Lemma SendCommand_step_chan_ok pc c w pc' w' :
  chan_ok w -> SendCommand_step pc c w = Some (pc', w') -> chan_ok w'.
Proof.
  intros Hok. destruct pc as [t a|ch t a|s|resp e|msg]; simpl; [| | | done..].
  - by case_match; intros [= <- <-].
  - destruct c; try done.
    + destruct ch as [r|]; [| done].
      destruct (chans w !! r) as [chn|] eqn:Hr; [| done].
      destruct (closed chn) eqn:Hcl; [by intros [= <- <-] |].
      case_match; [| done]. intros [= <- <-] r0. simpl. intros Hr0.
      destruct (Hok r0 Hr0) as [ch0 [Hl0 Hc0]].
      destruct (decide (r = r0)) as [->|Hne].
      * eexists. rewrite list_lookup_insert_eq by (by eapply lookup_lt_Some). done.
      * exists ch0. by rewrite list_lookup_insert_ne.
    + by intros [= <- <-].
  - destruct c; try done.
    + repeat case_match; try done. by intros [= <- <-].
    + by intros [= <- <-].
Qed.

Lemma Stop_step_chan_ok pc w pc' w' :
  chan_ok w -> Stop_step pc w = Some (pc', w') -> chan_ok w'.
Proof.
  intros Hok. destruct pc; simpl; [| | done].
  - by case_match; intros [= <- <-].
  - by case_match; intros [= <- <-].
Qed.

Lemma loopBody_chan_ok ctx c w r w1 :
  chan_ok w -> loopBody ctx c w = Some (r, w1) -> chan_ok w1.
Proof.
  intros Hok H. apply loopBody_eff in H.
  destruct H as (Hm & _ & _ & _ & [[Hc _]|(rch & ch & cmd & rest & Hr & Hl & _ & Hc & _)]);
    intros r0; rewrite Hm, Hc; [apply Hok |].
  intros Hr0. destruct (Hok r0 Hr0) as [ch0 [Hl0 Hc0]].
  assert (r0 = rch) as -> by congruence.
  assert (ch0 = ch) as -> by congruence.
  eexists. rewrite list_lookup_insert_eq by (by eapply lookup_lt_Some). done.
Qed.

Lemma cleanup_chan_ok ctx w :
  chan_ok w -> chan_ok (snd (cleanup ctx w)).
Proof.
  intros Hok. pose proof (cleanup_eff remote NewRequestWithContext ctx w) as H.
  destruct (cleanup ctx w) as [[[]|msg] w']; simpl.
  - destruct H as (_ & _ & _ & _ & _ & _ & _ & _ & Hn). intros r. by rewrite Hn.
  - destruct H as (_ & _ & _ & _ & _ & _ & [(Hm & Hc & _)|(Hc & _ & _ & Hm & _)]);
      intros r; rewrite Hm, Hc; apply Hok.
Qed.

(** A [cleanup] that starts with the channel open does not panic on
    [close]: a panic in it comes from the hard stop. *)
Lemma cleanup_panic ctx w msg w' :
  chan_ok w -> cleanup ctx w = (Panic msg, w') ->
  mgr w' = mgr w /\ chans w' = chans w /\
  exists msg' mainID token,
    remote (length (trace w) + 1) (CallHardStop mainID token) = DoPanic msg'.
Proof.
  intros Hok E. pose proof (cleanup_eff remote NewRequestWithContext ctx w) as H.
  rewrite E in H.
  destruct H as (_ & _ & _ & _ & _ & _ & [H|(_ & _ & _ & _ & r & ch & Hr & Hl & Hc)]);
    [done |].
  destruct (Hok r Hr) as [ch' [Hl' Hc']]. congruence.
Qed.

Lemma lts_step_chan_ok a cf cf' :
  chan_ok (world cf) -> lts_step a cf = Some cf' -> chan_ok (world cf').
Proof.
  intros Hok. unfold lts_step. destruct (crashed cf); [done |].
  destruct a as [call|i c|i c|ctx].
  - by intros [= <-].
  - destruct (threads cf !! i) as [t|]; [| done].
    destruct (thread_step t c (world cf)) as [[t' w']|] eqn:E; [| done].
    intros [= <-]. simpl.
    destruct t as [pc|pc|pc]; simpl in E.
    + destruct (Start_step pc (world cf)) as [[pc' w'']|] eqn:E'; [| done].
      simpl in E. simplify_eq. by eapply Start_step_chan_ok.
    + destruct (Stop_step pc (world cf)) as [[pc' w'']|] eqn:E'; [| done].
      simpl in E. simplify_eq. by eapply Stop_step_chan_ok.
    + destruct (SendCommand_step pc c (world cf)) as [[pc' w'']|] eqn:E'; [| done].
      simpl in E. simplify_eq. by eapply SendCommand_step_chan_ok.
  - destruct (workers (world cf) !! i) as [[ctx|ctx|ctx]|]; try done.
    destruct (processCommands_step ctx c (world cf)) as [[st w']|] eqn:E; [| done].
    intros [= <-]. simpl.
    apply processCommands_step_eff in E.
    destruct E as (r & w1 & Hl & [(-> & -> & ->)|(_ & r2 & Hcl & _)]).
    + intros x. simpl. by eapply loopBody_chan_ok.
    + assert (chan_ok w') as Hw'.
      { replace w' with (snd (cleanup ctx w1)) by (by rewrite Hcl).
        apply cleanup_chan_ok. by eapply loopBody_chan_ok. }
      exact Hw'.
  - case_decide; [| done]. by intros [= <-].
Qed.

(** *** One session at a time, cleaned up once *)

Lemma count_fresh p n tr :
  (forall ev, p ev = true -> evCtx ev = n) ->
  Forall (fun ev => evCtx ev < n) tr -> count p tr = 0.
Proof.
  intros Hp. induction 1 as [|ev tr Hev _ IH]; simpl; [done |].
  rewrite IH. destruct (p ev) eqn:E; [| done].
  apply Hp in E. lia.
Qed.

Lemma isCleanup_ctx ctx ev : isCleanup ctx ev = true -> evCtx ev = ctx.
Proof. destruct ev; simpl; [done |]. by intros ?%Nat.eqb_eq. Qed.

Lemma isHardStop_ctx ctx ev : isHardStop ctx ev = true -> evCtx ev = ctx.
Proof. destruct ev; simpl; [| done]. by intros [?%Nat.eqb_eq _]%andb_true_iff. Qed.

Lemma holds_insert_thread ths wks i t' p ctx :
  holds (<[i := t']> ths) wks p ctx ->
  (p = inl i /\ owns t' = Some ctx) \/ (p <> inl i /\ holds ths wks p ctx).
Proof.
  destruct p as [j|k]; simpl; [| by right].
  intros [t [Hl Ho]].
  apply list_lookup_insert_Some in Hl as [(-> & -> & _)|(Hne & Hl)].
  - by left.
  - right. split; [congruence | eauto].
Qed.

Lemma holds_insert_worker ths wks k st p ctx :
  holds ths (<[k := st]> wks) p ctx ->
  (p = inr k /\ st = WRunning ctx) \/ (p <> inr k /\ holds ths wks p ctx).
Proof.
  destruct p as [j|k']; simpl; [by right |].
  intros Hl.
  apply list_lookup_insert_Some in Hl as [(-> & -> & _)|(Hne & Hl)].
  - by left.
  - right. split; [congruence | done].
Qed.

Lemma sess_invoke run n tr ths wks t :
  owns t = None -> sess run n tr ths wks -> sess run n tr (ths ++ [t]) wks.
Proof.
  intros Ho [Hh Hu Hd Hb Hc].
  assert (Hold : forall p ctx, holds (ths ++ [t]) wks p ctx -> holds ths wks p ctx).
  { intros [i|k] ctx; simpl; [| done]. intros [t0 [Hl Ho0]].
    apply lookup_snoc_Some in Hl as [[_ Hl]|[_ <-]]; [eauto | congruence]. }
  split; eauto.
Qed.

Lemma sess_idle run n tr ths wks i t t' :
  ths !! i = Some t -> owns t = None -> owns t' = None ->
  sess run n tr ths wks -> sess run n tr (<[i := t']> ths) wks.
Proof.
  intros Hi Ho Ho' [Hh Hu Hd Hb Hc].
  assert (Hold : forall p ctx, holds (<[i := t']> ths) wks p ctx -> holds ths wks p ctx).
  { intros p ctx [[_ ?]|[_ ?]]%holds_insert_thread; [congruence | done]. }
  split; eauto.
Qed.

Lemma sess_acquire n tr ths wks i t' :
  owns t' = Some n ->
  sess false n tr ths wks -> sess true (S n) tr (<[i := t']> ths) wks.
Proof.
  intros Ho' [Hh Hu Hd Hb Hc].
  assert (Hnone : forall p ctx, ~ holds ths wks p ctx).
  { intros p ctx Hp. by destruct (Hh p ctx Hp) as [? _]. }
  assert (Hnew : forall p ctx, holds (<[i := t']> ths) wks p ctx ->
                   p = inl i /\ ctx = n).
  { intros p ctx [[-> ?]|[_ ?]]%holds_insert_thread;
      [split; congruence | by destruct (Hnone p ctx)]. }
  split.
  - intros p ctx [-> ->]%Hnew. repeat split; [lia | |].
    + apply (count_fresh _ n); [apply isCleanup_ctx | done].
    + apply (count_fresh _ n); [apply isHardStop_ctx | done].
  - intros p p' ctx ctx' [-> _]%Hnew [-> _]%Hnew. done.
  - done.
  - eapply Forall_impl; [exact Hb |]. simpl. intros. lia.
  - done.
Qed.

Lemma sess_keep run n tr ths wks i t t' ctx :
  ths !! i = Some t -> owns t = Some ctx -> owns t' = Some ctx ->
  sess run n tr ths wks -> sess run n tr (<[i := t']> ths) wks.
Proof.
  intros Hi Ho Ho' [Hh Hu Hd Hb Hc].
  assert (Hi' : holds ths wks (inl i) ctx) by (simpl; eauto).
  assert (Hold : forall p c, holds (<[i := t']> ths) wks p c ->
                   (p = inl i /\ c = ctx) \/ (p <> inl i /\ holds ths wks p c)).
  { intros p c [[-> ?]|?]%holds_insert_thread; [left; split; congruence | by right]. }
  split; try done.
  - intros p c [[-> ->]|[_ Hp]]%Hold; eauto.
  - intros p p' c c' [[-> ->]|[Hne Hp]]%Hold [[-> ->]|[Hne' Hp']]%Hold; eauto.
Qed.

Lemma sess_release run run' n tr ths wks i t t' ctx :
  ths !! i = Some t -> owns t = Some ctx -> owns t' = None ->
  sess run n tr ths wks -> sess run' n tr (<[i := t']> ths) wks.
Proof.
  intros Hi Ho Ho' [Hh Hu Hd Hb Hc].
  assert (Hi' : holds ths wks (inl i) ctx) by (simpl; eauto).
  assert (Hnone : forall p c, ~ holds (<[i := t']> ths) wks p c).
  { intros p c [[-> ?]|[Hne Hp]]%holds_insert_thread; [congruence |].
    destruct Hne. eauto. }
  split; try done.
  - intros p c Hp. by destruct (Hnone p c).
  - intros p p' c c' Hp. by destruct (Hnone p c).
Qed.

Lemma sess_handoff run n tr ths wks i t t' ctx :
  ths !! i = Some t -> owns t = Some ctx -> owns t' = None ->
  sess run n tr ths wks ->
  sess run n tr (<[i := t']> ths) (wks ++ [WRunning ctx]).
Proof.
  intros Hi Ho Ho' [Hh Hu Hd Hb Hc].
  assert (Hi' : holds ths wks (inl i) ctx) by (simpl; eauto).
  assert (Hnew : forall p c, holds (<[i := t']> ths) (wks ++ [WRunning ctx]) p c ->
                   p = inr (length wks) /\ c = ctx).
  { intros [j|k] c; simpl.
    - intros [t0 [Hl Ho0]].
      apply list_lookup_insert_Some in Hl as [(-> & -> & _)|(Hne & Hl)]; [congruence |].
      assert (inl j = inl i :> nat + nat) by (eapply Hu; simpl; eauto).
      congruence.
    - intros [[_ Hl]|[-> [= ->]]]%lookup_snoc_Some; [| done].
      assert (inr k = inl i :> nat + nat) by (eapply Hu; simpl; eauto).
      congruence. }
  split; try done.
  - intros p c [-> ->]%Hnew. eauto.
  - intros p p' c c' [-> _]%Hnew [-> _]%Hnew. done.
  - intros k c [[[_ Hl]|[_ ?]]%lookup_snoc_Some|[[_ Hl]|[_ ?]]%lookup_snoc_Some];
      try done; eauto.
Qed.

Lemma sess_log run n tr ths wks p ctx l :
  holds ths wks p ctx -> Forall (benign ctx) l ->
  sess run n tr ths wks -> sess run n (tr ++ l) ths wks.
Proof.
  intros Hp Hl [Hh Hu Hd Hb Hc].
  assert (Hk : forall c, count (isCleanup c) (tr ++ l) = count (isCleanup c) tr).
  { intros c. rewrite count_app, (count_benign_cleanup ctx c l Hl). lia. }
  assert (Hs : forall c, count (isHardStop c) (tr ++ l) = count (isHardStop c) tr).
  { intros c. rewrite count_app, (count_benign_hardStop ctx c l Hl). lia. }
  split; try done.
  - intros p0 c Hp0. rewrite Hk, Hs. eauto.
  - intros k c Hkc. rewrite Hk. eauto.
  - apply Forall_app. split; [done |].
    destruct (Hh p ctx Hp) as (_ & Hlt & _).
    eapply Forall_impl; [exact (benign_evCtx ctx l Hl) |]. simpl. intros; lia.
  - intros c. rewrite Hk, Hs. eauto.
Qed.

Lemma sess_exit run run' n tr ths wks k ctx st l :
  wks !! k = Some (WRunning ctx) ->
  st = WExited ctx \/ st = WCrashed ctx ->
  l = [] \/ (exists call, l = [EvCall ctx call]) ->
  sess run n tr ths wks ->
  sess run' n (tr ++ EvCleanup ctx :: l) ths (<[k := st]> wks).
Proof.
  intros Hk Hst Hl [Hh Hu Hd Hb Hc].
  assert (Hk' : holds ths wks (inr k) ctx) by done.
  destruct (Hh _ _ Hk') as (_ & Hlt & Hc0 & Hs0).
  assert (Hnone : forall p c, ~ holds ths (<[k := st]> wks) p c).
  { intros p c [[-> ->]|[Hne Hp]]%holds_insert_worker.
    - by destruct Hst.
    - destruct Hne. eauto. }
  assert (Hcl : forall c, count (isCleanup c) (tr ++ EvCleanup ctx :: l) =
                  count (isCleanup c) tr + (if Nat.eqb ctx c then 1 else 0)).
  { intros c. rewrite count_app. simpl.
    destruct Hl as [->|[call ->]]; simpl; lia. }
  assert (Hhs : forall c, count (isHardStop c) (tr ++ EvCleanup ctx :: l) <=
                  count (isHardStop c) tr + (if Nat.eqb ctx c then 1 else 0)).
  { intros c. rewrite count_app. simpl.
    destruct Hl as [->|[call ->]]; simpl; [lia |].
    destruct (Nat.eqb ctx c); simpl; [| lia].
    destruct (isHardStopCall call); simpl; lia. }
  split.
  - intros p c Hp. by destruct (Hnone p c).
  - intros p p' c c' Hp. by destruct (Hnone p c).
  - intros k' c Hkc. rewrite Hcl.
    destruct (Nat.eqb_spec ctx c) as [<-|Hne].
    + lia.
    + assert (wks !! k' = Some (WExited c) \/ wks !! k' = Some (WCrashed c)) as Hold.
      { destruct Hkc as [Hkc|Hkc];
          apply list_lookup_insert_Some in Hkc as [(_ & Heq & _)|(_ & Hkc)];
          [destruct Hst; congruence | eauto | destruct Hst; congruence | eauto]. }
      rewrite (Hd _ _ Hold). lia.
  - apply Forall_app. split; [done |]. constructor; [done |].
    destruct Hl as [->|[call ->]]; repeat constructor. done.
  - intros c. specialize (Hcl c). specialize (Hhs c).
    destruct (Hc c) as [Hc1 Hc2].
    destruct (Nat.eqb_spec ctx c) as [Heq|Hne]; [subst c |]; lia.
Qed.

Lemma SendCommand_step_eff pc c w pc' w' :
  SendCommand_step pc c w = Some (pc', w') ->
  mgr w' = mgr w /\ ctxs w' = ctxs w /\ workers w' = workers w /\ trace w' = trace w.
Proof.
  destruct pc as [t a|ch t a|s|resp e|msg]; simpl; [| | | done..].
  - by case_match; intros [= <- <-].
  - destruct c; try done; repeat case_match; try done; by intros [= <- <-].
  - destruct c; try done; repeat case_match; try done; by intros [= <- <-].
Qed.

Lemma Stop_step_eff pc w pc' w' :
  Stop_step pc w = Some (pc', w') ->
  mgr w' = mgr w /\ length (ctxs w') = length (ctxs w) /\
  workers w' = workers w /\ trace w' = trace w /\
  chans w' = chans w /\ slots w' = slots w.
Proof.
  destruct pc; simpl; [| | done].
  - by case_match; intros [= <- <-].
  - case_match; intros [= <- <-]; simpl; [| done].
    by rewrite length_insert.
Qed.

Lemma benign_fetch ctx user password :
  Forall (benign ctx) [EvCall ctx (CallFetchToken user password)].
Proof. repeat constructor. by eexists. Qed.

Lemma Start_step_session_inv cf i pc pc' w' :
  session_inv cf -> threads cf !! i = Some (TStart pc) ->
  Start_step pc (world cf) = Some (pc', w') ->
  session_inv (mkConfig w' (<[i := TStart pc']> (threads cf)) false).
Proof.
  unfold session_inv. intros Hinv Hi. simpl.
  destruct pc as [o u p|ctx o u p|ctx o u p|e|msg]; simpl; [| | | done..].
  - unfold Start_check. destruct (running (mgr (world cf))) eqn:Hrun.
    + intros [= <- <-]. rewrite Hrun. by eapply sess_idle.
    + intros [= <- <-]. simpl. rewrite length_app. simpl.
      replace (length (ctxs (world cf)) + 1) with (S (length (ctxs (world cf)))) by lia.
      by apply sess_acquire.
  - pose proof (Start_token_eff remote NewRequestWithContext ctx u p (world cf)) as H.
    destruct (Start_token ctx u p (world cf)) as [r w1].
    destruct H as ((_ & _ & Hc & Hw) & _ & Ht & Hr).
    assert (Hlog : sess (running (mgr (world cf))) (length (ctxs w1)) (trace w1)
                     (threads cf) (workers w1)).
    { rewrite Hc, Hw. destruct Ht as [->| ->]; [done |].
      eapply (sess_log _ _ _ _ _ (inl i)); [simpl; eauto | apply benign_fetch | done]. }
    destruct r as [[e|]|msg]; intros [= <- <-].
    + by eapply sess_release.
    + rewrite Hr. by eapply sess_keep.
    + by eapply sess_release.
  - pose proof (Start_initiate_eff remote NewRequestWithContext xmlUnmarshal
                  ctx o u p (world cf)) as H.
    destruct (Start_initiate ctx o u p (world cf)) as [r w1].
    destruct H as (_ & _ & Hc & _ & _ & (l & Ht & Hl) & Hr).
    assert (Hlog : sess (running (mgr (world cf))) (length (ctxs w1)) (trace w1)
                     (threads cf) (workers (world cf))).
    { rewrite Hc, Ht.
      eapply (sess_log _ _ _ _ _ (inl i)); [simpl; eauto | done | done]. }
    destruct r as [[e|]|msg]; intros [= <- <-].
    + destruct Hr as (-> & _). by eapply sess_release.
    + destruct Hr as (-> & -> & _). by eapply sess_handoff.
    + destruct Hr as (-> & _). by eapply sess_release.
Qed.

Lemma lts_step_session_inv a cf cf' :
  session_inv cf -> lts_step a cf = Some cf' -> session_inv cf'.
Proof.
  intros Hinv. unfold lts_step. destruct (crashed cf); [done |].
  destruct a as [call|i c|i c|ctx].
  - intros [= <-]. apply sess_invoke; [by destruct call | done].
  - destruct (threads cf !! i) as [t|] eqn:Hi; [| done].
    destruct (thread_step t c (world cf)) as [[t' w']|] eqn:E; [| done].
    intros [= <-].
    destruct t as [pc|pc|pc]; simpl in E.
    + destruct (Start_step pc (world cf)) as [[pc' w'']|] eqn:E'; [| done].
      simpl in E. simplify_eq. by eapply Start_step_session_inv.
    + destruct (Stop_step pc (world cf)) as [[pc' w'']|] eqn:E'; [| done].
      simpl in E. simplify_eq.
      apply Stop_step_eff in E' as (Hm & Hc & Hw & Ht & _).
      unfold session_inv. simpl. rewrite Hm, Hc, Hw, Ht.
      by eapply sess_idle.
    + destruct (SendCommand_step pc c (world cf)) as [[pc' w'']|] eqn:E'; [| done].
      simpl in E. simplify_eq.
      apply SendCommand_step_eff in E' as (Hm & Hc & Hw & Ht).
      unfold session_inv. simpl. rewrite Hm, Hc, Hw, Ht.
      by eapply sess_idle.
  - destruct (workers (world cf) !! i) as [[ctx|ctx|ctx]|] eqn:Hi; try done.
    destruct (processCommands_step ctx c (world cf)) as [[st w']|] eqn:E; [| done].
    intros [= <-]. unfold session_inv. simpl.
    apply processCommands_step_eff in E.
    destruct E as (r & w1 & Hl & Hcase).
    apply loopBody_eff in Hl as (Hm & Hc & Hw & (l & Ht & Hb & _) & _).
    assert (Hlog : sess (running (mgr (world cf))) (length (ctxs w1)) (trace w1)
                     (threads cf) (workers (world cf))).
    { rewrite Hc, Ht. by eapply (sess_log _ _ _ _ _ (inr i)). }
    destruct Hcase as [(-> & -> & ->)|(_ & r2 & Hcl & Hst)].
    + rewrite Hm, Hw, list_insert_id; done.
    + pose proof (cleanup_eff remote NewRequestWithContext ctx w1) as H.
      rewrite Hcl in H.
      destruct H as (_ & Hc' & Hw' & _ & _ & (l2 & Ht' & Hl2) & _).
      rewrite Hc', Hw', Hw, Ht'.
      eapply sess_exit; [done | | | done].
      * destruct r2; eauto.
      * destruct Hl2 as [->|[_ ->]]; eauto.
  - case_decide; [| done]. intros [= <-]. unfold session_inv. simpl.
    by rewrite length_insert.
Qed.

(** *** Reply channels *)

Lemma occ_app s l1 l2 : occ s (l1 ++ l2) = occ s l1 + occ s l2.
Proof. induction l1 as [|c l1 IH]; simpl; [done | rewrite IH; lia]. Qed.

Lemma pending_app s l1 l2 : pending s (l1 ++ l2) = pending s l1 + pending s l2.
Proof. induction l1 as [|c l1 IH]; simpl; [done | rewrite IH; lia]. Qed.

Lemma pending_insert s chs r ch ch' :
  chs !! r = Some ch ->
  pending s (<[r := ch']> chs) + occ s (buf ch) = pending s chs + occ s (buf ch').
Proof.
  revert r. induction chs as [|c chs IH]; intros [|r] Hr; simpl in *; try done.
  - injection Hr as ->. lia.
  - specialize (IH r Hr). lia.
Qed.

Lemma pending_bufs s chs chs' :
  buf <$> chs' = buf <$> chs -> pending s chs' = pending s chs.
Proof.
  revert chs'. induction chs as [|c chs IH]; intros [|c' chs'] H; simpl in *; try done.
  injection H as Hb H. rewrite Hb, (IH _ H). done.
Qed.

Lemma received_snoc s sls : received s (sls ++ [mkSlot [] 0]) = received s sls.
Proof.
  unfold received.
  destruct (decide (s < length sls)) as [Hlt|Hge].
  - by rewrite lookup_app_l.
  - rewrite (lookup_ge_None_2 sls s) by lia.
    destruct ((sls ++ [mkSlot [] 0]) !! s) as [sl|] eqn:E; [| done].
    apply lookup_snoc_Some in E as [[? _]|[_ <-]]; [lia | done].
Qed.

Lemma received_insert s s' sls sl sl' :
  sls !! s' = Some sl ->
  received s (<[s' := sl']> sls) =
  if decide (s = s') then length (sent sl') else received s sls.
Proof.
  intros Hs'. unfold received. case_decide as Hd.
  - subst. by rewrite list_lookup_insert_eq by (by eapply lookup_lt_Some).
  - by rewrite list_lookup_insert_ne.
Qed.

Lemma slots_inv_same w w' :
  buf <$> chans w' = buf <$> chans w -> slots w' = slots w ->
  slots_inv w -> slots_inv w'.
Proof.
  intros Hc Hs Hinv s. rewrite Hs, (pending_bufs s _ _ Hc). apply Hinv.
Qed.

Lemma SendCommand_step_slots_inv pc c w pc' w' :
  slots_inv w -> SendCommand_step pc c w = Some (pc', w') -> slots_inv w'.
Proof.
  intros Hinv.
  assert (Hgrow : slots_inv (set_slots (slots w ++ [mkSlot [] 0]) w)).
  { intros s. simpl. rewrite received_snoc, length_app. simpl.
    destruct (Hinv s) as [H1 H2]. split; [done |]. intros ?. apply H2. lia. }
  destruct pc as [t a|ch t a|sr|resp e|msg]; simpl; [| | | done..].
  - by case_match; intros [= <- <-].
  - destruct c; try done; [| by intros [= <- <-]].
    destruct ch as [r|]; [| done].
    destruct (chans w !! r) as [chn|] eqn:Hr; [| done].
    destruct (closed chn); [by intros [= <- <-] |].
    case_match; [| done]. intros [= <- <-] s. simpl.
    pose proof (pending_insert s (chans w) r chn
                  (mkChan (buf chn ++ [mkCommand t a (length (slots w))]) false) Hr) as Hp.
    simpl in Hp. rewrite occ_app in Hp. simpl in Hp.
    rewrite received_snoc, length_app. simpl.
    destruct (Hinv s) as [H1 H2].
    destruct (Nat.eqb_spec (length (slots w)) s) as [Heq|Hne]; [subst s |].
    + assert (pending (length (slots w)) (chans w) = 0) as H0 by (apply H2; lia).
      assert (received (length (slots w)) (slots w) = 0) as Hr0.
      { unfold received. by rewrite lookup_ge_None_2. }
      lia.
    + split; [lia |]. intros ?.
      assert (pending s (chans w) = 0) by (apply H2; lia). lia.
  - destruct c; try done; [| by intros [= <- <-]].
    destruct (slots w !! sr) as [sl|] eqn:Hsl; [| done].
    case_match; [| done]. intros [= <- <-] s. simpl.
    rewrite (received_insert s sr _ sl) by done. rewrite length_insert. simpl.
    destruct (Hinv s) as [H1 H2]. split; [| done].
    case_decide; [| done]. subst. unfold received in H1. by rewrite Hsl in H1.
Qed.

Lemma loopBody_slots_inv ctx c w r w1 :
  slots_inv w -> loopBody ctx c w = Some (r, w1) -> slots_inv w1.
Proof.
  intros Hinv H. apply loopBody_eff in H.
  destruct H as (_ & _ & _ & _ &
    [[Hc Hs]|(rch & ch & cmd & rest & _ & Hl & Hb & Hc & Hs)]).
  - eapply slots_inv_same; [by rewrite Hc | done | done].
  - intros s. rewrite Hc.
    pose proof (pending_insert s (chans w) rch ch (mkChan rest (closed ch)) Hl) as Hp.
    rewrite Hb in Hp. simpl in Hp.
    destruct (Hinv s) as [H1 H2].
    destruct Hs as [->|(sl & resp & Hsl & ->)].
    + split; [lia |]. intros ?. specialize (H2 ltac:(done)). lia.
    + rewrite (received_insert s _ _ sl) by done. rewrite length_insert. simpl.
      rewrite length_app. simpl. unfold received in H1.
      split; [| intros ?; specialize (H2 ltac:(done)); lia].
      case_decide as Hd.
      * subst s. rewrite Hsl in H1. rewrite Nat.eqb_refl in Hp. lia.
      * unfold received. lia.
Qed.

Lemma lts_step_slots_inv a cf cf' :
  slots_inv (world cf) -> lts_step a cf = Some cf' -> slots_inv (world cf').
Proof.
  intros Hinv. unfold lts_step. destruct (crashed cf); [done |].
  destruct a as [call|i c|i c|ctx].
  - by intros [= <-].
  - destruct (threads cf !! i) as [t|] eqn:Hi; [| done].
    destruct (thread_step t c (world cf)) as [[t' w']|] eqn:E; [| done].
    intros [= <-]. simpl.
    destruct t as [pc|pc|pc]; simpl in E.
    + destruct (Start_step pc (world cf)) as [[pc' w'']|] eqn:E'; [| done].
      simpl in E. simplify_eq.
      destruct pc as [o u p|ctx o u p|ctx o u p|e|msg]; simpl in E'; [| | | done..].
      * unfold Start_check in E'. destruct (running (mgr (world cf))).
        { by simplify_eq. }
        simplify_eq. intros s. simpl. rewrite pending_app. simpl.
        destruct (Hinv s). split; [lia |]. intros ?. rewrite Nat.add_0_r. auto.
      * pose proof (Start_token_eff remote NewRequestWithContext ctx u p (world cf)) as H.
        destruct (Start_token ctx u p (world cf)) as [r w1].
        destruct H as ((Hc & Hs & _) & _).
        assert (slots_inv w1) by (eapply slots_inv_same; [by rewrite Hc | done..]).
        by destruct r as [[e|]|msg]; simplify_eq.
      * pose proof (Start_initiate_eff remote NewRequestWithContext xmlUnmarshal
                      ctx o u p (world cf)) as H.
        destruct (Start_initiate ctx o u p (world cf)) as [r w1].
        destruct H as (Hc & Hs & _).
        assert (slots_inv w1) by (eapply slots_inv_same; [by rewrite Hc | done..]).
        by destruct r as [e|msg]; simplify_eq.
    + destruct (Stop_step pc (world cf)) as [[pc' w'']|] eqn:E'; [| done].
      simpl in E. simplify_eq.
      apply Stop_step_eff in E' as (_ & _ & _ & _ & Hc & Hs).
      eapply slots_inv_same; [by rewrite Hc | done..].
    + destruct (SendCommand_step pc c (world cf)) as [[pc' w'']|] eqn:E'; [| done].
      simpl in E. simplify_eq. by eapply SendCommand_step_slots_inv.
  - destruct (workers (world cf) !! i) as [[ctx|ctx|ctx]|] eqn:Hi; try done.
    destruct (processCommands_step ctx c (world cf)) as [[st w']|] eqn:E; [| done].
    intros [= <-]. simpl.
    apply processCommands_step_eff in E.
    destruct E as (r & w1 & Hl & Hcase).
    assert (slots_inv w1) as H1 by (by eapply loopBody_slots_inv).
    destruct Hcase as [(-> & -> & ->)|(_ & r2 & Hcl & Hst)]; [done |].
    pose proof (cleanup_eff remote NewRequestWithContext ctx w1) as H.
    rewrite Hcl in H. destruct H as (Hs & _ & _ & Hc & _).
    eapply (slots_inv_same w1); [done | done | done].
  - case_decide; [| done]. by intros [= <-].
Qed.

(** *** The session state *)

Lemma state_inv_same w w' :
  state (mgr w') = state (mgr w) -> state_inv w -> state_inv w'.
Proof. unfold state_inv. by intros ->. Qed.

Lemma state_inv_empty w : state (mgr w) = emptyState -> state_inv w.
Proof. unfold state_inv. intros ->. left. simpl. auto. Qed.

Lemma lts_step_state_inv a cf cf' :
  state_inv (world cf) -> lts_step a cf = Some cf' -> state_inv (world cf').
Proof.
  intros Hinv. unfold lts_step. destruct (crashed cf); [done |].
  destruct a as [call|i c|i c|ctx].
  - by intros [= <-].
  - destruct (threads cf !! i) as [t|] eqn:Hi; [| done].
    destruct (thread_step t c (world cf)) as [[t' w']|] eqn:E; [| done].
    intros [= <-]. simpl.
    destruct t as [pc|pc|pc]; simpl in E.
    + destruct (Start_step pc (world cf)) as [[pc' w'']|] eqn:E'; [| done].
      simpl in E. simplify_eq.
      destruct pc as [o u p|ctx o u p|ctx o u p|e|msg]; simpl in E'; [| | | done..].
      * unfold Start_check in E'. destruct (running (mgr (world cf))).
        { by simplify_eq. }
        simplify_eq. left. simpl. auto.
      * pose proof (Start_token_eff remote NewRequestWithContext ctx u p (world cf)) as H.
        destruct (Start_token ctx u p (world cf)) as [r w1].
        destruct H as (_ & (Hs & _) & _).
        assert (state_inv w1) by (by eapply state_inv_same).
        by destruct r as [[e|]|msg]; simplify_eq.
      * pose proof (Start_initiate_eff remote NewRequestWithContext xmlUnmarshal
                      ctx o u p (world cf)) as H.
        destruct (Start_initiate ctx o u p (world cf)) as [r w1].
        destruct H as (_ & _ & _ & _ & _ & _ & Hr).
        destruct r as [[e|]|msg]; simplify_eq.
        { destruct Hr as (_ & _ & Hs). by eapply state_inv_same. }
        { destruct Hr as (_ & _ & sid & mid & n & resp & Hdo & Hacc & Hx & Hs).
          right. rewrite Hs. simpl. split; [done |].
          exists n, (CallStartSession o u p (csrfToken (mgr (world cf)))), resp, sid.
          done. }
        { destruct Hr as (_ & _ & Hs). by eapply state_inv_same. }
    + destruct (Stop_step pc (world cf)) as [[pc' w'']|] eqn:E'; [| done].
      simpl in E. simplify_eq.
      apply Stop_step_eff in E' as (Hm & _).
      eapply state_inv_same; [by rewrite Hm | done].
    + destruct (SendCommand_step pc c (world cf)) as [[pc' w'']|] eqn:E'; [| done].
      simpl in E. simplify_eq.
      apply SendCommand_step_eff in E' as (Hm & _).
      eapply state_inv_same; [by rewrite Hm | done].
  - destruct (workers (world cf) !! i) as [[ctx|ctx|ctx]|] eqn:Hi; try done.
    destruct (processCommands_step ctx c (world cf)) as [[st w']|] eqn:E; [| done].
    intros [= <-]. simpl.
    apply processCommands_step_eff in E.
    destruct E as (r & w1 & Hl & Hcase).
    apply loopBody_eff in Hl as (Hm & _).
    assert (state_inv w1) as H1 by (eapply state_inv_same; [by rewrite Hm | done]).
    destruct Hcase as [(-> & -> & ->)|(_ & r2 & Hcl & Hst)]; [done |].
    pose proof (cleanup_eff remote NewRequestWithContext ctx w1) as H.
    rewrite Hcl in H. destruct H as (_ & _ & _ & _ & _ & _ & Hr).
    destruct r2 as [[]|msg].
    + destruct Hr as (_ & Hs & _). by apply state_inv_empty.
    + destruct Hr as [(Hm' & _)|(_ & _ & Hs & _)].
      * apply (state_inv_same w1); [simpl; by rewrite Hm' | done].
      * by apply state_inv_empty.
  - case_decide; [| done]. by intros [= <-].
Qed.

(** *** The trace only grows *)

Lemma lts_step_trace a cf cf' :
  lts_step a cf = Some cf' ->
  exists l, trace (world cf') = trace (world cf) ++ l.
Proof.
  assert (Hnil : exists l : list Event, trace (world cf) = trace (world cf) ++ l).
  { exists []. by rewrite app_nil_r. }
  unfold lts_step. destruct (crashed cf); [done |].
  destruct a as [call|i c|i c|ctx].
  - by intros [= <-].
  - destruct (threads cf !! i) as [t|] eqn:Hi; [| done].
    destruct (thread_step t c (world cf)) as [[t' w']|] eqn:E; [| done].
    intros [= <-]. simpl.
    destruct t as [pc|pc|pc]; simpl in E.
    + destruct (Start_step pc (world cf)) as [[pc' w'']|] eqn:E'; [| done].
      simpl in E. simplify_eq.
      destruct pc as [o u p|ctx o u p|ctx o u p|e|msg]; simpl in E'; [| | | done..].
      * unfold Start_check in E'. destruct (running (mgr (world cf))); by simplify_eq.
      * pose proof (Start_token_eff remote NewRequestWithContext ctx u p (world cf)) as H.
        destruct (Start_token ctx u p (world cf)) as [r w1].
        destruct H as (_ & _ & Ht & _).
        assert (exists l, trace w1 = trace (world cf) ++ l)
          by (destruct Ht as [->| ->]; eauto).
        by destruct r as [[e|]|msg]; simplify_eq.
      * pose proof (Start_initiate_eff remote NewRequestWithContext xmlUnmarshal
                      ctx o u p (world cf)) as H.
        destruct (Start_initiate ctx o u p (world cf)) as [r w1].
        destruct H as (_ & _ & _ & _ & _ & (l & Ht & _) & _).
        destruct r as [e|msg]; simplify_eq; eauto.
    + destruct (Stop_step pc (world cf)) as [[pc' w'']|] eqn:E'; [| done].
      simpl in E. simplify_eq.
      apply Stop_step_eff in E' as (_ & _ & _ & -> & _). done.
    + destruct (SendCommand_step pc c (world cf)) as [[pc' w'']|] eqn:E'; [| done].
      simpl in E. simplify_eq.
      apply SendCommand_step_eff in E' as (_ & _ & _ & ->). done.
  - destruct (workers (world cf) !! i) as [[ctx|ctx|ctx]|] eqn:Hi; try done.
    destruct (processCommands_step ctx c (world cf)) as [[st w']|] eqn:E; [| done].
    intros [= <-]. simpl.
    apply processCommands_step_eff in E.
    destruct E as (r & w1 & Hl & Hcase).
    apply loopBody_eff in Hl as (_ & _ & _ & (l & Ht & _) & _).
    destruct Hcase as [(-> & -> & ->)|(_ & r2 & Hcl & Hst)]; [eauto |].
    pose proof (cleanup_eff remote NewRequestWithContext ctx w1) as H.
    rewrite Hcl in H. destruct H as (_ & _ & _ & _ & _ & (l2 & Ht' & _) & _).
    rewrite Ht', Ht, <- app_assoc. eauto.
  - case_decide; [| done]. by intros [= <-].
Qed.

Lemma exec_trace acts cf cf' :
  exec acts cf = Some cf' ->
  exists l, trace (world cf') = trace (world cf) ++ l.
Proof.
  revert cf. induction acts as [|a acts IH]; intros cf; simpl.
  - intros [= <-]. exists []. by rewrite app_nil_r.
  - destruct (lts_step a cf) as [cf1|] eqn:E; [| done].
    intros H. apply IH in H as [l2 ->].
    apply lts_step_trace in E as [l1 ->].
    rewrite <- app_assoc. eauto.
Qed.

(** *** Every run from a new manager keeps the invariants *)

Lemma init_inv baseURL client insecure :
  reachable_inv (initConfig baseURL client insecure).
Proof.
  split; [| split; [| split]].
  - intros r. done.
  - unfold session_inv. simpl.
    assert (Hnone : forall p ctx, ~ holds [] [] p ctx).
    { intros [i|k] ctx; simpl; [by intros [t [? _]] | done]. }
    split; try done.
    + intros p ctx Hp. by destruct (Hnone p ctx).
    + intros p p' ctx ctx' Hp. by destruct (Hnone p ctx).
    + intros k ctx [?|?]; done.
    + intros ctx. simpl. lia.
  - intros s. unfold received. simpl. split; [lia | done].
  - left. simpl. auto.
Qed.

Lemma exec_inv acts cf cf' :
  reachable_inv cf -> exec acts cf = Some cf' -> reachable_inv cf'.
Proof.
  apply exec_invariant. clear. intros a cf cf' (H1 & H2 & H3 & H4) Hs.
  split; [by eapply lts_step_chan_ok |].
  split; [by eapply lts_step_session_inv |].
  split; [by eapply lts_step_slots_inv | by eapply lts_step_state_inv].
Qed.

End Invariants.

(** ** Properties of the manager's methods *)

Section MethodProperties.

Variable remote : nat -> RemoteCall -> DoResult.
Variable NewRequestWithContext : RemoteCall -> option string.
Variable xmlUnmarshal : string -> option (string * string).

Abbreviation fetchCSRFToken := (fetchCSRFToken remote NewRequestWithContext).
Abbreviation Start_fetch := (Start_fetch remote NewRequestWithContext).
Abbreviation Start_token := (Start_token remote NewRequestWithContext).
Abbreviation Start_initiate := (Start_initiate remote NewRequestWithContext xmlUnmarshal).
Abbreviation Start := (Start remote NewRequestWithContext xmlUnmarshal).
Abbreviation handleCommand := (handleCommand remote NewRequestWithContext).

(** C2. On a manager whose session is active, [Start] returns the
    already-active error and changes nothing: the session state, with its
    MainID, the running flag, the channel and the trace are as before. *)
Theorem Start_already_running (w : World) (objectURI user password : string) :
  IsRunning w = true ->
  Start objectURI user password w = (Ret (Some "AMDP session already active"), w).
Proof.
  unfold IsRunning, Start, Start_lock, Start_check, bind. by intros ->.
Qed.

(** C3. On a manager that is not running, [SendCommand] returns the
    not-running error at once, whatever the command and its arguments,
    and leaves the world as it is: no request is recorded, nothing is
    queued and no reply channel is made. *)
Theorem SendCommand_not_running (w : World) (cmdType : AMDPCommandType)
    (args : gmap string Value) (c : Case) :
  IsRunning w = false ->
  SendCommand_step (SendEntry cmdType args) c w =
    Some (SendReturn emptyResponse (Some "AMDP session not running"), w).
Proof.
  unfold IsRunning. simpl. by intros ->.
Qed.

(** C4. If the token fetch fails during [Start], [Start] returns the
    error wrapped as a token failure, the running flag is cleared again,
    no worker is started and no session-creation request is issued. *)
Theorem Start_token_fetch_failure (w : World) (objectURI user password e : string)
    (w2 : World) :
  IsRunning w = false ->
  fetchCSRFToken (length (ctxs w)) user password (snd (Start_lock objectURI w))
    = (Ret (Some e), w2) ->
  exists w',
    Start objectURI user password w
      = (Ret (Some ("failed to fetch CSRF token: " +:+ e)), w') /\
    IsRunning w' = false /\
    workers w' = workers w /\
    count isStartSession (trace w') = count isStartSession (trace w).
Proof.
  unfold IsRunning. intros Hrun.
  pose proof (fetchCSRFToken_eff remote NewRequestWithContext (length (ctxs w))
                user password (snd (Start_lock objectURI w))) as H.
  unfold Start, Start_fetch, Start_lock, Start_check, Start_cancel, bind,
    modifyMgr, modify, ret in *.
  rewrite Hrun in *. simpl in *. intros E. rewrite E in *. simpl.
  eexists. split; [done |]. simpl.
  destruct H as ((_ & _ & _ & Hw) & _ & _ & Ht).
  repeat split; [done |].
  destruct Ht as [->| ->]; [done |]. rewrite count_app. simpl. lia.
Qed.

(** C9. If the token request is answered but the X-CSRF-Token header of
    the answer is empty or the word unsafe, [Start] fails with the token
    error after that one request, without a session-creation request, and
    the manager is not running. *)
Theorem Start_unusable_token (w : World) (objectURI user password : string)
    (resp : HttpResponse) :
  IsRunning w = false ->
  NewRequestWithContext (CallFetchToken user password) = None ->
  remote (length (trace w)) (CallFetchToken user password) = DoResponse resp ->
  XCSRFToken resp = "" \/ XCSRFToken resp = "unsafe" ->
  exists w',
    Start objectURI user password w
      = (Ret (Some "failed to fetch CSRF token: failed to get CSRF token"), w') /\
    trace w' = trace w ++ [EvCall (length (ctxs w)) (CallFetchToken user password)] /\
    IsRunning w' = false /\
    workers w' = workers w.
Proof.
  unfold IsRunning. intros Hrun Hreq Hdo Htok.
  unfold Start, Start_fetch, fetchCSRFToken, Start_lock, Start_check,
    Start_cancel, bind, Do, modifyMgr, modify, ret.
  rewrite Hrun, Hreq. simpl. rewrite Hdo.
  assert (String.eqb (XCSRFToken resp) "" || String.eqb (XCSRFToken resp) "unsafe"
          = true) as ->.
  { destruct Htok as [->| ->]; done. }
  eexists. split; [done |]. done.
Qed.

(** C10. When [Start] fails after its check, at the token fetch or at the
    session creation, only the running flag is taken back: the state
    snapshot keeps the object URI and the status starting, no worker was
    started and [cleanup] was not entered. *)
Theorem Start_failure_keeps_state (w : World) (objectURI user password e : string)
    (w' : World) :
  IsRunning w = false ->
  Start objectURI user password w = (Ret (Some e), w') ->
  State w' = mkState "" "" objectURI "starting" 0 "" /\
  IsRunning w' = false /\
  workers w' = workers w /\
  forall ctx, cleanups ctx w' = cleanups ctx w.
Proof.
  unfold IsRunning, State, cleanups. intros Hrun.
  unfold Start, Start_lock, Start_check, Start_cancel, bind, modifyMgr, modify, ret.
  rewrite Hrun.
  set (w1 := set_mgr _ _).
  pose proof (Start_fetch_eff remote NewRequestWithContext (length (ctxs w))
                user password w1) as Hf.
  destruct (Start_fetch (length (ctxs w)) user password w1) as [[[e1|]|msg] w2];
    [| | done].
  - intros [= <- <-].
    destruct Hf as ((_ & _ & _ & Hw) & (Hs & _) & Ht & Hr).
    rewrite Hs, Hw. repeat split; [done |].
    intros ctx. destruct Ht as [->| ->]; [done |].
    rewrite count_app. simpl. lia.
  - pose proof (Start_initiate_eff remote NewRequestWithContext xmlUnmarshal
                  (length (ctxs w)) objectURI user password w2) as Hi.
    destruct (Start_initiate (length (ctxs w)) objectURI user password w2)
      as [[[e2|]|msg] w3]; [| done..].
    intros [= <- <-].
    destruct Hf as ((_ & _ & _ & Hw) & (Hs & _) & Ht & Hr).
    destruct Hi as (_ & _ & _ & _ & _ & (l & Ht' & Hl) & Hw' & Hr' & Hs').
    rewrite Hs', Hs, Hw', Hw. repeat split; [done |].
    intros ctx. rewrite Ht', count_app, (count_benign_cleanup _ ctx l Hl).
    destruct Ht as [->| ->]; [simpl; lia |].
    rewrite count_app. simpl. lia.
Qed.

(** C7 (as the code has it). Handling a command and delivering its
    response leaves the manager's session state as it was: [step] and
    [getStatus] read MainID and never write Status, CurrentLine or
    CurrentProc, nor does any other command. *)
Theorem handleCommand_keeps_state (ctx : nat) (cmd : AMDPCommand) (w : World) :
  State (snd ((resp <- handleCommand ctx cmd ;; trySend (Response cmd) resp) w))
    = State w.
Proof.
  unfold State, bind.
  destruct (handleCommand_calls_only remote NewRequestWithContext ctx cmd w)
    as [l [Hl _]].
  destruct (handleCommand ctx cmd w) as [[resp|msg] w1]; simpl in Hl; subst w1.
  - unfold trySend, modify. simpl. by repeat case_match.
  - done.
Qed.

End MethodProperties.

(** ** Properties of the running system *)

Section SystemProperties.

Variable remote : nat -> RemoteCall -> DoResult.
Variable NewRequestWithContext : RemoteCall -> option string.
Variable xmlUnmarshal : string -> option (string * string).
Variables (baseURL client : string) (insecure : bool).

Abbreviation handleCommand := (handleCommand remote NewRequestWithContext).
Abbreviation cleanup := (cleanup remote NewRequestWithContext).
Abbreviation loopBody := (loopBody remote NewRequestWithContext).
Abbreviation processCommands_step := (processCommands_step remote NewRequestWithContext).
Abbreviation lts_step := (lts_step remote NewRequestWithContext xmlUnmarshal).
Abbreviation exec := (exec remote NewRequestWithContext xmlUnmarshal).
Abbreviation reachable_inv := (reachable_inv remote xmlUnmarshal).
Abbreviation init := (initConfig baseURL client insecure).

Lemma reachable acts cf : exec acts init = Some cf -> reachable_inv cf.
Proof. apply exec_inv, init_inv. Qed.

(** The worker [k] takes a step and is no longer in its loop afterwards:
    the loop returned or panicked, and [cleanup] ran on the world it left. *)
Lemma worker_leaves cf k ctx c cf' :
  reachable_inv cf ->
  workers (world cf) !! k = Some (WRunning ctx) ->
  lts_step (RunWorker k c) cf = Some cf' ->
  workers (world cf') !! k <> Some (WRunning ctx) ->
  exists r w1 r2 w2,
    loopBody ctx c (world cf) = Some (r, w1) /\ r <> Ret Continue /\
    chan_ok w1 /\ mgr w1 = mgr (world cf) /\
    cleanup ctx w1 = (r2, w2) /\
    cf' = mkConfig
            (set_workers
               (<[k := match r2 with Ret _ => WExited ctx | Panic _ => WCrashed ctx end]>
                  (workers (world cf))) w2)
            (threads cf)
            (match r2 with Ret _ => false | Panic _ => true end) /\
    cleanups ctx (world cf) = 0 /\
    cleanups ctx (world cf') = 1 /\
    hardStops ctx (world cf') <= 1 /\
    (hardStops ctx (world cf') = 1 -> MainID (State (world cf)) <> "").
Proof.
  intros (Hch & Hsess & _ & _) Hk. unfold lts_step.
  destruct (crashed cf); [done |]. rewrite Hk.
  destruct (processCommands_step ctx c (world cf)) as [[st w2]|] eqn:E; [| done].
  intros [= <-]. simpl. intros Hst.
  apply processCommands_step_eff in E as (r & w1 & Hl & Hcase).
  pose proof (loopBody_chan_ok _ _ _ _ _ _ _ Hch Hl) as Hch1.
  pose proof (loopBody_eff _ _ _ _ _ _ _ Hl) as (Hm & _ & Hw & (l & Ht & Hb & _) & _).
  destruct Hcase as [(-> & -> & ->)|(Hr & r2 & Hcl & Hst')].
  { destruct Hst. rewrite Hw, list_lookup_insert_eq by (by eapply lookup_lt_Some). done. }
  pose proof (cleanup_eff remote NewRequestWithContext ctx w1) as H.
  rewrite Hcl in H.
  destruct H as (_ & _ & Hw2 & _ & _ & (l2 & Ht2 & Hl2) & _).
  destruct (sess_held _ _ _ _ _ Hsess (inr k) ctx Hk) as (_ & _ & Hc0 & Hs0).
  exists r, w1, r2, w2. repeat split; try done.
  - rewrite Hw2, Hw. by destruct r2; subst st.
  - unfold cleanups. simpl. rewrite Ht2, Ht, !count_app, Hc0,
      (count_benign_cleanup _ _ _ Hb). simpl. rewrite Nat.eqb_refl.
    destruct Hl2 as [->|[_ ->]]; simpl; lia.
  - unfold hardStops. simpl. rewrite Ht2, Ht, !count_app, Hs0,
      (count_benign_hardStop _ _ _ Hb). simpl.
    destruct Hl2 as [->|[_ ->]]; simpl; [lia |]. rewrite Nat.eqb_refl. simpl. lia.
  - unfold hardStops, State. simpl. rewrite Ht2, Ht, !count_app, Hs0,
      (count_benign_hardStop _ _ _ Hb), <- Hm. simpl.
    destruct Hl2 as [->|[Hne _]]; simpl; [lia | done].
Qed.

(** Once [cleanup] has run for a session, no later step runs it again. *)
Lemma cleanup_not_repeated cf ctx acts cf' :
  reachable_inv cf -> cleanups ctx (world cf) = 1 ->
  exec acts cf = Some cf' ->
  cleanups ctx (world cf') = 1 /\ hardStops ctx (world cf') <= 1.
Proof.
  intros Hinv H1 Hex.
  pose proof (exec_inv _ _ _ _ _ _ Hinv Hex) as (_ & Hsess & _).
  destruct (sess_counts _ _ _ _ _ Hsess ctx) as [Hle Hhs].
  apply exec_trace in Hex as [l Hl].
  unfold cleanups, hardStops in H1 |- *.
  rewrite Hl in Hle, Hhs |- *.
  rewrite ?(count_app (isCleanup ctx)), ?(count_app (isHardStop ctx)) in Hle, Hhs |- *.
  lia.
Qed.

(** C1. When the worker of a session leaves its loop, for whatever reason,
    [cleanup] has run once for that session and never runs for it again; the
    hard stop was requested at most once, and only with a non-empty MainID.
    The worker returns, unless the hard-stop request itself faulted; and when
    it has returned, the session state is the empty value, the running flag
    is cleared, and [SendCommand] returns the not-running error. *)
Theorem worker_exit_cleans_up_once (acts : list Action) (cf : Config)
    (k ctx : nat) (c : Case) (cf' : Config) (st : WorkerState) :
  exec acts init = Some cf ->
  workers (world cf) !! k = Some (WRunning ctx) ->
  lts_step (RunWorker k c) cf = Some cf' ->
  workers (world cf') !! k = Some st ->
  hasLeft st = true ->
  cleanups ctx (world cf) = 0 /\
  cleanups ctx (world cf') = 1 /\
  hardStops ctx (world cf') <= 1 /\
  (hardStops ctx (world cf') = 1 -> MainID (State (world cf)) <> "") /\
  (forall acts' cf'', exec acts' cf' = Some cf'' ->
     cleanups ctx (world cf'') = 1 /\ hardStops ctx (world cf'') <= 1) /\
  (st = WExited ctx \/
   (st = WCrashed ctx /\
    exists n mainID token m, remote n (CallHardStop mainID token) = DoPanic m)) /\
  (st = WExited ctx ->
   State (world cf') = emptyState /\
   IsRunning (world cf') = false /\
   cmdChannel (mgr (world cf')) = None /\
   (forall cmdType args c',
      SendCommand_step (SendEntry cmdType args) c' (world cf') =
        Some (SendReturn emptyResponse (Some "AMDP session not running"), world cf'))).
Proof.
  intros Hex Hk Hstep Hst Hleft.
  pose proof (reachable _ _ Hex) as Hinv.
  assert (Hinv' : reachable_inv cf').
  { apply (reachable (acts ++ [RunWorker k c])).
    rewrite exec_app, Hex. simpl. by rewrite Hstep. }
  destruct (worker_leaves cf k ctx c cf' Hinv Hk Hstep)
    as (r & w1 & r2 & w2 & Hl & Hr & Hch & Hm & Hcl & -> & H0 & H1 & H2 & H3).
  { rewrite Hst. intros [= ->]. done. }
  simpl in Hst.
  rewrite list_lookup_insert_eq in Hst by (by eapply lookup_lt_Some).
  injection Hst as <-.
  split; [done |]. split; [done |]. split; [done |]. split; [done |].
  split; [intros acts' cf'' Hex'; by eapply cleanup_not_repeated |].
  destruct r2 as [[]|msg].
  - split; [by left |]. intros _.
    pose proof (cleanup_eff remote NewRequestWithContext ctx w1) as H.
    rewrite Hcl in H. destruct H as (_ & _ & _ & _ & _ & _ & Hrun & Hs & Hc).
    repeat split; try done.
    intros cmdType args c'. simpl. by rewrite Hrun.
  - split; [| done]. right. split; [done |].
    apply cleanup_panic in Hcl as (_ & _ & m & mainID & token & Hp); [| done].
    eauto.
Qed.

(** C6. A panic raised while the worker handles a command does not end
    the process by itself: the worker leaves its loop and [cleanup] runs,
    once and never again for that session. Unless the hard stop inside
    [cleanup] faults in turn, the worker returns with the manager reset. *)
Theorem dispatch_panic_recovered (acts : list Action) (cf : Config)
    (k ctx rch : nat) (ch : Chan) (cmd : AMDPCommand) (rest : list AMDPCommand)
    (msg : string) (w1 : World) :
  exec acts init = Some cf ->
  crashed cf = false ->
  workers (world cf) !! k = Some (WRunning ctx) ->
  cmdChannel (mgr (world cf)) = Some rch ->
  chans (world cf) !! rch = Some ch ->
  buf ch = cmd :: rest ->
  handleCommand ctx cmd
    (set_chans (<[rch := mkChan rest (closed ch)]> (chans (world cf))) (world cf))
    = (Panic msg, w1) ->
  exists cf',
    lts_step (RunWorker k CaseRecv) cf = Some cf' /\
    (workers (world cf') !! k = Some (WExited ctx) \/
     workers (world cf') !! k = Some (WCrashed ctx)) /\
    cleanups ctx (world cf) = 0 /\
    cleanups ctx (world cf') = 1 /\
    (forall acts' cf'', exec acts' cf' = Some cf'' -> cleanups ctx (world cf'') = 1) /\
    ((forall n mainID token m, remote n (CallHardStop mainID token) <> DoPanic m) ->
     workers (world cf') !! k = Some (WExited ctx) /\
     crashed cf' = false /\
     IsRunning (world cf') = false /\
     State (world cf') = emptyState).
Proof.
  intros Hex Hcr Hk Hch Hl Hb Hh.
  pose proof (reachable _ _ Hex) as Hinv.
  assert (Hloop : loopBody ctx CaseRecv (world cf) = Some (Panic msg, w1)).
  { simpl. rewrite Hch, Hl, Hb. unfold bind. by rewrite Hh. }
  assert (Hstep : exists cf', lts_step (RunWorker k CaseRecv) cf = Some cf' /\
                    workers (world cf') !! k <> Some (WRunning ctx)).
  { unfold lts_step, processCommands_step. rewrite Hcr, Hk, Hloop.
    pose proof (cleanup_eff remote NewRequestWithContext ctx w1) as H.
    apply loopBody_eff in Hloop as (_ & _ & Hw & _).
    destruct (cleanup ctx w1) as [[[]|m] w2]; destruct H as (_ & _ & Hw2 & _);
      eexists; (split; [done |]); simpl;
      rewrite list_lookup_insert_eq by (rewrite Hw2, Hw; by eapply lookup_lt_Some);
      done. }
  destruct Hstep as (cf' & Hstep & Hne). exists cf'. split; [done |].
  assert (Hinv' : reachable_inv cf').
  { apply (reachable (acts ++ [RunWorker k CaseRecv])).
    rewrite exec_app, Hex. simpl. by rewrite Hstep. }
  destruct (worker_leaves cf k ctx CaseRecv cf' Hinv Hk Hstep Hne)
    as (r & w1' & r2 & w2 & Hl' & Hr & Hok & Hm & Hcl & -> & H0 & H1 & H2 & H3).
  simpl. rewrite list_lookup_insert_eq by (by eapply lookup_lt_Some).
  split; [destruct r2; auto |].
  split; [done |]. split; [done |]. split.
  { intros acts' cf'' Hex'. by eapply cleanup_not_repeated. }
  intros Hhard. destruct r2 as [[]|m].
  - pose proof (cleanup_eff remote NewRequestWithContext ctx w1') as H.
    rewrite Hcl in H. destruct H as (_ & _ & _ & _ & _ & _ & Hrun & Hs & _).
    done.
  - apply cleanup_panic in Hcl as (_ & _ & m' & mainID & token & Hp); [| done].
    by destruct (Hhard _ _ _ _ Hp).
Qed.

Lemma occ_le_pending s chs r ch :
  chs !! r = Some ch -> occ s (buf ch) <= pending s chs.
Proof.
  revert r. induction chs as [|c chs IH]; intros [|r] Hr; simpl in *; try done.
  - injection Hr as ->. lia.
  - specialize (IH r Hr). lia.
Qed.

Lemma occ_elem cmd l : cmd ∈ l -> 1 <= occ (Response cmd) l.
Proof.
  induction 1 as [cmd l|cmd c l _ IH]; simpl; [rewrite Nat.eqb_refl |]; lia.
Qed.

(** The reply channel of a queued command exists and has had no response. *)
Lemma queued_slot_empty w r ch cmd :
  slots_inv w -> chans w !! r = Some ch -> cmd ∈ buf ch ->
  exists sl, slots w !! Response cmd = Some sl /\ sent sl = [].
Proof.
  intros Hslots Hl Hin.
  destruct (Hslots (Response cmd)) as [H1 H2].
  pose proof (occ_le_pending (Response cmd) _ _ _ Hl) as Hocc.
  pose proof (occ_elem _ _ Hin) as Hone.
  destruct (slots w !! Response cmd) as [sl|] eqn:Hsl.
  2: { apply lookup_ge_None in Hsl. specialize (H2 Hsl). lia. }
  unfold received in H1. rewrite Hsl in H1.
  exists sl. split; [done |]. destruct (sent sl); [done | simpl in H1; lia].
Qed.

(** The worker's iteration on a queued command that [handleCommand]
    answers: the reply channel exists and is empty, the response goes into
    it, and only the Stop command ends the loop. *)
Lemma worker_handles w ctx rch ch cmd rest resp w2 :
  slots_inv w ->
  cmdChannel (mgr w) = Some rch ->
  chans w !! rch = Some ch ->
  buf ch = cmd :: rest ->
  handleCommand ctx cmd (set_chans (<[rch := mkChan rest (closed ch)]> (chans w)) w)
    = (Ret resp, w2) ->
  exists sl,
    slots w !! Response cmd = Some sl /\ sent sl = [] /\
    slots w2 = slots w /\ mgr w2 = mgr w /\ workers w2 = workers w /\
    loopBody ctx CaseRecv w =
      Some (Ret (if Z.eqb (Type_ cmd) AMDPCmdStop then Return else Continue),
            set_slots (<[Response cmd := mkSlot [resp] (taken sl)]> (slots w)) w2).
Proof.
  intros Hslots Hch Hl Hb Hh.
  destruct (queued_slot_empty w rch ch cmd Hslots Hl) as (sl & Hsl & Hsent).
  { rewrite Hb. by left. }
  destruct (handleCommand_calls_only remote NewRequestWithContext ctx cmd
              (set_chans (<[rch := mkChan rest (closed ch)]> (chans w)) w))
    as (l & Hw2 & _).
  rewrite Hh in Hw2. simpl in Hw2.
  exists sl. split; [done |]. split; [done |].
  split; [by rewrite Hw2 |]. split; [by rewrite Hw2 |]. split; [by rewrite Hw2 |].
  simpl. rewrite Hch, Hl, Hb. unfold bind. rewrite Hh.
  unfold trySend, modify, ret.
  assert (slots w2 !! Response cmd = Some sl) as -> by (by rewrite Hw2).
  rewrite Hsent. simpl. assert (slots w2 = slots w) as -> by (by rewrite Hw2).
  by destruct (Z.eqb (Type_ cmd) AMDPCmdStop).
Qed.

(** C5. In every run, a reply channel has had at most one response put
    into it. The channel a call makes is new: nothing refers to it before
    the call queues its command. And the worker's step on a queued command
    is always possible, whether or not the caller still waits: when
    [handleCommand] returns, its response is put into the reply channel of
    the command, which was empty, and no other reply channel changes; when
    it panics, no reply channel changes. *)
Theorem reply_slot_at_most_one (acts : list Action) (cf : Config) :
  exec acts init = Some cf ->
  (forall s sl, slots (world cf) !! s = Some sl -> length (sent sl) <= 1) /\
  (forall cmdChan cmdType args s w',
     SendCommand_step (SendEnqueue cmdChan cmdType args) CaseSend (world cf)
       = Some (SendAwait s, w') ->
     slots (world cf) !! s = None /\ pending s (chans (world cf)) = 0 /\
     slots w' !! s = Some (mkSlot [] 0)) /\
  (forall k ctx rch ch cmd rest,
     crashed cf = false ->
     workers (world cf) !! k = Some (WRunning ctx) ->
     cmdChannel (mgr (world cf)) = Some rch ->
     chans (world cf) !! rch = Some ch ->
     buf ch = cmd :: rest ->
     exists cf' sl,
       lts_step (RunWorker k CaseRecv) cf = Some cf' /\
       slots (world cf) !! Response cmd = Some sl /\
       sent sl = [] /\
       slots (world cf') =
         match fst (handleCommand ctx cmd
                      (set_chans (<[rch := mkChan rest (closed ch)]> (chans (world cf)))
                         (world cf))) with
         | Ret resp => <[Response cmd := mkSlot [resp] (taken sl)]> (slots (world cf))
         | Panic _ => slots (world cf)
         end).
Proof.
  intros Hex. pose proof (reachable _ _ Hex) as (_ & _ & Hslots & _).
  split; [| split].
  - intros s sl Hs. destruct (Hslots s) as [H _].
    unfold received in H. rewrite Hs in H. lia.
  - intros cmdChan cmdType args s w'. simpl.
    destruct cmdChan as [r|]; [| done].
    destruct (chans (world cf) !! r) as [chn|]; [| done].
    destruct (closed chn); [done |]. case_match; [| done].
    intros [= <- <-]. simpl.
    destruct (Hslots (length (slots (world cf)))) as [_ Hfresh].
    split; [by apply lookup_ge_None_2 |]. split; [by apply Hfresh |].
    by rewrite lookup_app_r, Nat.sub_diag.
  - intros k ctx rch ch cmd rest Hcr Hk Hch Hl Hb.
    set (w1 := set_chans (<[rch := mkChan rest (closed ch)]> (chans (world cf)))
                 (world cf)).
    destruct (handleCommand ctx cmd w1) as [[resp|msg] w2] eqn:Hh; simpl.
    + destruct (worker_handles _ _ _ _ _ _ _ _ Hslots Hch Hl Hb Hh)
        as (sl & Hsl & Hsent & _ & _ & _ & Hloop).
      set (w3 := set_slots (<[Response cmd := mkSlot [resp] (taken sl)]>
                              (slots (world cf))) w2) in Hloop.
      unfold lts_step, processCommands_step. rewrite Hcr, Hk, Hloop.
      destruct (Z.eqb (Type_ cmd) AMDPCmdStop).
      * pose proof (cleanup_eff remote NewRequestWithContext ctx w3) as H.
        destruct (cleanup ctx w3) as [[[]|m] w4]; destruct H as (Hs4 & _);
          eexists _, sl; (split; [reflexivity |]); simpl; rewrite Hs4; done.
      * eexists _, sl. split; [reflexivity |]. done.
    + destruct (queued_slot_empty (world cf) rch ch cmd Hslots Hl) as (sl & Hsl & Hsent).
      { rewrite Hb. by left. }
      destruct (handleCommand_calls_only remote NewRequestWithContext ctx cmd w1)
        as (l & Hw2 & _).
      rewrite Hh in Hw2. simpl in Hw2.
      assert (Hloop : loopBody ctx CaseRecv (world cf) = Some (Panic msg, w2)).
      { simpl. rewrite Hch, Hl, Hb. unfold bind. fold w1. by rewrite Hh. }
      unfold lts_step, processCommands_step. rewrite Hcr, Hk, Hloop.
      pose proof (cleanup_eff remote NewRequestWithContext ctx w2) as H.
      destruct (cleanup ctx w2) as [[[]|m] w4]; destruct H as (Hs4 & _);
        eexists _, sl; (split; [reflexivity |]); simpl; rewrite Hs4, Hw2; done.
Qed.


End SystemProperties.

(** ** Further properties of the manager's methods *)

Section MethodExtras.

Variable remote : nat -> RemoteCall -> DoResult.
Variable NewRequestWithContext : RemoteCall -> option string.
Variable xmlUnmarshal : string -> option (string * string).

Abbreviation handleCommand := (handleCommand remote NewRequestWithContext).
Abbreviation step := (step remote NewRequestWithContext).
Abbreviation getStatus := (getStatus remote NewRequestWithContext).
Abbreviation getVariables := (getVariables remote NewRequestWithContext).
Abbreviation getBreakpoints := (getBreakpoints remote NewRequestWithContext).
Abbreviation setBreakpoint := (setBreakpoint remote NewRequestWithContext).
Abbreviation stopSession := (stopSession remote NewRequestWithContext).
Abbreviation sendKeepalive := (sendKeepalive remote NewRequestWithContext).
Abbreviation loopBody := (loopBody remote NewRequestWithContext).
Abbreviation fetchCSRFToken := (fetchCSRFToken remote NewRequestWithContext).
Abbreviation initiateSession := (initiateSession remote NewRequestWithContext xmlUnmarshal).
Abbreviation Start_fetch := (Start_fetch remote NewRequestWithContext).
Abbreviation Start_token := (Start_token remote NewRequestWithContext).
Abbreviation Start_initiate := (Start_initiate remote NewRequestWithContext xmlUnmarshal).
Abbreviation Start := (Start remote NewRequestWithContext xmlUnmarshal).

Ltac unfold_handlers :=
  unfold handleCommand, step, getStatus, getVariables, getBreakpoints,
    setBreakpoint, stopSession, bind, ret, gets, Do, State.

Ltac eqb_hyps :=
  repeat match goal with
    | H : String.eqb _ _ = true |- _ => apply String.eqb_eq in H
    | H : String.eqb _ _ = false |- _ => apply String.eqb_neq in H
    | H : Z.eqb _ _ = true |- _ => apply Z.eqb_eq in H
    | H : Z.eqb _ _ = false |- _ => apply Z.eqb_neq in H
    end.

(** X1. Without a session (empty MainID) every handled command is answered
    locally, with no request to the remote system and no change to the
    world: the Stop command succeeds, the others fail with the no-session
    error and carry no data. *)
Theorem handleCommand_no_session (ctx : nat) (cmd : AMDPCommand) (w : World) :
  MainID (State w) = "" ->
  handled (Type_ cmd) = true ->
  exists resp,
    handleCommand ctx cmd w = (Ret resp, w) /\
    noData (RData resp) = true /\
    ((Type_ cmd = AMDPCmdStop /\ Success resp = true /\ Error resp = None) \/
     (Type_ cmd <> AMDPCmdStop /\ Success resp = false /\
      Error resp = Some "no active session")).
Proof.
  unfold State, handled, AMDPCmdStop, AMDPCmdGetBreakpoints. intros Hm Hh.
  apply andb_true_iff in Hh as [H1%Z.leb_le H6%Z.leb_le].
  unfold_handlers.
  unfold AMDPCmdStep, AMDPCmdGetStatus, AMDPCmdGetVariables, AMDPCmdGetBreakpoints,
    AMDPCmdSetBreakpoint, AMDPCmdStop.
  repeat case_match; simplify_eq; eqb_hyps; simpl in *; try lia; try congruence;
    eexists; (split; [reflexivity |]); simpl; (split; [reflexivity |]);
    first [left; repeat split; congruence | right; repeat split; congruence].
Qed.

(** X2. A command type without a case in [handleCommand], among them the
    declared AMDPCmdStart, is answered with the unknown-command error that
    names the type's number; nothing is requested and the world is unchanged. *)
Theorem handleCommand_unknown (ctx : nat) (cmd : AMDPCommand) (w : World) :
  handled (Type_ cmd) = false ->
  handleCommand ctx cmd w =
    (Ret (mkResponse false DataNil
            (Some ("unknown command: " +:+ pretty (Type_ cmd)))), w).
Proof.
  unfold handled, AMDPCmdStop, AMDPCmdGetBreakpoints. intros Hh.
  apply andb_false_iff in Hh.
  unfold handleCommand, AMDPCmdStep, AMDPCmdGetStatus, AMDPCmdGetVariables,
    AMDPCmdGetBreakpoints, AMDPCmdSetBreakpoint, AMDPCmdStop.
  repeat case_match; eqb_hyps; try reflexivity;
    destruct Hh as [Hh%Z.leb_gt|Hh%Z.leb_gt]; lia.
Qed.

(** X3. Handling a command issues at most one request. The request is the
    one of the command's own type, it is addressed to the MainID the state
    holds at that moment, which is not empty, and where it carries a token
    it is the stored one. *)
Theorem handleCommand_request (ctx : nat) (cmd : AMDPCommand) (w : World) :
  exists l,
    snd (handleCommand ctx cmd w) = logged l w /\
    (l = [] \/
     exists call,
       l = [EvCall ctx call] /\
       callKind call = Some (Type_ cmd) /\
       callMainID call = Some (MainID (State w)) /\
       MainID (State w) <> "" /\
       (callToken call = None \/ callToken call = Some (csrfToken (mgr w)))).
Proof.
  unfold_handlers.
  repeat case_match; simplify_eq; eqb_hyps; simpl;
    first
      [ exists []; split; [by rewrite logged_nil | by left]
      | eexists [_]; split; [reflexivity |]; right; eexists; split; [reflexivity |];
        simpl; repeat split; auto; congruence ].
Qed.

(** X4. In every response of [handleCommand] the success flag says whether
    the error is nil, and a response that is not a success carries no data. *)
Theorem handleCommand_success_flag (ctx : nat) (cmd : AMDPCommand) (w : World) :
  match fst (handleCommand ctx cmd w) with
  | Ret resp =>
      Success resp = isNil (Error resp) /\
      (Success resp = true \/ noData (RData resp) = true)
  | Panic _ => True
  end.
Proof.
  destruct (handleCommand ctx cmd w) as [[resp|msg] w'] eqn:E; simpl; [| done].
  revert E. unfold_handlers.
  repeat case_match; simplify_eq; intros [= <- <-]; simpl; auto.
Qed.

(** X5. With a session, the Stop command succeeds exactly when the remote
    system answers 200, 204 or 404: a session that is already gone counts as
    stopped. *)
Theorem stop_command_statuses (ctx : nat) (cmd : AMDPCommand) (w : World)
    (resp : HttpResponse) :
  Type_ cmd = AMDPCmdStop ->
  MainID (State w) <> "" ->
  NewRequestWithContext (CallStopSession (MainID (State w)) (csrfToken (mgr w))) = None ->
  remote (length (trace w)) (CallStopSession (MainID (State w)) (csrfToken (mgr w)))
    = DoResponse resp ->
  exists r,
    fst (handleCommand ctx cmd w) = Ret r /\
    (Success r = true <->
     StatusCode resp = 200%Z \/ StatusCode resp = 204%Z \/ StatusCode resp = 404%Z).
Proof.
  unfold State. intros Ht Hm Hreq Hdo. apply String.eqb_neq in Hm.
  unfold_handlers. rewrite Ht. simpl. rewrite Hm, Hreq, Hdo.
  unfold StatusOK, StatusNoContent, StatusNotFound.
  destruct (Z.eqb_spec (StatusCode resp) 200); simpl.
  { eexists. split; [reflexivity |]. simpl. tauto. }
  destruct (Z.eqb_spec (StatusCode resp) 204); simpl.
  { eexists. split; [reflexivity |]. simpl. tauto. }
  destruct (Z.eqb_spec (StatusCode resp) 404); simpl.
  { eexists. split; [reflexivity |]. simpl. tauto. }
  eexists. split; [reflexivity |]. simpl. split; [done |]. intros [?|[?|?]]; done.
Qed.

(** X6. A successful GetStatus answers with a copy of the state the manager
    already holds, whatever the body of the remote answer, and leaves that
    state as it is. *)
Theorem getStatus_returns_local_state (ctx : nat) (cmd : AMDPCommand) (w : World)
    (resp : AMDPResponse) (w' : World) :
  Type_ cmd = AMDPCmdGetStatus ->
  handleCommand ctx cmd w = (Ret resp, w') ->
  Success resp = true ->
  RData resp = DataState (Some (State w)) /\ State w' = State w.
Proof.
  intros Ht. unfold_handlers. rewrite Ht. simpl.
  repeat case_match; simplify_eq; simpl; intros [= <- <-]; simpl; done.
Qed.

(** X7. A keepalive tick never ends the loop and never changes the manager
    or the channels: unless the client faults, the iteration continues,
    whatever the remote system answers, and the only trace of it is at most
    one keepalive request for the current MainID. *)
Theorem keepalive_tick_continues (ctx : nat) (w : World) :
  (forall mainID msg,
     remote (length (trace w)) (CallKeepalive mainID) <> DoPanic msg) ->
  exists l,
    loopBody ctx CaseTick w = Some (Ret Continue, logged l w) /\
    (l = [] \/ l = [EvCall ctx (CallKeepalive (MainID (State w)))]).
Proof.
  intros Hno. simpl. unfold sendKeepalive, bind, ret, gets, Do, State.
  repeat case_match; simplify_eq;
    first
      [ exists []; split; [by rewrite logged_nil | by left]
      | eexists [_]; split; [reflexivity | by right]
      | exfalso; eapply Hno; eassumption ].
Qed.

(** X8. On a manager that is not running, [Start] returns nil exactly when
    it leaves the manager running. In that case it has made two requests,
    the token fetch and then the session creation carrying the token just
    fetched, which is now the stored one and is neither empty nor the word
    unsafe; the status is running, the object URI is the one given, the
    command channel is a new, open and empty one, and one worker was
    started on the new context. *)
Theorem Start_result (w : World) (objectURI user password : string)
    (err : option string) (w' : World) :
  IsRunning w = false ->
  Start objectURI user password w = (Ret err, w') ->
  (err = None <-> IsRunning w' = true) /\
  (err = None ->
   trace w' = trace w ++
     [ EvCall (length (ctxs w)) (CallFetchToken user password);
       EvCall (length (ctxs w))
         (CallStartSession objectURI user password (csrfToken (mgr w'))) ] /\
   csrfToken (mgr w') <> "" /\ csrfToken (mgr w') <> "unsafe" /\
   Status (State w') = "running" /\
   ObjectURI (State w') = objectURI /\
   cmdChannel (mgr w') = Some (length (chans w)) /\
   chans w' = chans w ++ [mkChan [] false] /\
   cancel (mgr w') = Some (length (ctxs w)) /\
   workers w' = workers w ++ [WRunning (length (ctxs w))]).
Proof.
  unfold IsRunning, State. intros Hrun.
  unfold Start, Start_lock, Start_check, Start_cancel, Start_fetch, Start_initiate,
    fetchCSRFToken, initiateSession, spawn, bind, ret, gets, Do, modifyMgr, modify.
  rewrite Hrun. simpl.
  repeat case_match; simplify_eq; simpl; intros [= <- <-]; simpl;
    (split; [split; congruence |]); try (intros; congruence).
  intros _.
  match goal with
  | H : _ || _ = false |- _ =>
      apply orb_false_iff in H as [?%String.eqb_neq ?%String.eqb_neq]
  end.
  rewrite <- app_assoc. simpl. by repeat split.
Qed.

(** X20. The arguments of a command are not checked. A Step command whose
    step_type is absent or not a string, and a SetBreakpoint command whose
    proc_name is absent or not a string and whose line is absent or not an
    int, are not refused: with a session, the request goes out with the
    empty string and the line 0. *)
Theorem absent_arguments_default (ctx : nat) (cmd : AMDPCommand) (w : World) :
  MainID (State w) <> "" ->
  (forall call, NewRequestWithContext call = None) ->
  (forall s, Args cmd !! "step_type" <> Some (VString s)) ->
  (forall s, Args cmd !! "proc_name" <> Some (VString s)) ->
  (forall n, Args cmd !! "line" <> Some (VInt n)) ->
  (Type_ cmd = AMDPCmdStep ->
   snd (handleCommand ctx cmd w) =
     logged [EvCall ctx (CallStep (MainID (State w)) "" (csrfToken (mgr w)))] w) /\
  (Type_ cmd = AMDPCmdSetBreakpoint ->
   snd (handleCommand ctx cmd w) =
     logged [EvCall ctx (CallSetBreakpoint (MainID (State w)) "" 0
                           (csrfToken (mgr w)))] w).
Proof.
  intros Hm Hreq Hst Hpn Hln.
  assert (E1 : argString (Args cmd) "step_type" = "").
  { unfold argString. destruct (Args cmd !! "step_type") as [[s|n|]|] eqn:E; try done.
    by destruct (Hst s). }
  assert (E2 : argString (Args cmd) "proc_name" = "").
  { unfold argString. destruct (Args cmd !! "proc_name") as [[s|n|]|] eqn:E; try done.
    by destruct (Hpn s). }
  assert (E3 : argInt (Args cmd) "line" = 0%Z).
  { unfold argInt. destruct (Args cmd !! "line") as [[s|n|]|] eqn:E; try done.
    by destruct (Hln n). }
  apply String.eqb_neq in Hm.
  split; intros Ht; unfold_handlers; rewrite Ht; simpl; unfold State in Hm;
    rewrite ?E1, ?E2, ?E3, Hm, Hreq; repeat case_match; simplify_eq; reflexivity.
Qed.

End MethodExtras.

(** ** Further properties of the running system *)

Section SystemExtras.

Variable remote : nat -> RemoteCall -> DoResult.
Variable NewRequestWithContext : RemoteCall -> option string.
Variable xmlUnmarshal : string -> option (string * string).
Variables (baseURL client : string) (insecure : bool).

Abbreviation handleCommand := (handleCommand remote NewRequestWithContext).
Abbreviation hardStop := (hardStop remote NewRequestWithContext).
Abbreviation cleanup := (cleanup remote NewRequestWithContext).
Abbreviation loopBody := (loopBody remote NewRequestWithContext).
Abbreviation processCommands_step := (processCommands_step remote NewRequestWithContext).
Abbreviation Start_fetch := (Start_fetch remote NewRequestWithContext).
Abbreviation Start_token := (Start_token remote NewRequestWithContext).
Abbreviation Start_initiate := (Start_initiate remote NewRequestWithContext xmlUnmarshal).
Abbreviation Start_step := (Start_step remote NewRequestWithContext xmlUnmarshal).
Abbreviation thread_step := (thread_step remote NewRequestWithContext xmlUnmarshal).
Abbreviation lts_step := (lts_step remote NewRequestWithContext xmlUnmarshal).
Abbreviation exec := (exec remote NewRequestWithContext xmlUnmarshal).
Abbreviation reachable_inv := (reachable_inv remote xmlUnmarshal).
Abbreviation init := (initConfig baseURL client insecure).

(** The requests and the channel operation of [cleanup], in full. *)
Lemma cleanup_fine ctx w :
  let '(r, w') := cleanup ctx w in
  trace w' = trace w ++ EvCleanup ctx ::
    (if String.eqb (MainID (state (mgr w))) "" then []
     else match NewRequestWithContext
                  (CallHardStop (MainID (state (mgr w))) (csrfToken (mgr w))) with
          | Some _ => []
          | None => [EvCall ctx (CallHardStop (MainID (state (mgr w))) (csrfToken (mgr w)))]
          end) /\
  match r with
  | Ret _ =>
      match cmdChannel (mgr w) with
      | None => chans w' = chans w
      | Some r0 =>
          match chans w !! r0 with
          | None => chans w' = chans w
          | Some ch =>
              closed ch = false /\ chans w' = <[r0 := mkChan (buf ch) true]> (chans w)
          end
      end
  | Panic _ => chans w' = chans w
  end.
Proof.
  unfold cleanup, hardStop, closeChan, bind, ret, gets, Do, modifyMgr, modify, logged.
  simpl.
  repeat case_match; simplify_eq; simpl in *; simplify_eq;
    rewrite <- ?app_assoc; simpl; try done; try congruence.
Qed.

Lemma chans_step_refl C : chans_step C C.
Proof. by left. Qed.

Lemma chans_close_step C C' : chans_close C C' -> chans_step C C'.
Proof. intros [->|H]; [by left | by do 4 right]. Qed.

(** Every step of the system is one operation on the channels, after which
    the worker's last iteration also closes the manager's channel. *)
Lemma lts_step_chans a cf cf' :
  chan_ok (world cf) -> lts_step a cf = Some cf' ->
  exists mid,
    chans_step (chans (world cf)) mid /\ chans_close mid (chans (world cf')).
Proof.
  intros Hok. unfold lts_step. destruct (crashed cf); [done |].
  destruct a as [call|i c|i c|ctx].
  - intros [= <-]. simpl. exists (chans (world cf)). split; by left.
  - destruct (threads cf !! i) as [t|] eqn:Hi; [| done].
    destruct (thread_step t c (world cf)) as [[t' w']|] eqn:E; [| done].
    intros [= <-]. simpl. exists (chans w'). split; [| by left].
    destruct t as [pc|pc|pc]; simpl in E.
    + destruct (Start_step pc (world cf)) as [[pc' w'']|] eqn:E'; [| done].
      simpl in E. simplify_eq.
      destruct pc as [o u p|ctx o u p|ctx o u p|e|msg]; simpl in E'; [| | | done..].
      * unfold Start_check in E'. destruct (running (mgr (world cf))); simplify_eq.
        { by left. }
        right. by left.
      * pose proof (Start_token_eff remote NewRequestWithContext ctx u p (world cf)) as H.
        destruct (Start_token ctx u p (world cf)) as [r w1].
        destruct H as ((Hc & _) & _).
        destruct r as [[e|]|msg]; simplify_eq; rewrite Hc; by left.
      * pose proof (Start_initiate_eff remote NewRequestWithContext xmlUnmarshal
                      ctx o u p (world cf)) as H.
        destruct (Start_initiate ctx o u p (world cf)) as [r w1].
        destruct H as (Hc & _).
        destruct r as [e|msg]; simplify_eq; rewrite Hc; by left.
    + destruct (Stop_step pc (world cf)) as [[pc' w'']|] eqn:E'; [| done].
      simpl in E. simplify_eq.
      apply Stop_step_eff in E' as (_ & _ & _ & _ & Hc & _). rewrite Hc. by left.
    + destruct (SendCommand_step pc c (world cf)) as [[pc' w'']|] eqn:E'; [| done].
      simpl in E. simplify_eq.
      destruct pc as [ty a|ch ty a|s|resp e|msg]; simpl in E'; [| | | done..].
      * destruct (negb _); simplify_eq; by left.
      * destruct c; try done; [| simplify_eq; by left].
        destruct ch as [r|]; [| done].
        destruct (chans (world cf) !! r) as [chn|] eqn:Hr; [| done].
        destruct (closed chn) eqn:Hcl; [simplify_eq; by left |].
        destruct (length (buf chn) <? cmdCap) eqn:Hlen; [| done].
        simplify_eq. simpl. right. right. left.
        apply Nat.ltb_lt in Hlen. eauto 10.
      * destruct c; try done; [| simplify_eq; by left].
        repeat case_match; try done. simplify_eq. by left.
  - destruct (workers (world cf) !! i) as [[ctx|ctx|ctx]|] eqn:Hi; try done.
    destruct (processCommands_step ctx c (world cf)) as [[st w']|] eqn:E; [| done].
    intros [= <-]. simpl.
    apply processCommands_step_eff in E.
    destruct E as (r & w1 & Hl & Hcase).
    pose proof (loopBody_chan_ok _ _ _ _ _ _ _ Hok Hl) as Hok1.
    exists (chans w1). split.
    + apply loopBody_eff in Hl
        as (_ & _ & _ & _ & [[Hc _]|(rch & ch & cmd & rest & Hr & Hlk & Hb & Hc & _)]).
      * rewrite Hc. by left.
      * destruct (Hok rch Hr) as (ch' & Hlk' & Hcl). simplify_eq.
        rewrite Hc, Hcl. right. right. right. left. eauto 10.
    + destruct Hcase as [(-> & -> & ->)|(_ & r2 & Hcl & Hst)]; [by left |].
      pose proof (cleanup_fine ctx w1) as H. rewrite Hcl in H.
      destruct H as [_ H]. destruct r2 as [[]|msg]; [| rewrite H; by left].
      destruct (cmdChannel (mgr w1)) as [r0|]; [| rewrite H; by left].
      destruct (chans w1 !! r0) as [ch|] eqn:Hlk; [| rewrite H; by left].
      destruct H as [Hcl0 ->]. right. eauto 10.
  - case_decide; [| done]. intros [= <-]. simpl. exists (chans (world cf)). split; by left.
Qed.

Lemma chans_step_bounded C C' :
  chans_step C C' ->
  (forall r ch, C !! r = Some ch -> length (buf ch) <= cmdCap) ->
  forall r ch, C' !! r = Some ch -> length (buf ch) <= cmdCap.
Proof.
  intros [->|[->|[(r0 & ch0 & cmd & Hl & _ & Hlen & ->)|
                  [(r0 & ch0 & cmd & rest & Hl & _ & Hb & ->)|
                   (r0 & ch0 & Hl & _ & ->)]]]] Hinv r ch; [apply Hinv | ..].
  - intros [[_ H]|[_ <-]]%lookup_snoc_Some; [by eapply Hinv | simpl; lia].
  - intros [(_ & <- & _)|(_ & H)]%list_lookup_insert_Some; [| by eapply Hinv].
    simpl. rewrite length_app. simpl. lia.
  - intros [(_ & <- & _)|(_ & H)]%list_lookup_insert_Some; [| by eapply Hinv].
    simpl. specialize (Hinv _ _ Hl). rewrite Hb in Hinv. simpl in Hinv. lia.
  - intros [(_ & <- & _)|(_ & H)]%list_lookup_insert_Some; [| by eapply Hinv].
    simpl. by eapply Hinv.
Qed.

Lemma chans_step_closed C C' r ch :
  chans_step C C' -> C !! r = Some ch -> closed ch = true -> C' !! r = Some ch.
Proof.
  intros [->|[->|[(r0 & ch0 & cmd & Hl & Hc & _ & ->)|
                  [(r0 & ch0 & cmd & rest & Hl & Hc & _ & ->)|
                   (r0 & ch0 & Hl & Hc & ->)]]]] Hr Hcl; [done | ..].
  - apply lookup_app_l_Some. done.
  - rewrite list_lookup_insert_ne; [done | congruence].
  - rewrite list_lookup_insert_ne; [done | congruence].
  - rewrite list_lookup_insert_ne; [done | congruence].
Qed.

Lemma reachable_all acts cf : exec acts init = Some cf -> reachable_inv cf.
Proof. apply exec_inv, init_inv. Qed.

Lemma exec_snoc acts a cf cf' :
  exec acts init = Some cf -> lts_step a cf = Some cf' ->
  exec (acts ++ [a]) init = Some cf'.
Proof. intros H1 H2. rewrite exec_app, H1. simpl. by rewrite H2. Qed.

(** X9. In every run, no command channel holds more than ten commands.
    A [SendCommand] call that finds ten commands in the open channel cannot
    add its own: its send is not ready, and the case left to it is the
    timeout, after which it returns the channel-timeout error and the
    channels are as before. *)
Theorem command_queue_bounded (acts : list Action) (cf : Config) :
  exec acts init = Some cf ->
  (forall r ch, chans (world cf) !! r = Some ch -> length (buf ch) <= 10) /\
  (forall i r ch cmdType args,
     crashed cf = false ->
     threads cf !! i = Some (TSend (SendEnqueue (Some r) cmdType args)) ->
     chans (world cf) !! r = Some ch ->
     closed ch = false ->
     length (buf ch) = 10 ->
     lts_step (RunThread i CaseSend) cf = None /\
     exists cf',
       lts_step (RunThread i CaseTimeout) cf = Some cf' /\
       threads cf' !! i =
         Some (TSend (SendReturn emptyResponse (Some "command channel timeout"))) /\
       chans (world cf') = chans (world cf)).
Proof.
  intros Hex. split.
  - revert cf Hex. induction acts as [|a acts IH] using rev_ind; intros cf.
    + intros [= <-]. simpl. intros r ch. by rewrite lookup_nil.
    + rewrite exec_app.
      destruct (exec acts init) as [cf0|] eqn:E0; [| done]. simpl.
      destruct (lts_step a cf0) as [cf1|] eqn:E1; [| done]. intros [= <-].
      pose proof (reachable_all _ _ E0) as (Hok & _).
      destruct (lts_step_chans _ _ _ Hok E1) as (mid & H1 & H2).
      eapply chans_step_bounded; [exact (chans_close_step _ _ H2) |].
      eapply chans_step_bounded; [exact H1 |]. by apply IH.
  - intros i r ch cmdType args Hcr Hi Hr Hcl Hlen.
    unfold lts_step. rewrite Hcr, Hi. simpl. rewrite Hr, Hcl, Hlen. simpl.
    split; [done |]. eexists. split; [reflexivity |]. simpl.
    split; [| done]. apply list_lookup_insert_eq. by eapply lookup_lt_Some.
Qed.

(** X10. A channel that has been closed stays as it is in every later
    step: no command is put into it and none is taken from it. The commands
    still queued when the worker left are therefore never handled, and their
    reply channels stay empty for good. *)
Theorem closed_channel_frozen (acts acts' : list Action) (cf cf' : Config)
    (r : nat) (ch : Chan) :
  exec acts init = Some cf ->
  chans (world cf) !! r = Some ch ->
  closed ch = true ->
  exec acts' cf = Some cf' ->
  chans (world cf') !! r = Some ch /\
  (forall cmd, cmd ∈ buf ch ->
     exists sl, slots (world cf') !! Response cmd = Some sl /\ sent sl = []).
Proof.
  intros Hex Hr Hcl Hex'.
  assert (Hfrozen : chans (world cf') !! r = Some ch).
  { revert cf' Hex'. induction acts' as [|a acts' IH] using rev_ind; intros cf'.
    - by intros [= <-].
    - rewrite exec_app.
      destruct (exec acts' cf) as [cf0|] eqn:E0; [| done]. simpl.
      destruct (lts_step a cf0) as [cf1|] eqn:E1; [| done]. intros [= <-].
      assert (Hinv0 : reachable_inv cf0).
      { apply (reachable_all (acts ++ acts')). by rewrite exec_app, Hex. }
      destruct Hinv0 as (Hok & _).
      destruct (lts_step_chans _ _ _ Hok E1) as (mid & H1 & H2).
      eapply chans_step_closed; [exact (chans_close_step _ _ H2) | | done].
      eapply chans_step_closed; [exact H1 | | done]. by apply IH. }
  split; [done |]. intros cmd Hin.
  assert (Hinv : reachable_inv cf').
  { apply (reachable_all (acts ++ acts')). by rewrite exec_app, Hex. }
  destruct Hinv as (_ & _ & Hslots & _).
  by eapply queued_slot_empty.
Qed.


Lemma holds_snoc_thread ths wks t p ctx :
  owns t = None -> holds (ths ++ [t]) wks p ctx -> holds ths wks p ctx.
Proof.
  intros Ho. destruct p as [i|k]; simpl; [| done]. intros [t0 [Hl Ho0]].
  apply lookup_snoc_Some in Hl as [[_ Hl]|[_ <-]]; [eauto | congruence].
Qed.

Lemma stored_owns t ctx : stored t = Some ctx -> owns t = Some ctx.
Proof. by destruct t as [[]| |]. Qed.

Lemma lts_step_cancel_inv a cf cf' :
  session_inv cf -> cancel_inv cf -> lts_step a cf = Some cf' -> cancel_inv cf'.
Proof.
  unfold cancel_inv. intros Hsess [Hth Hwk].
  unfold lts_step. destruct (crashed cf); [done |].
  destruct a as [call|i c|i c|ctx].
  - intros [= <-]. simpl. split; [| done].
    intros j t ctx [[_ Hl]|[_ <-]]%lookup_snoc_Some; [by eapply Hth |].
    by destruct call.
  - destruct (threads cf !! i) as [t|] eqn:Hi; [| done].
    destruct (thread_step t c (world cf)) as [[t' w']|] eqn:E; [| done].
    intros [= <-]. simpl.
    assert (Hframe : mgr w' = mgr (world cf) -> workers w' = workers (world cf) ->
                     stored t' = None ->
                     (forall j t0 ctx, <[i := t']> (threads cf) !! j = Some t0 ->
                        stored t0 = Some ctx -> cancel (mgr w') = Some ctx) /\
                     (forall k ctx, workers w' !! k = Some (WRunning ctx) ->
                        cancel (mgr w') = Some ctx)).
    { intros -> -> Hno. split; [| done].
      intros j t0 ctx [(_ & <- & _)|(_ & Hl)]%list_lookup_insert_Some;
        [congruence | by eapply Hth]. }
    destruct t as [pc|pc|pc]; simpl in E.
    + destruct (Start_step pc (world cf)) as [[pc' w'']|] eqn:E'; [| done].
      simpl in E. simplify_eq.
      destruct pc as [o u pw|ctx o u pw|ctx o u pw|e|msg]; simpl in E'; [| | | done..].
      * unfold Start_check in E'. destruct (running (mgr (world cf))) eqn:Hrun; simplify_eq.
        { by apply Hframe. }
        simpl. split; [| done].
        intros j t0 ctx [(_ & <- & _)|(_ & Hl)]%list_lookup_insert_Some;
          [done | by eapply Hth].
      * pose proof (Start_token_eff remote NewRequestWithContext ctx u pw (world cf)) as H.
        destruct (Start_token ctx u pw (world cf)) as [r w1].
        destruct H as ((_ & _ & _ & Hw) & (_ & _ & Hc & _) & _).
        assert (Hold : holds (threads cf) (workers (world cf)) (inl i) ctx)
          by (simpl; eauto).
        assert (Hpc : stored (TStart pc') = Some ctx \/ stored (TStart pc') = None).
        { destruct r as [[e|]|msg]; simplify_eq; auto. }
        assert (w' = w1) as -> by (destruct r as [[e|]|msg]; by simplify_eq).
        rewrite Hc, Hw. split.
        { intros j t0 c0 [(_ & <- & _)|(Hne & Hl)]%list_lookup_insert_Some Hst.
          - destruct Hpc; congruence.
          - assert (inl j = inl i :> nat + nat); [| congruence].
            eapply sess_unique; [exact Hsess | | exact Hold].
            simpl. eauto using stored_owns. }
        { intros k c0 Hk.
          assert (inr k = inl i :> nat + nat); [| done].
          eapply sess_unique; [exact Hsess | | exact Hold]. done. }
      * pose proof (Start_initiate_eff remote NewRequestWithContext xmlUnmarshal
                      ctx o u pw (world cf)) as H.
        destruct (Start_initiate ctx o u pw (world cf)) as [r w1].
        destruct H as (_ & _ & _ & _ & Hc & _ & Hr).
        assert (Hctx : cancel (mgr (world cf)) = Some ctx) by (by eapply Hth).
        destruct r as [[e|]|msg]; simplify_eq; simpl; rewrite Hc;
          destruct Hr as (Hw & _); rewrite Hw;
          (split;
           [ intros j t0 c0 [(_ & <- & _)|(_ & Hl)]%list_lookup_insert_Some;
               [done | by eapply Hth] |]);
          try done.
        intros k c0 [[_ Hl]|[_ [= <-]]]%lookup_snoc_Some; [by eapply Hwk | done].
    + destruct (Stop_step pc (world cf)) as [[pc' w'']|] eqn:E'; [| done].
      simpl in E. simplify_eq.
      apply Stop_step_eff in E' as (Hm & _ & Hw & _). by apply Hframe.
    + destruct (SendCommand_step pc c (world cf)) as [[pc' w'']|] eqn:E'; [| done].
      simpl in E. simplify_eq.
      apply SendCommand_step_eff in E' as (Hm & _ & Hw & _). by apply Hframe.
  - destruct (workers (world cf) !! i) as [[ctx|ctx|ctx]|] eqn:Hi; try done.
    destruct (processCommands_step ctx c (world cf)) as [[st w']|] eqn:E; [| done].
    intros [= <-].
    apply processCommands_step_eff in E.
    destruct E as (r & w1 & Hl & Hcase).
    apply loopBody_eff in Hl as (Hm & _ & Hw & _).
    assert (Hc : cancel (mgr w') = cancel (mgr (world cf)) /\
                 workers w' = workers (world cf)).
    { destruct Hcase as [(-> & -> & ->)|(_ & r2 & Hcl & Hst)]; [by rewrite Hm |].
      pose proof (cleanup_eff remote NewRequestWithContext ctx w1) as H.
      rewrite Hcl in H. destruct H as (_ & _ & Hw' & _ & Hc' & _).
      by rewrite Hc', Hw', Hm. }
    destruct Hc as [Hc Hw']. simpl. rewrite Hc, Hw'. split; [done |].
    intros k c0 [(_ & Hst & _)|(_ & Hk)]%list_lookup_insert_Some; [| by eapply Hwk].
    destruct Hcase as [(_ & -> & _)|(_ & r2 & _ & Hst')].
    + injection Hst as <-. by eapply Hwk.
    + destruct r2; congruence.
  - case_decide; [| done]. intros [= <-]. done.
Qed.

Lemma reachable_cancel acts cf : exec acts init = Some cf -> cancel_inv cf.
Proof.
  revert cf. induction acts as [|a acts IH] using rev_ind; intros cf.
  - intros [= <-]. split; [intros i t ctx | intros k ctx]; simpl; by rewrite lookup_nil.
  - rewrite exec_app.
    destruct (exec acts init) as [cf0|] eqn:E0; [| done]. simpl.
    destruct (lts_step a cf0) as [cf1|] eqn:E1; [| done]. intros [= <-].
    pose proof (reachable_all _ _ E0) as (_ & Hsess & _).
    eapply lts_step_cancel_inv; [exact Hsess | by apply IH | exact E1].
Qed.

(** X11. While a worker is in its loop it is the only one, the manager is
    running, no [Start] call is past its check, and the manager's cancel
    function is the one of the worker's context. *)
Theorem one_session_at_a_time (acts : list Action) (cf : Config) (k ctx : nat) :
  exec acts init = Some cf ->
  workers (world cf) !! k = Some (WRunning ctx) ->
  IsRunning (world cf) = true /\
  (forall k' ctx', workers (world cf) !! k' = Some (WRunning ctx') ->
     k' = k /\ ctx' = ctx) /\
  (forall i t, threads cf !! i = Some t -> owns t = None) /\
  cancel (mgr (world cf)) = Some ctx /\
  ctx < length (ctxs (world cf)).
Proof.
  intros Hex Hk.
  pose proof (reachable_all _ _ Hex) as (_ & Hsess & _).
  pose proof (reachable_cancel _ _ Hex) as Hcan.
  assert (Hh : holds (threads cf) (workers (world cf)) (inr k) ctx) by done.
  destruct (sess_held _ _ _ _ _ Hsess _ _ Hh) as (Hrun & Hlt & _).
  destruct Hcan as [_ Hcan].
  split; [done |]. split; [| split; [| split; [by eapply Hcan | done]]].
  - intros k' ctx' Hk'.
    assert (inr k' = inr k :> nat + nat) as [= ->] by (eapply sess_unique; eauto; done).
    split; [done | congruence].
  - intros i t Hi. destruct (owns t) as [c0|] eqn:Ho; [| done].
    assert (inl i = inr k :> nat + nat) by (eapply sess_unique; eauto; simpl; eauto).
    done.
Qed.

(** X12. While a worker stays in its loop, no step of any goroutine changes
    the manager: not the running flag, the session state, the token, the
    command channel or the cancel function. *)
Theorem manager_unchanged_while_worker_runs (acts : list Action) (cf : Config)
    (k ctx : nat) (a : Action) (cf' : Config) :
  exec acts init = Some cf ->
  workers (world cf) !! k = Some (WRunning ctx) ->
  lts_step a cf = Some cf' ->
  workers (world cf') !! k = Some (WRunning ctx) ->
  mgr (world cf') = mgr (world cf).
Proof.
  intros Hex Hk.
  pose proof (reachable_all _ _ Hex) as (_ & Hsess & _).
  assert (Hh : holds (threads cf) (workers (world cf)) (inr k) ctx) by done.
  destruct (sess_held _ _ _ _ _ Hsess _ _ Hh) as (Hrun & _).
  unfold lts_step. destruct (crashed cf); [done |].
  destruct a as [call|i c|i c|c0].
  - by intros [= <-].
  - destruct (threads cf !! i) as [t|] eqn:Hi; [| done].
    destruct (thread_step t c (world cf)) as [[t' w']|] eqn:E; [| done].
    intros [= <-] _. simpl.
    destruct t as [pc|pc|pc]; simpl in E.
    + destruct (Start_step pc (world cf)) as [[pc' w'']|] eqn:E'; [| done].
      simpl in E. simplify_eq.
      destruct pc as [o u pw|c1 o u pw|c1 o u pw|e|msg]; simpl in E'; [| | | done..].
      * unfold Start_check in E'. rewrite Hrun in E'. by simplify_eq.
      * assert (inl i = inr k :> nat + nat)
          by (eapply sess_unique; eauto; simpl; eauto). done.
      * assert (inl i = inr k :> nat + nat)
          by (eapply sess_unique; eauto; simpl; eauto). done.
    + destruct (Stop_step pc (world cf)) as [[pc' w'']|] eqn:E'; [| done].
      simpl in E. simplify_eq. by apply Stop_step_eff in E' as (Hm & _).
    + destruct (SendCommand_step pc c (world cf)) as [[pc' w'']|] eqn:E'; [| done].
      simpl in E. simplify_eq. by apply SendCommand_step_eff in E' as (Hm & _).
  - destruct (workers (world cf) !! i) as [[c1|c1|c1]|] eqn:Hi; try done.
    assert (inr i = inr k :> nat + nat) as [= ->] by (eapply sess_unique; eauto; done).
    assert (c1 = ctx) as -> by congruence.
    destruct (processCommands_step ctx c (world cf)) as [[st w']|] eqn:E; [| done].
    intros [= <-]. simpl.
    apply processCommands_step_eff in E.
    destruct E as (r & w1 & Hl & Hcase).
    pose proof (loopBody_eff _ _ _ _ _ _ _ Hl) as (Hm & _ & Hw & _).
    destruct Hcase as [(-> & -> & ->)|(_ & r2 & Hcl & Hst)]; [done |].
    pose proof (cleanup_eff remote NewRequestWithContext ctx w1) as H.
    rewrite Hcl in H. destruct H as (_ & _ & Hw' & _).
    rewrite list_lookup_insert_eq by (rewrite Hw', Hw; by eapply lookup_lt_Some).
    by destruct r2; subst st.
  - case_decide; [| done]. by intros [= <-].
Qed.


Lemma lts_step_unstored_inv a cf cf' :
  session_inv cf -> unstored_inv cf -> lts_step a cf = Some cf' -> unstored_inv cf'.
Proof.
  unfold unstored_inv. intros Hsess [Hlt Hno].
  unfold lts_step. destruct (crashed cf); [done |].
  destruct a as [call|i c|i c|ctx].
  - intros [= <-]. simpl. split; [done |].
    intros j ctx o u p [[_ Hl]|[_ He]]%lookup_snoc_Some; [by eapply Hno |].
    by destruct call.
  - destruct (threads cf !! i) as [t|] eqn:Hi; [| done].
    destruct (thread_step t c (world cf)) as [[t' w']|] eqn:E; [| done].
    intros [= <-]. simpl.
    assert (Hframe : mgr w' = mgr (world cf) ->
                     length (ctxs w') = length (ctxs (world cf)) ->
                     (forall ctx o u p, t' <> TStart (StartFetch ctx o u p)) ->
                     (forall c0, cancel (mgr w') = Some c0 -> c0 < length (ctxs w')) /\
                     (forall j ctx o u p,
                        <[i := t']> (threads cf) !! j = Some (TStart (StartFetch ctx o u p)) ->
                        cancel (mgr w') <> Some ctx)).
    { intros -> -> Hnot. split; [done |].
      intros j ctx o u p [(_ & He & _)|(_ & Hl)]%list_lookup_insert_Some;
        [by destruct (Hnot ctx o u p) | by eapply Hno]. }
    destruct t as [pc|pc|pc]; simpl in E.
    + destruct (Start_step pc (world cf)) as [[pc' w'']|] eqn:E'; [| done].
      simpl in E. simplify_eq.
      destruct pc as [o u pw|ctx o u pw|ctx o u pw|e|msg]; simpl in E'; [| | | done..].
      * unfold Start_check in E'. destruct (running (mgr (world cf))) eqn:Hrun; simplify_eq.
        { by apply Hframe. }
        simpl. rewrite length_app. simpl. split.
        { intros c0 Hc0. specialize (Hlt c0 Hc0). lia. }
        intros j ctx o' u' p'
          [(_ & [= <- _ _ _] & _)|(_ & Hl)]%list_lookup_insert_Some; [| by eapply Hno].
        intros Hc0. specialize (Hlt _ Hc0). lia.
      * pose proof (Start_token_eff remote NewRequestWithContext ctx u pw (world cf)) as H.
        destruct (Start_token ctx u pw (world cf)) as [r w1].
        destruct H as ((_ & _ & Hx & _) & (_ & _ & Hc & _) & _).
        assert (Hold : holds (threads cf) (workers (world cf)) (inl i) ctx)
          by (simpl; eauto).
        destruct (sess_held _ _ _ _ _ Hsess _ _ Hold) as (_ & Hb & _).
        assert (w' = w1) as -> by (destruct r as [[e|]|msg]; by simplify_eq).
        rewrite Hc, Hx. split; [by intros c0 [= <-] |].
        intros j ctx' o' u' p' [(_ & He & _)|(Hne & Hl)]%list_lookup_insert_Some.
        { destruct r as [[e|]|msg]; simplify_eq. }
        assert (inl j = inl i :> nat + nat) as [= ->]; [| done].
        eapply sess_unique; [exact Hsess | | exact Hold]. simpl. eauto.
      * pose proof (Start_initiate_eff remote NewRequestWithContext xmlUnmarshal
                      ctx o u pw (world cf)) as H.
        destruct (Start_initiate ctx o u pw (world cf)) as [r w1].
        destruct H as (_ & _ & Hx & _ & Hc & _).
        assert (w' = w1 /\ forall c0 o' u' p', pc' <> StartFetch c0 o' u' p') as [-> Hpc]
          by (destruct r as [e|msg]; by simplify_eq).
        rewrite Hc, Hx. split; [done |].
        intros j ctx' o' u' p' [(_ & [= He] & _)|(_ & Hl)]%list_lookup_insert_Some;
          [by destruct (Hpc ctx' o' u' p') | by eapply Hno].
    + destruct (Stop_step pc (world cf)) as [[pc' w'']|] eqn:E'; [| done].
      simpl in E. simplify_eq.
      apply Stop_step_eff in E' as (Hm & Hx & _). by apply Hframe.
    + destruct (SendCommand_step pc c (world cf)) as [[pc' w'']|] eqn:E'; [| done].
      simpl in E. simplify_eq.
      apply SendCommand_step_eff in E' as (Hm & Hx & _).
      apply Hframe; [done | by rewrite Hx | done].
  - destruct (workers (world cf) !! i) as [[ctx|ctx|ctx]|] eqn:Hi; try done.
    destruct (processCommands_step ctx c (world cf)) as [[st w']|] eqn:E; [| done].
    intros [= <-]. simpl.
    apply processCommands_step_eff in E.
    destruct E as (r & w1 & Hl & Hcase).
    apply loopBody_eff in Hl as (Hm & Hx & _).
    assert (Hc : cancel (mgr w') = cancel (mgr (world cf)) /\
                 ctxs w' = ctxs (world cf)).
    { destruct Hcase as [(-> & -> & ->)|(_ & r2 & Hcl & Hst)]; [by rewrite Hm |].
      pose proof (cleanup_eff remote NewRequestWithContext ctx w1) as H.
      rewrite Hcl in H. destruct H as (_ & Hx' & _ & _ & Hc' & _).
      by rewrite Hc', Hx', Hm. }
    destruct Hc as [-> ->]. done.
  - case_decide; [| done]. intros [= <-]. simpl. by rewrite length_insert.
Qed.

Lemma reachable_unstored acts cf : exec acts init = Some cf -> unstored_inv cf.
Proof.
  revert cf. induction acts as [|a acts IH] using rev_ind; intros cf.
  - intros [= <-]. split; [done |]. intros j ctx o u p. simpl. by rewrite lookup_nil.
  - rewrite exec_app.
    destruct (exec acts init) as [cf0|] eqn:E0; [| done]. simpl.
    destruct (lts_step a cf0) as [cf1|] eqn:E1; [| done]. intros [= <-].
    pose proof (reachable_all _ _ E0) as (_ & Hsess & _).
    eapply lts_step_unstored_inv; [exact Hsess | by apply IH | exact E1].
Qed.

(** X21. [Start] stores the cancel function of the new session after it
    has released the lock. A [Stop] call that passes its running check and
    then cancels while a [Start] call is between the two, returns nil and
    leaves the context of the session being started as it is: what it
    cancels, if anything, is a context made earlier. The [Start] call
    carries on with the manager and its own state unchanged. *)
Theorem Stop_before_cancel_stored (acts : list Action) (cf : Config)
    (i j ctx : nat) (o u p : string) (c : Case) (cf' : Config) :
  exec acts init = Some cf ->
  threads cf !! j = Some (TStart (StartFetch ctx o u p)) ->
  threads cf !! i = Some (TStop StopCancel) ->
  lts_step (RunThread i c) cf = Some cf' ->
  threads cf' !! i = Some (TStop (StopReturn None)) /\
  ctxs (world cf') !! ctx = ctxs (world cf) !! ctx /\
  cancel (mgr (world cf)) <> Some ctx /\
  mgr (world cf') = mgr (world cf) /\
  IsRunning (world cf') = true /\
  threads cf' !! j = Some (TStart (StartFetch ctx o u p)).
Proof.
  intros Hex Hj Hi.
  pose proof (reachable_all _ _ Hex) as (_ & Hsess & _).
  pose proof (reachable_unstored _ _ Hex) as [_ Hno].
  assert (Hold : holds (threads cf) (workers (world cf)) (inl j) ctx)
    by (simpl; eauto).
  destruct (sess_held _ _ _ _ _ Hsess _ _ Hold) as (Hrun & _).
  assert (Hij : i <> j) by (intros ->; congruence).
  specialize (Hno _ _ _ _ _ Hj).
  unfold lts_step. destruct (crashed cf); [done |]. rewrite Hi. simpl.
  destruct (cancel (mgr (world cf))) as [c0|] eqn:Hc; intros [= <-]; simpl.
  - split; [apply list_lookup_insert_eq; by eapply lookup_lt_Some |].
    split; [apply list_lookup_insert_ne; congruence |].
    split; [done |]. split; [done |]. split; [done |].
    by rewrite list_lookup_insert_ne.
  - split; [apply list_lookup_insert_eq; by eapply lookup_lt_Some |].
    split; [done |]. split; [done |]. split; [done |]. split; [done |].
    by rewrite list_lookup_insert_ne.
Qed.

(** X13. In every run, when the worker handles a queued command and
    [handleCommand] returns, the response is put into the command's reply
    channel: that channel exists, nothing was put into it before, and the
    default case of the non-blocking send is not the one taken. *)
Theorem response_always_delivered (acts : list Action) (cf : Config)
    (k ctx rch : nat) (ch : Chan) (cmd : AMDPCommand) (rest : list AMDPCommand)
    (resp : AMDPResponse) (w2 : World) :
  exec acts init = Some cf ->
  crashed cf = false ->
  workers (world cf) !! k = Some (WRunning ctx) ->
  cmdChannel (mgr (world cf)) = Some rch ->
  chans (world cf) !! rch = Some ch ->
  buf ch = cmd :: rest ->
  handleCommand ctx cmd
    (set_chans (<[rch := mkChan rest (closed ch)]> (chans (world cf))) (world cf))
    = (Ret resp, w2) ->
  exists cf' sl,
    lts_step (RunWorker k CaseRecv) cf = Some cf' /\
    slots (world cf) !! Response cmd = Some sl /\
    sent sl = [] /\
    slots (world cf') !! Response cmd = Some (mkSlot [resp] (taken sl)).
Proof.
  intros Hex Hcr Hk Hch Hl Hb Hh.
  pose proof (reachable_all _ _ Hex) as (_ & _ & Hslots & _).
  destruct (worker_handles _ _ _ _ _ _ _ _ _ _ Hslots Hch Hl Hb Hh)
    as (sl & Hsl & Hsent & Hs2 & _ & _ & Hloop).
  set (w3 := set_slots (<[Response cmd := mkSlot [resp] (taken sl)]>
                          (slots (world cf))) w2) in Hloop.
  assert (Hs3 : slots w3 !! Response cmd = Some (mkSlot [resp] (taken sl))).
  { simpl. apply list_lookup_insert_eq. by eapply lookup_lt_Some. }
  unfold lts_step, processCommands_step. rewrite Hcr, Hk, Hloop.
  destruct (Z.eqb (Type_ cmd) AMDPCmdStop).
  - pose proof (cleanup_eff remote NewRequestWithContext ctx w3) as H.
    destruct (cleanup ctx w3) as [[[]|msg] w4]; destruct H as (Hs4 & _);
      eexists _, sl; (split; [reflexivity |]); simpl; rewrite Hs4; done.
  - eexists _, sl. split; [reflexivity |]. done.
Qed.

(** X14. A command that fails does not end the session: after any command
    other than Stop that [handleCommand] answers, with success or with an
    error, the worker is still in its loop and the manager is as before.
    After a Stop command the worker has left its loop, whether the remote
    stop succeeded or not. *)
Theorem only_stop_ends_the_loop (acts : list Action) (cf : Config)
    (k ctx rch : nat) (ch : Chan) (cmd : AMDPCommand) (rest : list AMDPCommand)
    (resp : AMDPResponse) (w2 : World) :
  exec acts init = Some cf ->
  crashed cf = false ->
  workers (world cf) !! k = Some (WRunning ctx) ->
  cmdChannel (mgr (world cf)) = Some rch ->
  chans (world cf) !! rch = Some ch ->
  buf ch = cmd :: rest ->
  handleCommand ctx cmd
    (set_chans (<[rch := mkChan rest (closed ch)]> (chans (world cf))) (world cf))
    = (Ret resp, w2) ->
  exists cf' st,
    lts_step (RunWorker k CaseRecv) cf = Some cf' /\
    workers (world cf') !! k = Some st /\
    ((Type_ cmd = AMDPCmdStop /\ hasLeft st = true) \/
     (Type_ cmd <> AMDPCmdStop /\ st = WRunning ctx /\
      mgr (world cf') = mgr (world cf))).
Proof.
  intros Hex Hcr Hk Hch Hl Hb Hh.
  pose proof (reachable_all _ _ Hex) as (_ & _ & Hslots & _).
  destruct (worker_handles _ _ _ _ _ _ _ _ _ _ Hslots Hch Hl Hb Hh)
    as (sl & _ & _ & _ & Hm2 & Hw2 & Hloop).
  set (w3 := set_slots (<[Response cmd := mkSlot [resp] (taken sl)]>
                          (slots (world cf))) w2) in Hloop.
  assert (Hlt : k < length (workers (world cf))) by (by eapply lookup_lt_Some).
  unfold lts_step, processCommands_step. rewrite Hcr, Hk, Hloop.
  destruct (Z.eqb_spec (Type_ cmd) AMDPCmdStop) as [Heq|Hne].
  - pose proof (cleanup_eff remote NewRequestWithContext ctx w3) as H.
    destruct (cleanup ctx w3) as [[[]|msg] w4]; destruct H as (_ & _ & Hw4 & _);
      eexists _, _; (split; [reflexivity |]); simpl;
      (split; [apply list_lookup_insert_eq; rewrite Hw4; simpl; by rewrite Hw2 |]);
      left; done.
  - eexists _, _. split; [reflexivity |]. simpl.
    split; [apply list_lookup_insert_eq; by rewrite Hw2 |]. right. done.
Qed.

(** X15. When the worker leaves its loop on a session that has a MainID,
    and the hard-stop request can be built, [cleanup] calls [httpClient.Do]
    with the hard-stop request exactly once, as the last call of the
    session, for that MainID and with the stored token. The request is built
    on the session context, and the step changes no context: when the worker
    leaves because that context is done, after [Stop] or a cancellation by
    the caller, the hard stop is handed to the client on a context that is
    done already. This also holds after a Stop command whose remote stop
    succeeded. *)
Theorem hard_stop_on_exit (acts : list Action) (cf : Config)
    (k ctx : nat) (c : Case) (cf' : Config) (st : WorkerState) :
  exec acts init = Some cf ->
  workers (world cf) !! k = Some (WRunning ctx) ->
  lts_step (RunWorker k c) cf = Some cf' ->
  workers (world cf') !! k = Some st ->
  hasLeft st = true ->
  MainID (State (world cf)) <> "" ->
  NewRequestWithContext
    (CallHardStop (MainID (State (world cf))) (csrfToken (mgr (world cf)))) = None ->
  hardStops ctx (world cf') = 1 /\
  (exists l,
     length l <= 1 /\
     trace (world cf') = trace (world cf) ++ l ++
       [ EvCleanup ctx;
         EvCall ctx (CallHardStop (MainID (State (world cf)))
                       (csrfToken (mgr (world cf)))) ]) /\
  ctxs (world cf') = ctxs (world cf) /\
  (c = CaseDone -> ctxs (world cf) !! ctx = Some true).
Proof.
  intros Hex Hk Hstep Hst Hleft Hm Hreq.
  pose proof (reachable_all _ _ Hex) as Hinv.
  destruct (worker_leaves _ _ _ cf k ctx c cf' Hinv Hk Hstep)
    as (r & w1 & r2 & w2 & Hl & Hr & Hch & Hm1 & Hcl & -> & H0 & H1 & H2 & H3).
  { rewrite Hst. intros [= ->]. done. }
  pose proof Hl as Hl0.
  apply loopBody_eff in Hl as (_ & Hc1 & _ & (l & Ht & _ & Hlen) & _).
  pose proof (cleanup_fine ctx w1) as H. rewrite Hcl in H. destruct H as [Ht2 _].
  pose proof (cleanup_eff remote NewRequestWithContext ctx w1) as H.
  rewrite Hcl in H. destruct H as (_ & Hc2 & _).
  unfold State in *. rewrite Hm1 in Ht2.
  apply String.eqb_neq in Hm. rewrite Hm, Hreq in Ht2.
  assert (Htr : trace w2 = trace (world cf) ++ l ++
            [ EvCleanup ctx;
              EvCall ctx (CallHardStop (MainID (state (mgr (world cf))))
                            (csrfToken (mgr (world cf)))) ]).
  { by rewrite Ht2, Ht, <- app_assoc. }
  split; [| split; [exists l; split; [done | exact Htr] |]].
  - unfold hardStops in H2 |- *. simpl in H2 |- *. rewrite Htr in H2 |- *.
    rewrite !count_app in H2 |- *. simpl in H2 |- *.
    rewrite Nat.eqb_refl in H2 |- *. simpl in H2 |- *. lia.
  - simpl. split; [by rewrite Hc2, Hc1 |].
    intros ->. simpl in Hl0.
    by destruct (ctxs (world cf) !! ctx) as [[]|].
Qed.

(** X16. A [Stop] call that has passed its running check cancels the
    context of the worker that is running: after its step the worker can
    take the cancellation case, which ends its loop and runs [cleanup] once;
    if the worker then returns, the manager is not running. *)
Theorem Stop_cancels_worker (acts : list Action) (cf : Config)
    (i k ctx : nat) (c : Case) (cf' : Config) :
  exec acts init = Some cf ->
  threads cf !! i = Some (TStop StopCancel) ->
  workers (world cf) !! k = Some (WRunning ctx) ->
  lts_step (RunThread i c) cf = Some cf' ->
  threads cf' !! i = Some (TStop (StopReturn None)) /\
  ctxs (world cf') !! ctx = Some true /\
  mgr (world cf') = mgr (world cf) /\
  exists cf'' st,
    lts_step (RunWorker k CaseDone) cf' = Some cf'' /\
    workers (world cf'') !! k = Some st /\
    hasLeft st = true /\
    cleanups ctx (world cf'') = 1 /\
    (st = WExited ctx -> IsRunning (world cf'') = false).
Proof.
  intros Hex Hi Hk Hstep.
  pose proof (reachable_all _ _ Hex) as (_ & Hsess & _).
  pose proof (reachable_cancel _ _ Hex) as [_ Hcan].
  assert (Hh : holds (threads cf) (workers (world cf)) (inr k) ctx) by done.
  destruct (sess_held _ _ _ _ _ Hsess _ _ Hh) as (_ & Hlt & _).
  pose proof (Hcan _ _ Hk) as Hc.
  pose proof (exec_snoc _ _ _ _ Hex Hstep) as Hex'.
  pose proof (reachable_all _ _ Hex') as Hinv'.
  revert Hstep Hex' Hinv'. unfold lts_step at 1.
  destruct (crashed cf) eqn:Hcr; [done |]. rewrite Hi. simpl. rewrite Hc. simpl.
  intros [= <-] Hex' Hinv'. simpl.
  assert (Hctx : <[ctx := true]> (ctxs (world cf)) !! ctx = Some true)
    by (by apply list_lookup_insert_eq).
  split; [apply list_lookup_insert_eq; by eapply lookup_lt_Some |].
  split; [done |]. split; [done |].
  set (cf1 := mkConfig (cancelCtx ctx (world cf))
                (<[i := TStop (StopReturn None)]> (threads cf)) false) in *.
  assert (Hstep2 : exists cf'' st,
             lts_step (RunWorker k CaseDone) cf1 = Some cf'' /\
             workers (world cf'') !! k = Some st /\ hasLeft st = true /\
             (st = WExited ctx -> IsRunning (world cf'') = false)).
  { unfold lts_step, processCommands_step. simpl. rewrite Hk. simpl. rewrite Hctx.
    pose proof (cleanup_eff remote NewRequestWithContext ctx (cancelCtx ctx (world cf)))
      as H.
    destruct (cleanup ctx (cancelCtx ctx (world cf))) as [[[]|msg] w4];
      destruct H as (_ & _ & Hw4 & _ & _ & _ & Hr);
      eexists _, _; (split; [reflexivity |]); simpl;
      (split; [apply list_lookup_insert_eq; rewrite Hw4; by eapply lookup_lt_Some |]);
      (split; [done |]).
    - intros _. unfold IsRunning. simpl. by destruct Hr.
    - done. }
  destruct Hstep2 as (cf'' & st & Hs2 & Hst & Hleft & Hrun).
  exists cf'', st. repeat split; try done.
  destruct (worker_leaves _ _ _ cf1 k ctx CaseDone cf'' Hinv' Hk Hs2)
    as (_ & _ & _ & _ & _ & _ & _ & _ & _ & _ & _ & H1 & _).
  { rewrite Hst. intros [= ->]. done. }
  exact H1.
Qed.

(** X17. A [SendCommand] call that has read the command channel before the
    worker's [cleanup] and sends after it does not return the not-running
    error: the channel is closed by then and the send panics. *)
Theorem SendCommand_after_cleanup_panics (acts : list Action) (cf : Config)
    (k ctx : nat) (c : Case) (cf' : Config) (i r : nat)
    (cmdType : AMDPCommandType) (args : gmap string Value) :
  exec acts init = Some cf ->
  workers (world cf) !! k = Some (WRunning ctx) ->
  threads cf !! i = Some (TSend (SendEnqueue (Some r) cmdType args)) ->
  cmdChannel (mgr (world cf)) = Some r ->
  lts_step (RunWorker k c) cf = Some cf' ->
  workers (world cf') !! k = Some (WExited ctx) ->
  exists cf'',
    lts_step (RunThread i CaseSend) cf' = Some cf'' /\
    threads cf'' !! i = Some (TSend (SendPanic "send on closed channel")) /\
    chans (world cf'') = chans (world cf').
Proof.
  intros Hex Hk Hi Hch Hstep Hst.
  pose proof (reachable_all _ _ Hex) as Hinv.
  destruct (worker_leaves _ _ _ cf k ctx c cf' Hinv Hk Hstep)
    as (r0 & w1 & r2 & w2 & Hl & Hr & Hok & Hm1 & Hcl & -> & _).
  { by rewrite Hst. }
  simpl in Hst. rewrite list_lookup_insert_eq in Hst by (by eapply lookup_lt_Some).
  destruct r2 as [[]|msg]; [| done].
  pose proof (cleanup_fine ctx w1) as H. rewrite Hcl in H. destruct H as [_ H].
  rewrite Hm1, Hch in H.
  destruct (Hok r) as (ch & Hlk & Hclosed); [by rewrite Hm1 |].
  rewrite Hlk in H. destruct H as [_ Hchans].
  unfold lts_step. simpl. rewrite Hi. simpl. rewrite Hchans.
  rewrite list_lookup_insert_eq by (by eapply lookup_lt_Some). simpl.
  eexists. split; [reflexivity |]. simpl.
  split; [apply list_lookup_insert_eq; by eapply lookup_lt_Some | done].
Qed.


Lemma chans_step_fifo C C' r ch :
  chans_step C C' -> C !! r = Some ch ->
  exists ch', C' !! r = Some ch' /\
    (buf ch' = buf ch \/ (exists cmd, buf ch' = buf ch ++ [cmd]) \/
     (exists cmd, buf ch = cmd :: buf ch')).
Proof.
  intros [->|[->|[(r0 & ch0 & cmd & Hl & _ & _ & ->)|
                  [(r0 & ch0 & cmd & rest & Hl & _ & Hb & ->)|
                   (r0 & ch0 & Hl & _ & ->)]]]] Hr.
  - eauto.
  - exists ch. split; [by apply lookup_app_l_Some | by left].
  - destruct (decide (r0 = r)) as [->|Hne].
    + simplify_eq. eexists. split; [apply list_lookup_insert_eq; by eapply lookup_lt_Some |].
      simpl. eauto.
    + exists ch. rewrite list_lookup_insert_ne by done. eauto.
  - destruct (decide (r0 = r)) as [->|Hne].
    + simplify_eq. eexists. split; [apply list_lookup_insert_eq; by eapply lookup_lt_Some |].
      simpl. eauto.
    + exists ch. rewrite list_lookup_insert_ne by done. eauto.
  - destruct (decide (r0 = r)) as [->|Hne].
    + simplify_eq. eexists. split; [apply list_lookup_insert_eq; by eapply lookup_lt_Some |].
      simpl. eauto.
    + exists ch. rewrite list_lookup_insert_ne by done. eauto.
Qed.

Lemma chans_close_buf C C' r ch :
  chans_close C C' -> C !! r = Some ch ->
  exists ch', C' !! r = Some ch' /\ buf ch' = buf ch.
Proof.
  intros [->|(r0 & ch0 & Hl & _ & ->)] Hr; [eauto |].
  destruct (decide (r0 = r)) as [->|Hne].
  - simplify_eq. eexists. split; [apply list_lookup_insert_eq; by eapply lookup_lt_Some |].
    done.
  - exists ch. by rewrite list_lookup_insert_ne.
Qed.

(** What a step of a call does to the channels and to the reply channels:
    it makes a channel, or puts one command into an open one; it makes a
    reply channel or receives from one, and puts no response into any. *)
Lemma thread_step_store t c w t' w' :
  thread_step t c w = Some (t', w') ->
  (chans w' = chans w \/ chans w' = chans w ++ [mkChan [] false] \/
   exists r ch cmd,
     chans w !! r = Some ch /\ closed ch = false /\
     chans w' = <[r := mkChan (buf ch ++ [cmd]) false]> (chans w)) /\
  (forall s sl, slots w !! s = Some sl ->
     exists sl', slots w' !! s = Some sl' /\ sent sl' = sent sl).
Proof.
  assert (Hsame : forall w0 : World, slots w0 = slots w ->
            forall s sl, slots w !! s = Some sl ->
              exists sl', slots w0 !! s = Some sl' /\ sent sl' = sent sl).
  { intros w0 -> s sl Hs. eauto. }
  assert (Hgrow : forall w0 : World, slots w0 = slots w ++ [mkSlot [] 0] ->
            forall s sl, slots w !! s = Some sl ->
              exists sl', slots w0 !! s = Some sl' /\ sent sl' = sent sl).
  { intros w0 -> s sl Hs. exists sl. split; [by apply lookup_app_l_Some | done]. }
  destruct t as [pc|pc|pc]; simpl.
  - destruct (Start_step pc w) as [[pc' w'']|] eqn:E'; [| done].
    simpl. intros [= <- <-].
    destruct pc as [o u p|ctx o u p|ctx o u p|e|msg]; simpl in E'; [| | | done..].
    + unfold Start_check in E'. destruct (running (mgr w)); simplify_eq.
      * split; [by left | by apply Hsame].
      * split; [right; by left | by apply Hsame].
    + pose proof (Start_token_eff remote NewRequestWithContext ctx u p w) as H.
      destruct (Start_token ctx u p w) as [r w1].
      destruct H as ((Hc & Hs & _) & _).
      assert (w'' = w1) as -> by (destruct r as [[e|]|msg]; by simplify_eq).
      split; [by left | by apply Hsame].
    + pose proof (Start_initiate_eff remote NewRequestWithContext xmlUnmarshal
                    ctx o u p w) as H.
      destruct (Start_initiate ctx o u p w) as [r w1].
      destruct H as (Hc & Hs & _).
      assert (w'' = w1) as -> by (destruct r as [e|msg]; by simplify_eq).
      split; [by left | by apply Hsame].
  - destruct (Stop_step pc w) as [[pc' w'']|] eqn:E'; [| done].
    simpl. intros [= <- <-].
    apply Stop_step_eff in E' as (_ & _ & _ & _ & Hc & Hs).
    split; [by left | by apply Hsame].
  - destruct (SendCommand_step pc c w) as [[pc' w'']|] eqn:E'; [| done].
    simpl. intros [= <- <-].
    destruct pc as [ty a|ch ty a|s0|resp e|msg]; simpl in E'; [| | | done..].
    + destruct (negb _); simplify_eq; (split; [by left | by apply Hsame]).
    + destruct c; try done.
      * destruct ch as [r|]; [| done].
        destruct (chans w !! r) as [chn|] eqn:Hr; [| done].
        destruct (closed chn) eqn:Hcl.
        { simplify_eq. split; [by left | by apply Hgrow]. }
        destruct (length (buf chn) <? cmdCap); [| done].
        simplify_eq. split; [| by apply Hgrow].
        right. right. simpl. eexists r, chn, _. eauto.
      * simplify_eq. split; [by left | by apply Hgrow].
    + destruct c; try done.
      * destruct (slots w !! s0) as [sl0|] eqn:Hs0; [| done].
        destruct (sent sl0 !! taken sl0); [| done].
        simplify_eq. split; [by left |]. simpl. intros s sl Hs.
        destruct (decide (s = s0)) as [->|Hne].
        { simplify_eq. eexists.
          split; [apply list_lookup_insert_eq; by eapply lookup_lt_Some | reflexivity]. }
        exists sl. by rewrite list_lookup_insert_ne.
      * simplify_eq. split; [by left | by apply Hsame].
Qed.

(** A step of the worker puts at most one response into a reply channel, at
    the end of what was put there before. *)
Lemma worker_step_slots ctx c w st w' :
  processCommands_step ctx c w = Some (st, w') ->
  forall s sl, slots w !! s = Some sl ->
    exists sl', slots w' !! s = Some sl' /\
      (sent sl' = sent sl \/ exists resp, sent sl' = sent sl ++ [resp]).
Proof.
  intros E s sl Hs.
  apply processCommands_step_eff in E as (r & w1 & Hl & Hcase).
  assert (H1 : exists sl', slots w1 !! s = Some sl' /\
                 (sent sl' = sent sl \/ exists resp, sent sl' = sent sl ++ [resp])).
  { apply loopBody_eff in Hl
      as (_ & _ & _ & _ & [[_ Hsl]|(rch & ch & cmd & rest & _ & _ & _ & _ & Hsl)]).
    - rewrite Hsl. eauto.
    - destruct Hsl as [Hsl|(sl0 & resp & Hs0 & Hsl)]; rewrite Hsl; [by eauto |].
      destruct (decide (s = Response cmd)) as [->|Hne].
      + simplify_eq. eexists. split.
        * apply list_lookup_insert_eq. by eapply lookup_lt_Some.
        * simpl. eauto.
      + exists sl. rewrite list_lookup_insert_ne by done. eauto. }
  destruct Hcase as [(_ & _ & ->)|(_ & r2 & Hcl & _)]; [done |].
  pose proof (cleanup_eff remote NewRequestWithContext ctx w1) as H.
  rewrite Hcl in H. destruct H as (Hs2 & _). by rewrite Hs2.
Qed.

(** A response, once in its reply channel, stays there. *)
Lemma lts_step_answered a cf cf' s :
  lts_step a cf = Some cf' -> answered (world cf) s -> answered (world cf') s.
Proof.
  unfold lts_step. destruct (crashed cf); [done |].
  intros Hstep (sl & Hs & Hne).
  destruct a as [call|i c|i c|ctx].
  - injection Hstep as <-. by exists sl.
  - destruct (threads cf !! i) as [t|]; [| done].
    destruct (thread_step t c (world cf)) as [[t' w']|] eqn:E; [| done].
    injection Hstep as <-. simpl.
    apply thread_step_store in E as [_ E].
    destruct (E s sl Hs) as (sl' & Hs' & Heq). exists sl'. by rewrite Heq.
  - destruct (workers (world cf) !! i) as [[ctx|ctx|ctx]|]; try done.
    destruct (processCommands_step ctx c (world cf)) as [[st w']|] eqn:E; [| done].
    injection Hstep as <-. simpl.
    destruct (worker_step_slots _ _ _ _ _ E s sl Hs) as (sl' & Hs' & [Heq|[resp Heq]]);
      exists sl'; rewrite Heq; (split; [done |]); [done |].
    by destruct (sent sl).
  - case_decide; [| done]. injection Hstep as <-. by exists sl.
Qed.

(** An iteration of the worker that takes no command at most closes one
    channel. One that takes the command at the head of the queue has the
    command answered; or it ends the loop with a panic, and the rest of the
    queue is left in the closed channel, or in a process that has ended. *)
Lemma worker_step_queue ctx c w st w' :
  chan_ok w -> slots_inv w ->
  processCommands_step ctx c w = Some (st, w') ->
  chans_close (chans w) (chans w') \/
  exists rch ch cmd rest,
    chans w !! rch = Some ch /\ buf ch = cmd :: rest /\ closed ch = false /\
    ((answered w' (Response cmd) /\
      chans_close (<[rch := mkChan rest false]> (chans w)) (chans w')) \/
     chans w' = <[rch := mkChan rest true]> (chans w) \/
     (st = WCrashed ctx /\ slots w' = slots w /\
      chans w' = <[rch := mkChan rest false]> (chans w))).
Proof.
  intros Hok Hslots E.
  assert (Hclose : forall r w1, chans w1 = chans w ->
            cleanup ctx w1 = (r, w') -> chans_close (chans w) (chans w')).
  { intros r w1 Hc Hcl. pose proof (cleanup_fine ctx w1) as H. rewrite Hcl in H.
    destruct H as [_ H]. rewrite <- Hc.
    destruct r as [[]|msg]; [| rewrite H; by left].
    destruct (cmdChannel (mgr w1)) as [r0|]; [| rewrite H; by left].
    destruct (chans w1 !! r0) as [ch|] eqn:Hlk; [| rewrite H; by left].
    destruct H as [Hcl0 ->]. right. eauto. }
  assert (Hother : forall r w1, loopBody ctx c w = Some (r, w1) ->
            chans w1 = chans w -> chans_close (chans w) (chans w')).
  { intros r w1 Hl Hc. revert E. unfold processCommands_step. rewrite Hl.
    destruct r as [[]|msg].
    - intros [= <- <-]. rewrite Hc. by left.
    - destruct (cleanup ctx w1) as [r2 w2] eqn:Hcl. intros E.
      assert (w2 = w') as -> by (destruct r2; by simplify_eq). eauto.
    - destruct (cleanup ctx w1) as [r2 w2] eqn:Hcl. intros E.
      assert (w2 = w') as -> by (destruct r2; by simplify_eq). eauto. }
  destruct c; try (revert E; unfold processCommands_step; simpl; done).
  - (* ctx.Done() *)
    left. destruct (loopBody ctx CaseDone w) as [[r w1]|] eqn:Hl.
    2: { revert E. unfold processCommands_step. by rewrite Hl. }
    eapply Hother; [done |]. simpl in Hl. by repeat case_match; simplify_eq.
  - (* keepalive tick *)
    left. destruct (loopBody ctx CaseTick w) as [[r w1]|] eqn:Hl.
    2: { revert E. unfold processCommands_step. by rewrite Hl. }
    eapply Hother; [done |].
    simpl in Hl. injection Hl as Hl. unfold bind, ret in Hl.
    destruct (sendKeepalive_calls_only remote NewRequestWithContext ctx w)
      as (l & Hw1 & _).
    destruct (sendKeepalive _ _ ctx w) as [[[]|m] w0]; simpl in Hw1; by simplify_eq.
  - (* a command, or the closed channel *)
    destruct (cmdChannel (mgr w)) as [rch|] eqn:Hch.
    2: { revert E. unfold processCommands_step. simpl. by rewrite Hch. }
    destruct (chans w !! rch) as [ch|] eqn:Hlk.
    2: { revert E. unfold processCommands_step. simpl. by rewrite Hch, Hlk. }
    destruct (Hok rch Hch) as (ch0 & Hlk0 & Hopen). simplify_eq.
    destruct (buf ch) as [|cmd rest] eqn:Hb.
    { revert E. unfold processCommands_step. simpl. by rewrite Hch, Hlk, Hb, Hopen. }
    right. exists rch, ch, cmd, rest. split; [done |]. split; [done |]. split; [done |].
    set (w1 := set_chans (<[rch := mkChan rest (closed ch)]> (chans w)) w).
    destruct (handleCommand_calls_only remote NewRequestWithContext ctx cmd w1)
      as (l & Hw2 & _).
    destruct (handleCommand ctx cmd w1) as [[resp|msg] w2] eqn:Hh; simpl in Hw2.
    + left.
      destruct (worker_handles _ _ _ _ _ _ _ _ _ _ Hslots Hch Hlk Hb Hh)
        as (sl & Hsl & Hsent & _ & _ & _ & Hloop).
      set (w3 := set_slots (<[Response cmd := mkSlot [resp] (taken sl)]> (slots w)) w2)
        in Hloop.
      assert (Hans : answered w3 (Response cmd)).
      { exists (mkSlot [resp] (taken sl)). split; [| done]. simpl.
        apply list_lookup_insert_eq. by eapply lookup_lt_Some. }
      assert (Hc3 : chans w3 = <[rch := mkChan rest false]> (chans w)).
      { simpl. rewrite Hw2. simpl. by rewrite Hopen. }
      revert E. unfold processCommands_step. rewrite Hloop.
      destruct (Z.eqb (Type_ cmd) AMDPCmdStop).
      * destruct (cleanup ctx w3) as [r2 w4] eqn:Hcl.
        intros E. assert (w4 = w') as -> by (destruct r2; by simplify_eq).
        pose proof (cleanup_eff remote NewRequestWithContext ctx w3) as H.
        rewrite Hcl in H. destruct H as (Hs4 & _).
        split.
        { destruct Hans as (sl' & ? & ?). exists sl'. by rewrite Hs4. }
        rewrite <- Hc3.
        pose proof (cleanup_fine ctx w3) as H. rewrite Hcl in H.
        destruct H as [_ H].
        destruct r2 as [[]|m]; [| rewrite H; by left].
        destruct (cmdChannel (mgr w3)) as [r0|]; [| rewrite H; by left].
        destruct (chans w3 !! r0) as [ch3|] eqn:Hlk3; [| rewrite H; by left].
        destruct H as [Hcl0 ->]. right. eauto.
      * intros [= <- <-]. split; [done |]. rewrite Hc3. by left.
    + right.
      assert (Hloop : loopBody ctx CaseRecv w = Some (Panic msg, w2)).
      { simpl. rewrite Hch, Hlk, Hb. unfold bind. fold w1. by rewrite Hh. }
      assert (Hc2 : chans w2 = <[rch := mkChan rest false]> (chans w)).
      { rewrite Hw2. simpl. by rewrite Hopen. }
      revert E. unfold processCommands_step. rewrite Hloop.
      destruct (cleanup ctx w2) as [r2 w4] eqn:Hcl.
      pose proof (cleanup_fine ctx w2) as H. rewrite Hcl in H. destruct H as [_ H].
      pose proof (cleanup_eff remote NewRequestWithContext ctx w2) as H'.
      rewrite Hcl in H'. destruct H' as (Hs4 & _).
      destruct r2 as [[]|m]; intros [= <- <-].
      * left.
        assert (cmdChannel (mgr w2) = Some rch) as Hm2 by (by rewrite Hw2).
        rewrite Hm2, Hc2 in H.
        rewrite list_lookup_insert_eq in H by (by eapply lookup_lt_Some).
        destruct H as [_ H]. rewrite H. simpl. by rewrite list_insert_insert_eq.
      * right. split; [done |]. split; [by rewrite Hs4, Hw2 |]. by rewrite H.
Qed.

Lemma ahead_snoc C r a b : ahead C r a b -> ahead (C ++ [mkChan [] false]) r a b.
Proof.
  intros (ch & pre & mid & post & Hr & Hb).
  exists ch, pre, mid, post. split; [by apply lookup_app_l_Some | done].
Qed.

Lemma ahead_enqueue C r a b r0 ch0 cmd :
  C !! r0 = Some ch0 ->
  ahead C r a b -> ahead (<[r0 := mkChan (buf ch0 ++ [cmd]) false]> C) r a b.
Proof.
  intros Hr0 (ch & pre & mid & post & Hr & Hb).
  destruct (decide (r0 = r)) as [->|Hne].
  - assert (ch0 = ch) as -> by congruence.
    exists (mkChan (buf ch ++ [cmd]) false), pre, mid, (post ++ [cmd]).
    split; [apply list_lookup_insert_eq; by eapply lookup_lt_Some |].
    simpl. rewrite Hb. rewrite <- app_assoc. simpl. by rewrite <- app_assoc.
  - exists ch, pre, mid, post. by rewrite list_lookup_insert_ne.
Qed.

Lemma ahead_close C C' r a b :
  chans_close C C' -> ahead C r a b -> ahead C' r a b \/ stuck C' r b.
Proof.
  intros [->|(r0 & ch0 & Hr0 & _ & ->)] (ch & pre & mid & post & Hr & Hb).
  { left. by exists ch, pre, mid, post. }
  destruct (decide (r0 = r)) as [->|Hne].
  - assert (ch0 = ch) as -> by congruence.
    right. exists (mkChan (buf ch) true).
    split; [apply list_lookup_insert_eq; by eapply lookup_lt_Some |].
    split; [done |]. simpl. rewrite Hb. apply elem_of_queued.
  - left. exists ch, pre, mid, post. by rewrite list_lookup_insert_ne.
Qed.

Lemma stuck_step C C' r b : chans_step C C' -> stuck C r b -> stuck C' r b.
Proof.
  intros Hstep (ch & Hr & Hcl & Hin). exists ch.
  split; [by eapply chans_step_closed | done].
Qed.

(** The order of two queued commands is kept by every step. *)
Lemma lts_step_fifo_inv r a b a0 cf cf' :
  reachable_inv cf -> fifo_inv r a b cf -> lts_step a0 cf = Some cf' ->
  fifo_inv r a b cf'.
Proof.
  intros (Hok & _ & Hslots & _) [Hah|[Hans|[Hst|[Hcr _]]]] Hstep.
  2: { right. left. by eapply lts_step_answered. }
  2: { right. right. left.
       destruct (lts_step_chans _ _ _ Hok Hstep) as (mid & H1 & H2).
       eapply stuck_step; [exact (chans_close_step _ _ H2) |].
       by eapply stuck_step. }
  2: { revert Hstep. unfold lts_step. by rewrite Hcr. }
  revert Hstep. unfold lts_step. destruct (crashed cf); [done |].
  destruct a0 as [call|i c|i c|ctx].
  - intros [= <-]. by left.
  - destruct (threads cf !! i) as [t|]; [| done].
    destruct (thread_step t c (world cf)) as [[t' w']|] eqn:E; [| done].
    intros [= <-]. left. simpl.
    apply thread_step_store in E as [[->|[->|(r0 & ch0 & cmd & Hr0 & _ & ->)]] _].
    + done.
    + by apply ahead_snoc.
    + by apply ahead_enqueue.
  - destruct (workers (world cf) !! i) as [[ctx|ctx|ctx]|]; try done.
    destruct (processCommands_step ctx c (world cf)) as [[st w']|] eqn:E; [| done].
    intros [= <-]. unfold fifo_inv, answered. simpl.
    destruct (worker_step_queue _ _ _ _ _ Hok Hslots E)
      as [Hcl|(rch & ch & cmd & rest & Hr & Hb & Hopen & Hcase)].
    { destruct (ahead_close _ _ _ _ _ Hcl Hah); [by left | right; right; by left]. }
    destruct Hah as (ch1 & pre & mid & post & Hr1 & Hb1).
    destruct (decide (rch = r)) as [->|Hne].
    + assert (ch1 = ch) as -> by congruence. rewrite Hb in Hb1.
      destruct pre as [|c0 pre]; simpl in Hb1; injection Hb1 as -> ->.
      * (* the first of the two is the command taken *)
        destruct Hcase as [[Hans _]|[Hc|(-> & Hs & Hc)]].
        { right. by left. }
        { right. right. left. rewrite Hc. eexists.
          split; [apply list_lookup_insert_eq; by eapply lookup_lt_Some |].
          split; [done |]. simpl. apply elem_of_behind. }
        { right. right. right. split; [done |]. simpl.
          intros (sl & Hsl & Hne). rewrite Hs in Hsl.
          destruct (queued_slot_empty (world cf) r ch b Hslots Hr) as (sl' & Hsl' & He).
          { rewrite Hb. apply (elem_of_queued []). }
          congruence. }
      * (* a command ahead of both is taken *)
        assert (Hah' : forall cl,
                  ahead (<[r := mkChan (pre ++ a :: mid ++ b :: post) cl]>
                           (chans (world cf))) r a b).
        { intros cl. eexists _, pre, mid, post.
          split; [apply list_lookup_insert_eq; by eapply lookup_lt_Some | done]. }
        destruct Hcase as [[_ Hcl]|[Hc|(_ & _ & Hc)]].
        { destruct (ahead_close _ _ _ _ _ Hcl (Hah' false));
            [by left | right; right; by left]. }
        { right. right. left. rewrite Hc. eexists.
          split; [apply list_lookup_insert_eq; by eapply lookup_lt_Some |].
          split; [done |]. simpl. apply elem_of_queued. }
        { left. rewrite Hc. apply Hah'. }
    + assert (Hah' : forall cl,
                ahead (<[rch := mkChan rest cl]> (chans (world cf))) r a b).
      { intros cl. exists ch1, pre, mid, post. by rewrite list_lookup_insert_ne. }
      destruct Hcase as [[_ Hcl]|[Hc|(_ & _ & Hc)]].
      { destruct (ahead_close _ _ _ _ _ Hcl (Hah' false));
          [by left | right; right; by left]. }
      { left. rewrite Hc. apply Hah'. }
      { left. rewrite Hc. apply Hah'. }
  - case_decide; [| done]. intros [= <-]. by left.
Qed.

Lemma exec_fifo_inv r a b acts cf cf' :
  reachable_inv cf -> fifo_inv r a b cf -> exec acts cf = Some cf' ->
  reachable_inv cf' /\ fifo_inv r a b cf'.
Proof.
  intros Hinv Hf.
  apply (exec_invariant remote NewRequestWithContext xmlUnmarshal
           (fun cf => reachable_inv cf /\ fifo_inv r a b cf)); [| done].
  clear. intros a0 cf cf' [Hinv Hf] Hstep. split.
  - apply (exec_inv remote NewRequestWithContext xmlUnmarshal [a0] cf); [done |].
    simpl. by rewrite Hstep.
  - by eapply lts_step_fifo_inv.
Qed.

(** X18. The command channel is first in, first out across all goroutines.
    A step of the system leaves a channel's queue as it is, adds one command
    at its end, or removes the command at its head; no step reorders,
    replaces or drops a queued command. And commands are answered in the
    order in which they are queued: of two commands in a queue, whenever
    the one behind has its response, the one ahead has had its own. *)
Theorem command_queue_fifo (acts : list Action) (cf : Config) (r : nat) (ch : Chan) :
  exec acts init = Some cf ->
  chans (world cf) !! r = Some ch ->
  (forall a cf',
     lts_step a cf = Some cf' ->
     exists ch',
       chans (world cf') !! r = Some ch' /\
       (buf ch' = buf ch \/ (exists cmd, buf ch' = buf ch ++ [cmd]) \/
        (exists cmd, buf ch = cmd :: buf ch'))) /\
  (forall pre a mid b post acts' cf',
     buf ch = pre ++ a :: mid ++ b :: post ->
     exec acts' cf = Some cf' ->
     answered (world cf') (Response b) ->
     answered (world cf') (Response a)).
Proof.
  intros Hex Hr. split.
  - intros a cf' Hstep.
    pose proof (reachable_all _ _ Hex) as (Hok & _).
    destruct (lts_step_chans _ _ _ Hok Hstep) as (mid & H1 & H2).
    destruct (chans_step_fifo _ _ _ _ H1 Hr) as (ch1 & Hr1 & Hb1).
    destruct (chans_close_buf _ _ _ _ H2 Hr1) as (ch2 & Hr2 & Hb2).
    exists ch2. split; [done |]. by rewrite Hb2.
  - intros pre a mid b post acts' cf' Hb Hex' Hans.
    assert (Hinv : reachable_inv cf' /\ fifo_inv r a b cf').
    { eapply exec_fifo_inv; [by eapply reachable_all | | exact Hex'].
      left. by exists ch, pre, mid, post. }
    destruct Hinv as [(_ & _ & Hslots & _) [Hah|[Ha|[Hst|[_ Hno]]]]];
      [| done | | done].
    + destruct Hah as (ch1 & pre1 & mid1 & post1 & Hr1 & Hb1).
      destruct (queued_slot_empty (world cf') r ch1 b Hslots Hr1) as (sl & Hsl & He).
      { rewrite Hb1. apply elem_of_queued. }
      destruct Hans as (sl' & Hsl' & Hne). congruence.
    + destruct Hst as (ch1 & Hr1 & _ & Hin).
      destruct (queued_slot_empty (world cf') r ch1 b Hslots Hr1 Hin) as (sl & Hsl & He).
      destruct Hans as (sl' & Hsl' & Hne). congruence.
Qed.

Lemma priv_idle T ths i t' :
  awaits t' = None -> priv T ths -> priv T (<[i := t']> ths).
Proof.
  intros Ho [Hw Hu Hn].
  assert (Hold : forall j t s, <[i := t']> ths !! j = Some t -> awaits t = Some s ->
                   ths !! j = Some t).
  { intros j t s [(_ & <- & _)|(_ & Hl)]%list_lookup_insert_Some; [congruence | done]. }
  split; [| | done].
  - intros j t s Hl Ha. eapply Hw; [by eapply Hold | done].
  - intros j j' t t0 s Hl Ha Hl' Ha'. eapply Hu; [by eapply Hold | done | by eapply Hold | done].
Qed.

Lemma priv_invoke T ths t :
  awaits t = None -> priv T ths -> priv T (ths ++ [t]).
Proof.
  intros Ho [Hw Hu Hn].
  assert (Hold : forall j t0 s, (ths ++ [t]) !! j = Some t0 -> awaits t0 = Some s ->
                   ths !! j = Some t0).
  { intros j t0 s [[_ Hl]|[_ <-]]%lookup_snoc_Some; [done | congruence]. }
  split; [| | done].
  - intros j t0 s Hl Ha. eapply Hw; [by eapply Hold | done].
  - intros j j' t0 t1 s Hl Ha Hl' Ha'. eapply Hu; [by eapply Hold | done | by eapply Hold | done].
Qed.

Lemma priv_grow T ths : priv T ths -> priv (T ++ [0]) ths.
Proof.
  intros [Hw Hu Hn]. split; [| done |].
  - intros i t s Hl Ha. apply lookup_app_l_Some. eauto.
  - intros s n [[_ Hl]|[_ <-]]%lookup_snoc_Some; [eauto | lia].
Qed.

Lemma priv_new T ths i t' :
  awaits t' = Some (length T) -> priv T ths -> priv (T ++ [0]) (<[i := t']> ths).
Proof.
  intros Ho [Hw Hu Hn].
  assert (Hcase : forall j t s, <[i := t']> ths !! j = Some t -> awaits t = Some s ->
                    (j = i /\ s = length T) \/ (ths !! j = Some t /\ s < length T)).
  { intros j t s [(-> & <- & _)|(_ & Hl)]%list_lookup_insert_Some Ha.
    - left. split; [done | congruence].
    - right. split; [done |]. eapply lookup_lt_Some. eauto. }
  split.
  - intros j t s Hl Ha. destruct (Hcase _ _ _ Hl Ha) as [[-> ->]|[Hl0 _]].
    + by rewrite lookup_app_r, Nat.sub_diag.
    + apply lookup_app_l_Some. eauto.
  - intros j j' t t0 s Hl Ha Hl' Ha'.
    destruct (Hcase _ _ _ Hl Ha) as [[-> ->]|[Hl0 Hlt]];
      destruct (Hcase _ _ _ Hl' Ha') as [[-> ?]|[Hl0' Hlt']]; try done; try lia.
    eauto.
  - intros s n [[_ Hl]|[_ <-]]%lookup_snoc_Some; [eauto | lia].
Qed.

Lemma priv_recv T ths i t t' s n :
  ths !! i = Some t -> awaits t = Some s -> awaits t' = None ->
  T !! s = Some n ->
  priv T ths -> priv (<[s := S n]> T) (<[i := t']> ths).
Proof.
  intros Hi Ha Ho Hs [Hw Hu Hn].
  assert (n = 0) as -> by (specialize (Hw _ _ _ Hi Ha); congruence).
  assert (Hold : forall j t0 s0, <[i := t']> ths !! j = Some t0 -> awaits t0 = Some s0 ->
                   ths !! j = Some t0 /\ j <> i).
  { intros j t0 s0 [(_ & <- & _)|(? & Hl)]%list_lookup_insert_Some; [congruence | done]. }
  split.
  - intros j t0 s0 Hl Ha0. destruct (Hold _ _ _ Hl Ha0) as [Hl0 Hne].
    rewrite list_lookup_insert_ne; [eauto |].
    intros <-. destruct Hne. eauto.
  - intros j j' t0 t1 s0 Hl Ha0 Hl' Ha1.
    destruct (Hold _ _ _ Hl Ha0) as [Hl0 _]. destruct (Hold _ _ _ Hl' Ha1) as [Hl1 _].
    eauto.
  - intros s0 m [(_ & <- & _)|(_ & Hl)]%list_lookup_insert_Some; [lia | eauto].
Qed.

Lemma lts_step_private a cf cf' :
  private_inv cf -> lts_step a cf = Some cf' -> private_inv cf'.
Proof.
  unfold private_inv. intros Hinv. unfold lts_step. destruct (crashed cf); [done |].
  destruct a as [call|i c|i c|ctx].
  - intros [= <-]. simpl. apply priv_invoke; [by destruct call | done].
  - destruct (threads cf !! i) as [t|] eqn:Hi; [| done].
    destruct (thread_step t c (world cf)) as [[t' w']|] eqn:E; [| done].
    intros [= <-]. simpl.
    destruct t as [pc|pc|pc]; simpl in E.
    + destruct (Start_step pc (world cf)) as [[pc' w'']|] eqn:E'; [| done].
      simpl in E. simplify_eq.
      assert (slots w' = slots (world cf)) as ->; [| by apply priv_idle].
      destruct pc as [o u pw|ctx o u pw|ctx o u pw|e|msg]; simpl in E'; [| | | done..].
      * unfold Start_check in E'. by destruct (running (mgr (world cf))); simplify_eq.
      * pose proof (Start_token_eff remote NewRequestWithContext ctx u pw (world cf)) as H.
        destruct (Start_token ctx u pw (world cf)) as [r w1].
        destruct H as ((_ & Hs & _) & _). by destruct r as [[e|]|msg]; simplify_eq.
      * pose proof (Start_initiate_eff remote NewRequestWithContext xmlUnmarshal
                      ctx o u pw (world cf)) as H.
        destruct (Start_initiate ctx o u pw (world cf)) as [r w1].
        destruct H as (_ & Hs & _). by destruct r as [e|msg]; simplify_eq.
    + destruct (Stop_step pc (world cf)) as [[pc' w'']|] eqn:E'; [| done].
      simpl in E. simplify_eq.
      apply Stop_step_eff in E' as (_ & _ & _ & _ & _ & ->). by apply priv_idle.
    + destruct (SendCommand_step pc c (world cf)) as [[pc' w'']|] eqn:E'; [| done].
      simpl in E. simplify_eq.
      destruct pc as [ty a|ch ty a|s|resp e|msg]; simpl in E'; [| | | done..].
      * destruct (negb _); simplify_eq; by apply priv_idle.
      * destruct c; try done.
        -- destruct ch as [r|]; [| done].
           destruct (chans (world cf) !! r) as [chn|]; [| done].
           destruct (closed chn).
           { simplify_eq. simpl. rewrite fmap_app. simpl.
             by apply priv_idle, priv_grow. }
           destruct (length (buf chn) <? cmdCap); [| done].
           simplify_eq. simpl. rewrite fmap_app. simpl.
           apply priv_new; [| done]. simpl. by rewrite length_fmap.
        -- simplify_eq. simpl. rewrite fmap_app. simpl. by apply priv_idle, priv_grow.
      * destruct c; try done; [| simplify_eq; by apply priv_idle].
        destruct (slots (world cf) !! s) as [sl|] eqn:Hsl; [| done].
        destruct (sent sl !! taken sl); [| done].
        simplify_eq. simpl. rewrite list_fmap_insert. simpl.
        eapply priv_recv; eauto. by rewrite list_lookup_fmap, Hsl.
  - destruct (workers (world cf) !! i) as [[ctx|ctx|ctx]|] eqn:Hi; try done.
    destruct (processCommands_step ctx c (world cf)) as [[st w']|] eqn:E; [| done].
    intros [= <-]. simpl.
    apply processCommands_step_eff in E.
    destruct E as (r & w1 & Hl & Hcase).
    assert (Ht1 : taken <$> slots w1 = taken <$> slots (world cf)).
    { apply loopBody_eff in Hl
        as (_ & _ & _ & _ & [[_ ->]|(_ & _ & cmd & _ & _ & _ & _ & _ & Hs)]); [done |].
      destruct Hs as [->|(sl & resp & Hsl & ->)]; [done |].
      rewrite list_fmap_insert. simpl. apply list_insert_id.
      by rewrite list_lookup_fmap, Hsl. }
    destruct Hcase as [(-> & -> & ->)|(_ & r2 & Hcl & Hst)]; [by rewrite Ht1 |].
    pose proof (cleanup_eff remote NewRequestWithContext ctx w1) as H.
    rewrite Hcl in H. destruct H as (Hs & _). by rewrite Hs, Ht1.
  - case_decide; [| done]. by intros [= <-].
Qed.

(** X19. Reply channels are private in every run: a call that waits for
    its response waits on a channel nobody has received from, no other call
    waits on the same channel, and no reply channel is received from more
    than once. *)
Theorem reply_channels_private (acts : list Action) (cf : Config) :
  exec acts init = Some cf ->
  (forall i s, threads cf !! i = Some (TSend (SendAwait s)) ->
     exists sl, slots (world cf) !! s = Some sl /\ taken sl = 0) /\
  (forall i j s,
     threads cf !! i = Some (TSend (SendAwait s)) ->
     threads cf !! j = Some (TSend (SendAwait s)) -> i = j) /\
  (forall s sl, slots (world cf) !! s = Some sl -> taken sl <= 1).
Proof.
  intros Hex.
  assert (Hp : private_inv cf).
  { revert Hex. apply exec_invariant; [intros; by eapply lts_step_private |].
    split; simpl; [intros i t s; by rewrite lookup_nil | | intros s n; by rewrite lookup_nil].
    intros i j t t' s. by rewrite lookup_nil. }
  destruct Hp as [Hw Hu Hn]. split; [| split].
  - intros i s Hi. specialize (Hw _ _ _ Hi eq_refl).
    rewrite list_lookup_fmap in Hw.
    destruct (slots (world cf) !! s) as [sl|]; [| done].
    exists sl. split; [done |]. by injection Hw.
  - intros i j s Hi Hj. by eapply Hu.
  - intros s sl Hs. apply (Hn s). by rewrite list_lookup_fmap, Hs.
Qed.

End SystemExtras.

(** ** Examples *)

Example runningConfig_status :
  IsRunning (world runningConfig) = true /\
  Status (State (world runningConfig)) = "running".
Proof. split; reflexivity. Qed.

(** Both calls of scenario A return a successful response; the step type is
    read from the key step_type, so it is sent empty here. Afterwards the
    manager is not running. *)
Example scenarioA_run :
  exists cf,
    exec sample_remote sample_newRequest sample_xml scenarioA newManager = Some cf /\
    threads cf !! 1 =
      Some (TSend (SendReturn
              (mkResponse true
                 (DataMap (Some (<["stepType" := VString ""]>
                                   (<["response" := VString "<ok/>"]> ∅))))
                 None) None)) /\
    threads cf !! 2 = Some (TSend (SendReturn (mkResponse true DataNil None) None)) /\
    IsRunning (world cf) = false /\
    trace (world cf) =
      [ EvCall 0 (CallFetchToken "DEV" "secret");
        EvCall 0 (CallStartSession "/sap/bc/adt/oo/classes/zcl_amdp" "DEV" "secret" "tok-1");
        EvCall 0 (CallStep "M1" "" "tok-1");
        EvCall 0 (CallStopSession "M1" "tok-1");
        EvCleanup 0;
        EvCall 0 (CallHardStop "M1" "tok-1") ].
Proof. eexists. split; [vm_compute; reflexivity |]. repeat split. Qed.

Example stoppedConfig_trace :
  trace (world stoppedConfig) =
    [ EvCall 0 (CallFetchToken "DEV" "secret");
      EvCall 0 (CallStartSession "/sap/bc/adt/oo/classes/zcl_amdp" "DEV" "secret" "tok-1");
      EvCleanup 0;
      EvCall 0 (CallHardStop "M1" "tok-1") ].
Proof. reflexivity. Qed.

Lemma worker_exit_cleans_up_once_witness :
  exec sample_remote sample_newRequest sample_xml stopActs newManager
    = Some stoppingConfig /\
  workers (world stoppedConfig) !! 0 = Some (WExited 0) /\
  cleanups 0 (world stoppedConfig) = 1 /\
  hardStops 0 (world stoppedConfig) <= 1 /\
  State (world stoppedConfig) = emptyState /\
  IsRunning (world stoppedConfig) = false /\
  SendCommand_step (SendEntry AMDPCmdGetVariables ∅) CaseSend (world stoppedConfig) =
    Some (SendReturn emptyResponse (Some "AMDP session not running"), world stoppedConfig).
Proof.
  destruct (worker_exit_cleans_up_once sample_remote sample_newRequest sample_xml
              "https://sap.example" "001" false stopActs stoppingConfig 0 0 CaseDone
              stoppedConfig (WExited 0))
    as (_ & H1 & H2 & _ & _ & _ & H3);
    [reflexivity | reflexivity | reflexivity | reflexivity | reflexivity |].
  destruct (H3 eq_refl) as (H4 & H5 & _ & H6).
  repeat split;
    first [exact H1 | exact H2 | exact H4 | exact H5 | apply H6 | reflexivity].
Defined.

Lemma Start_already_running_witness :
  IsRunning (world runningConfig) = true /\
  Start sample_remote sample_newRequest sample_xml "/sap/bc/adt/oo/classes/zcl_other"
    "DEV" "secret" (world runningConfig)
  = (Ret (Some "AMDP session already active"), world runningConfig).
Proof.
  split; [reflexivity |]. apply Start_already_running. reflexivity.
Defined.

Lemma SendCommand_not_running_witness :
  IsRunning (world newManager) = false /\
  SendCommand_step (SendEntry AMDPCmdGetVariables ∅) CaseSend (world newManager) =
    Some (SendReturn emptyResponse (Some "AMDP session not running"), world newManager).
Proof.
  split; [reflexivity |]. apply SendCommand_not_running. reflexivity.
Defined.

Lemma Start_token_fetch_failure_witness :
  exists w',
    Start refusing_remote sample_newRequest sample_xml "/sap/bc/adt/oo/classes/zcl_amdp"
      "DEV" "secret" (world newManager)
      = (Ret (Some "failed to fetch CSRF token: connection refused"), w') /\
    IsRunning w' = false /\
    workers w' = workers (world newManager) /\
    count isStartSession (trace w') = count isStartSession (trace (world newManager)).
Proof.
  eapply (Start_token_fetch_failure refusing_remote sample_newRequest sample_xml
            (world newManager) "/sap/bc/adt/oo/classes/zcl_amdp" "DEV" "secret"
            "connection refused");
    reflexivity.
Defined.

Lemma Start_unusable_token_witness :
  exists w',
    Start unsafe_remote sample_newRequest sample_xml "/sap/bc/adt/oo/classes/zcl_amdp"
      "DEV" "secret" (world newManager)
      = (Ret (Some "failed to fetch CSRF token: failed to get CSRF token"), w') /\
    trace w' = trace (world newManager) ++ [EvCall 0 (CallFetchToken "DEV" "secret")] /\
    IsRunning w' = false /\
    workers w' = workers (world newManager).
Proof.
  apply (Start_unusable_token unsafe_remote sample_newRequest sample_xml
           (world newManager) "/sap/bc/adt/oo/classes/zcl_amdp" "DEV" "secret"
           (mkHttpResponse 200 "unsafe" "" None));
    [reflexivity | reflexivity | reflexivity | right; reflexivity].
Defined.

Lemma Start_failure_keeps_state_witness :
  State rejectedWorld
    = mkState "" "" "/sap/bc/adt/oo/classes/zcl_amdp" "starting" 0 "" /\
  IsRunning rejectedWorld = false /\
  workers rejectedWorld = workers (world newManager) /\
  forall ctx, cleanups ctx rejectedWorld = cleanups ctx (world newManager).
Proof.
  apply (Start_failure_keeps_state rejecting_remote sample_newRequest sample_xml
           (world newManager) "/sap/bc/adt/oo/classes/zcl_amdp" "DEV" "secret"
           "failed to start AMDP session: failed to start session: 403 - forbidden"
           rejectedWorld);
    reflexivity.
Defined.

(** C7, counterexample. The remote answers a step with a result that
    reports a stop at line 42 of CALC; the response carries that document,
    and the session state still has the status running, line 0 and no
    procedure. *)
Lemma step_result_not_recorded :
  exists resp w',
    handleCommand stepping_remote sample_newRequest 0 stepCmd (world runningConfig)
      = (Ret resp, w') /\
    Success resp = true /\
    RData resp = DataMap (Some (<["stepType" := VString "over"]>
                                  (<["response" := VString stepXml]> ∅))) /\
    State w' = State (world runningConfig) /\
    Status (State w') = "running" /\
    CurrentLine (State w') = 0%Z /\
    CurrentProc (State w') = "".
Proof.
  eexists _, _. split; [vm_compute; reflexivity |]. repeat split.
Qed.

Lemma dispatch_panic_recovered_witness :
  exists cf',
    lts_step faulting_remote sample_newRequest sample_xml (RunWorker 0 CaseRecv) queuedConfig
      = Some cf' /\
    workers (world cf') !! 0 = Some (WExited 0) /\
    cleanups 0 (world cf') = 1 /\
    crashed cf' = false /\
    IsRunning (world cf') = false /\
    State (world cf') = emptyState.
Proof.
  destruct (dispatch_panic_recovered faulting_remote sample_newRequest sample_xml
              "https://sap.example" "001" false queueActs queuedConfig 0 0 0
              (mkChan [stepCmd] false) stepCmd []
              "runtime error: invalid memory address"
              (snd (handleCommand faulting_remote sample_newRequest 0 stepCmd
                      (set_chans [mkChan [] false] (world queuedConfig)))))
    as (cf' & Hstep & _ & _ & H1 & _ & Hrec);
    [vm_compute; reflexivity..|].
  destruct Hrec as (Hw & Hcr & Hrun & Hst).
  { intros n mainID token m. unfold faulting_remote, sample_remote. discriminate. }
  exists cf'. repeat split; assumption.
Defined.

Lemma reply_slot_at_most_one_witness :
  threads abandonedConfig !! 1 =
    Some (TSend (SendReturn emptyResponse (Some "command response timeout"))) /\
  slots (world abandonedConfig) = [mkSlot [] 0] /\
  exists cf',
    lts_step sample_remote sample_newRequest sample_xml (RunWorker 0 CaseRecv)
      abandonedConfig = Some cf' /\
    slots (world cf') = [mkSlot [stepResponse] 0].
Proof.
  split; [vm_compute; reflexivity |]. split; [vm_compute; reflexivity |].
  destruct (reply_slot_at_most_one sample_remote sample_newRequest sample_xml
              "https://sap.example" "001" false abandonedActs abandonedConfig)
    as (_ & _ & H3); [vm_compute; reflexivity |].
  destruct (H3 0 0 0 (mkChan [stepCmd] false) stepCmd [])
    as (cf' & sl & Hstep & Hsl & _ & Hs); [vm_compute; reflexivity..|].
  exists cf'. split; [exact Hstep |]. rewrite Hs.
  vm_compute in Hsl. injection Hsl as <-. vm_compute. reflexivity.
Defined.



(** ** Examples for the further properties *)

Lemma handleCommand_no_session_witness :
  MainID (State (world newManager)) = "" /\
  exists resp,
    handleCommand sample_remote sample_newRequest 0 stepCmd (world newManager)
      = (Ret resp, world newManager) /\
    Success resp = false /\ Error resp = Some "no active session".
Proof.
  split; [reflexivity |].
  destruct (handleCommand_no_session sample_remote sample_newRequest 0 stepCmd
              (world newManager))
    as (resp & H & _ & [(Ht & _)|(_ & Hs & He)]);
    [reflexivity | reflexivity | discriminate Ht |].
  exists resp. repeat split; assumption.
Defined.

Lemma handleCommand_unknown_witness :
  handleCommand sample_remote sample_newRequest 0 startCmd (world runningConfig) =
    (Ret (mkResponse false DataNil (Some "unknown command: 0")), world runningConfig).
Proof.
  apply (handleCommand_unknown sample_remote sample_newRequest 0 startCmd
           (world runningConfig)).
  reflexivity.
Defined.

Lemma stop_command_statuses_witness :
  exists r,
    fst (handleCommand gone_remote sample_newRequest 0 stopCmd (world runningConfig))
      = Ret r /\
    Success r = true.
Proof.
  destruct (stop_command_statuses gone_remote sample_newRequest 0 stopCmd
              (world runningConfig) (mkHttpResponse 404 "" "not found" None))
    as (r & Hr & Hs);
    [reflexivity | vm_compute; discriminate | reflexivity | reflexivity |].
  exists r. split; [exact Hr |]. apply Hs. right. right. reflexivity.
Defined.

Lemma getStatus_returns_local_state_witness :
  exists resp w',
    handleCommand sample_remote sample_newRequest 0 statusCmd (world runningConfig)
      = (Ret resp, w') /\
    RData resp = DataState (Some (State (world runningConfig))) /\
    State w' = State (world runningConfig).
Proof.
  eexists _, _. split; [vm_compute; reflexivity |].
  eapply (getStatus_returns_local_state sample_remote sample_newRequest 0 statusCmd
            (world runningConfig));
    [reflexivity | vm_compute; reflexivity | reflexivity].
Defined.

Lemma keepalive_tick_continues_witness :
  exists l,
    loopBody down_remote sample_newRequest 0 CaseTick (world runningConfig)
      = Some (Ret Continue, logged l (world runningConfig)) /\
    (l = [] \/ l = [EvCall 0 (CallKeepalive (MainID (State (world runningConfig))))]).
Proof.
  apply (keepalive_tick_continues down_remote sample_newRequest 0 (world runningConfig)).
  intros mainID msg. vm_compute. discriminate.
Defined.

Lemma Start_result_witness :
  exists w',
    Start sample_remote sample_newRequest sample_xml "/sap/bc/adt/oo/classes/zcl_amdp"
      "DEV" "secret" (world newManager) = (Ret None, w') /\
    IsRunning w' = true /\
    csrfToken (mgr w') = "tok-1" /\
    workers w' = [WRunning 0].
Proof.
  eexists. split; [vm_compute; reflexivity |].
  match goal with
  | |- IsRunning ?w = true /\ _ =>
      destruct (Start_result sample_remote sample_newRequest sample_xml
                  (world newManager) "/sap/bc/adt/oo/classes/zcl_amdp" "DEV" "secret"
                  None w)
        as (Hrun & Hok); [reflexivity | vm_compute; reflexivity |]
  end.
  destruct (Hok eq_refl) as (_ & _ & _ & _ & _ & _ & _ & _ & Hw).
  split; [by apply Hrun |]. split; [reflexivity | exact Hw].
Defined.

Lemma command_queue_bounded_witness :
  chans (world fullConfig) !! 0 = Some fullChan /\
  length (buf fullChan) = 10 /\
  lts_step sample_remote sample_newRequest sample_xml (RunThread 11 CaseSend) fullConfig
    = None /\
  exists cf',
    lts_step sample_remote sample_newRequest sample_xml (RunThread 11 CaseTimeout)
      fullConfig = Some cf' /\
    threads cf' !! 11 =
      Some (TSend (SendReturn emptyResponse (Some "command channel timeout"))) /\
    chans (world cf') = chans (world fullConfig).
Proof.
  split; [vm_compute; reflexivity |]. split; [vm_compute; reflexivity |].
  destruct (command_queue_bounded sample_remote sample_newRequest sample_xml
              "https://sap.example" "001" false fullActs fullConfig)
    as [_ H]; [vm_compute; reflexivity |].
  apply (H 11 0 fullChan AMDPCmdGetStatus ∅); vm_compute; reflexivity.
Defined.

Lemma closed_channel_frozen_witness :
  chans (world leftConfig) !! 0 = Some (mkChan [stepCmd] true) /\
  exists cf',
    exec sample_remote sample_newRequest sample_xml laterActs leftConfig = Some cf' /\
    threads cf' !! 2 = Some (TSend (SendPanic "send on closed channel")) /\
    workers (world cf') = [WExited 0; WRunning 1] /\
    chans (world cf') !! 0 = Some (mkChan [stepCmd] true) /\
    exists sl, slots (world cf') !! 0 = Some sl /\ sent sl = [].
Proof.
  split; [vm_compute; reflexivity |].
  eexists. split; [vm_compute; reflexivity |].
  split; [vm_compute; reflexivity |]. split; [vm_compute; reflexivity |].
  match goal with
  | |- chans (world ?cf') !! 0 = _ /\ _ =>
      destruct (closed_channel_frozen sample_remote sample_newRequest sample_xml
                  "https://sap.example" "001" false leftActs laterActs leftConfig cf'
                  0 (mkChan [stepCmd] true))
        as [H1 H2]; [vm_compute; reflexivity..|]
  end.
  split; [exact H1 |]. apply (H2 stepCmd). by left.
Defined.

Lemma one_session_at_a_time_witness :
  IsRunning (world runningConfig) = true /\
  cancel (mgr (world runningConfig)) = Some 0.
Proof.
  destruct (one_session_at_a_time sample_remote sample_newRequest sample_xml
              "https://sap.example" "001" false startActs runningConfig 0 0)
    as (H1 & _ & _ & H2 & _); [reflexivity | reflexivity |].
  split; assumption.
Defined.

Lemma manager_unchanged_while_worker_runs_witness :
  exists cf',
    lts_step down_remote sample_newRequest sample_xml (RunWorker 0 CaseTick) runningConfig
      = Some cf' /\
    mgr (world cf') = mgr (world runningConfig).
Proof.
  eexists. split; [vm_compute; reflexivity |].
  eapply (manager_unchanged_while_worker_runs down_remote sample_newRequest sample_xml
            "https://sap.example" "001" false startActs runningConfig 0 0
            (RunWorker 0 CaseTick));
    vm_compute; reflexivity.
Defined.

Lemma response_always_delivered_witness :
  exists cf' sl,
    lts_step sample_remote sample_newRequest sample_xml (RunWorker 0 CaseRecv) queuedConfig
      = Some cf' /\
    slots (world queuedConfig) !! 0 = Some sl /\
    sent sl = [] /\
    exists resp, slots (world cf') !! 0 = Some (mkSlot [resp] (taken sl)).
Proof.
  destruct (response_always_delivered sample_remote sample_newRequest sample_xml
              "https://sap.example" "001" false queueActs queuedConfig 0 0 0
              (mkChan [stepCmd] false) stepCmd []
              (mkResponse true
                 (DataMap (Some (<["stepType" := VString "over"]>
                                   (<["response" := VString "<ok/>"]> ∅)))) None)
              (snd (handleCommand sample_remote sample_newRequest 0 stepCmd
                      (set_chans [mkChan [] false] (world queuedConfig)))))
    as (cf' & sl & H1 & H2 & H3 & H4); [vm_compute; reflexivity..|].
  exists cf', sl. repeat split; try assumption. eexists. exact H4.
Defined.

Lemma only_stop_ends_the_loop_witness :
  exists cf',
    lts_step down_remote sample_newRequest sample_xml (RunWorker 0 CaseRecv) queuedConfig
      = Some cf' /\
    workers (world cf') !! 0 = Some (WRunning 0) /\
    mgr (world cf') = mgr (world queuedConfig).
Proof.
  destruct (only_stop_ends_the_loop down_remote sample_newRequest sample_xml
              "https://sap.example" "001" false queueActs queuedConfig 0 0 0
              (mkChan [stepCmd] false) stepCmd []
              (mkResponse false (DataMap None) (Some "connection reset by peer"))
              (snd (handleCommand down_remote sample_newRequest 0 stepCmd
                      (set_chans [mkChan [] false] (world queuedConfig)))))
    as (cf' & st & H1 & H2 & [(Ht & _)|(_ & -> & Hm)]);
    [vm_compute; reflexivity.. | discriminate Ht |].
  exists cf'. repeat split; assumption.
Defined.

Lemma hard_stop_on_exit_witness :
  (hardStops 0 (world stopHandledConfig) = 1 /\
   trace (world stopHandledConfig) = trace (world stopQueuedConfig) ++
     [ EvCall 0 (CallStopSession "M1" "tok-1"); EvCleanup 0;
       EvCall 0 (CallHardStop "M1" "tok-1") ] /\
   ctxs (world stopHandledConfig) = [false]) /\
  (hardStops 0 (world stoppedConfig) = 1 /\
   ctxs (world stoppingConfig) !! 0 = Some true).
Proof.
  split.
  - destruct (hard_stop_on_exit sample_remote sample_newRequest sample_xml
                "https://sap.example" "001" false stopQueuedActs stopQueuedConfig
                0 0 CaseRecv stopHandledConfig (WExited 0))
      as (H1 & _ & H3 & _);
      [vm_compute; reflexivity.. | vm_compute; discriminate | reflexivity |].
    split; [exact H1 |]. split; [vm_compute; reflexivity |].
    rewrite H3. vm_compute. reflexivity.
  - destruct (hard_stop_on_exit sample_remote sample_newRequest sample_xml
                "https://sap.example" "001" false stopActs stoppingConfig
                0 0 CaseDone stoppedConfig (WExited 0))
      as (H1 & _ & _ & H4);
      [vm_compute; reflexivity.. | vm_compute; discriminate | reflexivity |].
    split; [exact H1 | exact (H4 eq_refl)].
Defined.

Lemma Stop_cancels_worker_witness :
  exists cf' cf'',
    lts_step sample_remote sample_newRequest sample_xml (RunThread 1 CaseSend)
      stopCheckedConfig = Some cf' /\
    ctxs (world cf') !! 0 = Some true /\
    lts_step sample_remote sample_newRequest sample_xml (RunWorker 0 CaseDone) cf'
      = Some cf'' /\
    cleanups 0 (world cf'') = 1.
Proof.
  eexists. 
  match goal with
  | |- exists cf'', lts_step _ _ _ _ _ = Some ?cf' /\ _ =>
      destruct (Stop_cancels_worker sample_remote sample_newRequest sample_xml
                  "https://sap.example" "001" false stopCheckedActs stopCheckedConfig
                  1 0 0 CaseSend
                  (default newManager
                     (lts_step sample_remote sample_newRequest sample_xml
                        (RunThread 1 CaseSend) stopCheckedConfig)))
        as (_ & Hc & _ & cf'' & st & Hs & _ & _ & Hcl & _);
        [vm_compute; reflexivity..|]
  end.
  exists cf''. split; [vm_compute; reflexivity |]. repeat split; assumption.
Defined.

Lemma SendCommand_after_cleanup_panics_witness :
  exists cf'',
    lts_step sample_remote sample_newRequest sample_xml (RunThread 1 CaseSend) racedConfig
      = Some cf'' /\
    threads cf'' !! 1 = Some (TSend (SendPanic "send on closed channel")).
Proof.
  destruct (SendCommand_after_cleanup_panics sample_remote sample_newRequest sample_xml
              "https://sap.example" "001" false racingActs racingConfig 0 0 CaseDone
              racedConfig 1 0 AMDPCmdGetVariables ∅)
    as (cf'' & H1 & H2 & _); [vm_compute; reflexivity..|].
  exists cf''. split; assumption.
Defined.

Lemma command_queue_fifo_witness :
  chans (world twoQueuedConfig) !! 0 = Some (mkChan [stepCmd; statusCmd1] false) /\
  chans (world oneHandledConfig) !! 0 = Some (mkChan [statusCmd1] false) /\
  (exists ch',
     chans (world oneHandledConfig) !! 0 = Some ch' /\
     (buf ch' = [stepCmd; statusCmd1] \/
      (exists cmd, buf ch' = [stepCmd; statusCmd1] ++ [cmd]) \/
      (exists cmd, [stepCmd; statusCmd1] = cmd :: buf ch'))) /\
  answered (world bothHandledConfig) 0.
Proof.
  split; [vm_compute; reflexivity |]. split; [vm_compute; reflexivity |].
  destruct (command_queue_fifo sample_remote sample_newRequest sample_xml
              "https://sap.example" "001" false twoQueuedActs twoQueuedConfig 0
              (mkChan [stepCmd; statusCmd1] false))
    as [H1 H2]; [vm_compute; reflexivity.. |].
  split.
  - apply (H1 (RunWorker 0 CaseRecv)). vm_compute. reflexivity.
  - apply (H2 [] stepCmd [] statusCmd1 []
             [RunWorker 0 CaseRecv; RunWorker 0 CaseRecv] bothHandledConfig);
      [reflexivity | vm_compute; reflexivity |].
    eexists. split; [vm_compute; reflexivity | discriminate].
Defined.

Lemma reply_channels_private_witness :
  threads queuedConfig !! 1 = Some (TSend (SendAwait 0)) /\
  exists sl, slots (world queuedConfig) !! 0 = Some sl /\ taken sl = 0.
Proof.
  split; [vm_compute; reflexivity |].
  destruct (reply_channels_private sample_remote sample_newRequest sample_xml
              "https://sap.example" "001" false queueActs queuedConfig)
    as (H & _ & _); [vm_compute; reflexivity |].
  apply (H 1 0). vm_compute. reflexivity.
Defined.

Lemma absent_arguments_default_witness :
  snd (handleCommand sample_remote sample_newRequest 0 mistypedCmd (world runningConfig)) =
    logged [EvCall 0 (CallSetBreakpoint "M1" "" 0 "tok-1")] (world runningConfig).
Proof.
  apply (absent_arguments_default sample_remote sample_newRequest 0 mistypedCmd
           (world runningConfig));
    try reflexivity; try (vm_compute; discriminate);
    intros x; vm_compute; discriminate.
Defined.

Lemma Stop_before_cancel_stored_witness :
  exists cf' cf'',
    lts_step sample_remote sample_newRequest sample_xml (RunThread 1 CaseSend)
      startingConfig = Some cf' /\
    threads cf' !! 1 = Some (TStop (StopReturn None)) /\
    ctxs (world cf') !! 0 = Some false /\
    exec sample_remote sample_newRequest sample_xml
      [RunThread 0 CaseSend; RunThread 0 CaseSend] cf' = Some cf'' /\
    workers (world cf'') = [WRunning 0] /\
    IsRunning (world cf'') = true.
Proof.
  eexists _, _. split; [vm_compute; reflexivity |].
  match goal with
  | |- threads ?cf' !! 1 = _ /\ _ =>
      destruct (Stop_before_cancel_stored sample_remote sample_newRequest sample_xml
                  "https://sap.example" "001" false startingActs startingConfig
                  1 0 0 "/sap/bc/adt/oo/classes/zcl_amdp" "DEV" "secret" CaseSend cf')
        as (H1 & H2 & _); [vm_compute; reflexivity.. |]
  end.
  split; [exact H1 |]. split; [rewrite H2; vm_compute; reflexivity |].
  split; [vm_compute; reflexivity |]. split; vm_compute; reflexivity.
Defined.
